(** * Catch-Me-If-U-Can agent: alert store, evidence buffers, theft tracker
    and contact heuristic

  A shallow embedding of

    - [backend/agent/utils/alert_manager.py]    (module [AlertStore])
    - [backend/agent/utils/video_processing.py] (module [Video])
    - [backend/agent/utils/audio_processing.py] (module [Audio])
    - [backend/agent/models/yolov8/model.py]    (module [Tracker])
    - [backend/agent/models/yolov7_pose/model.py] (module [Pose])

    - [backend/agent/agent.py]                  (module [Agent])
    - [admin/main.py]                           (module [Admin])

  Python objects with mutable fields become records threaded through the
  operations; exceptions become the [Raise] branch of [result]; the
  operating system (the alert database file, the media files, the wall
  clock, the random uuid) is an explicit argument of each operation.
  The numbers of the two detection models are IEEE 754 floating-point
  numbers, every operation on them rounded as the format it runs in
  rounds. *)

From Stdlib Require Import List String Ascii Bool Arith ZArith QArith Lia.
From Stdlib Require Import Qabs Permutation Sorted OrdersEx DecimalString.
From Stdlib Require Import Qround SpecFloat.
Import ListNotations.

Local Open Scope string_scope.
Local Open Scope list_scope.

(* ------------------------------------------------------------------ *)
(** ** Python runtime conventions *)

Module Py.

(** The exceptions the embedded code can raise. *)
Inductive exn : Type :=
| ValueError (msg : string)
| OSError
| RuntimeError
| IndexError
| OverflowError.

(** Outcome of a call: a returned value or a propagated exception. *)
Inductive result (A : Type) : Type :=
| Return (a : A)
| Raise (e : exn).
Arguments Return {A} a.
Arguments Raise {A} e.

Definition raised {A} (r : result A) : bool :=
  match r with Raise _ => true | Return _ => false end.

(** Truthiness of an optional path: [None] and [''] are both falsy. *)
Definition truthy (p : option string) : bool :=
  match p with
  | None => false
  | Some s => negb (String.eqb s "")
  end.

(** [s[:n]] on a string. *)
Definition str_prefix (n : nat) (s : string) : string := substring 0 n s.

(** [l[start:]] for an integer [start]: a negative start counts from the
    end, and both ends are clipped to the list. *)
Definition slice_from {A} (start : Z) (l : list A) : list A :=
  let n := Z.of_nat (List.length l) in
  let s := if (start <? 0)%Z then Z.max (start + n) 0 else Z.min start n in
  skipn (Z.to_nat s) l.

(** The last [n] items of a list, in their order. *)
Definition last_n {A} (n : nat) (l : list A) : list A :=
  skipn (List.length l - n) l.

(** [int(x)] on a number: truncation toward zero. *)
Definition int_of (x : Q) : Z := Z.quot (Qnum x) (Zpos (Qden x)).

(** [a < b] on numbers. *)
Definition Qltb (a b : Q) : bool := negb (Qle_bool b a).

(** [str(n)] on an integer. *)
Definition str_of_int (n : Z) : string := NilZero.string_of_int (Z.to_int n).

(** A [dict] with string keys, in insertion order.  Assigning to a key that
    is present replaces its value where it stands. *)
Definition dict (V : Type) : Type := list (string * V).

Fixpoint dict_set {V} (k : string) (v : V) (d : dict V) : dict V :=
  match d with
  | [] => [(k, v)]
  | (k', v') :: d' =>
      if String.eqb k' k then (k, v) :: d' else (k', v') :: dict_set k v d'
  end.

Definition dict_mem {V} (k : string) (d : dict V) : bool :=
  existsb (fun kv => String.eqb (fst kv) k) d.

Definition dict_empty {V} (d : dict V) : bool :=
  match d with [] => true | _ :: _ => false end.

(** The order in which a [set] built from a list of strings is iterated:
    each distinct string once, in an order the hashes of the strings
    decide. *)
Record set_order : Type := mkOrder {
  set_iter : list string -> list string;
  set_iter_perm : forall l, Permutation (set_iter l) (nodup string_dec l)
}.

(** The order [nodup] leaves the strings in. *)
Definition listed : set_order :=
  {| set_iter := nodup string_dec;
     set_iter_perm := fun l => Permutation_refl (nodup string_dec l) |}.

(** Sequencing of calls that may raise. *)
Definition bind {A B} (r : result A) (k : A -> result B) : result B :=
  match r with
  | Return a => k a
  | Raise e => Raise e
  end.

(** A [for] loop that updates an accumulator and may raise. *)
Fixpoint for_each {A B} (f : B -> A -> result B) (l : list A) (b : B)
    : result B :=
  match l with
  | [] => Return b
  | x :: l' => bind (f b x) (for_each f l')
  end.

(** A [for] loop whose body may [return True]. *)
Fixpoint for_any {A} (f : A -> result bool) (l : list A) : result bool :=
  match l with
  | [] => Return false
  | x :: l' => bind (f x) (fun b => if b then Return true else for_any f l')
  end.

(** [os.path.join(dir, name)] for a relative, non-empty [name]. *)
Definition ends_with_slash (s : string) : bool :=
  match get (String.length s - 1) s with
  | Some c => Ascii.eqb c "/"%char
  | None => false
  end.

Definition path_join (dir name : string) : string :=
  if String.eqb dir "" then name
  else if ends_with_slash dir then (dir ++ name)%string
  else (dir ++ "/" ++ name)%string.

End Py.

Import Py.

Notation "x <- c1 ;; c2" := (bind c1 (fun x => c2))
  (at level 61, c1 at next level, right associativity).


(* ------------------------------------------------------------------ *)
(** ** Floating-point numbers

    A Python [float] is an IEEE 754 binary64 number; the rows of the
    arrays the two models return hold binary32 numbers.  Numbers are
    [spec_float] values and each arithmetic operation is the correctly
    rounded one of the format it runs in; comparisons compare the values
    the numbers stand for. *)

Module Float.

Definition float : Type := spec_float.

(** A binary format: the bits of the mantissa and the exponent of the
    infinities. *)
Record format : Type := mkFormat { prec : Z; emax : Z }.

Definition binary32 : format := mkFormat 24 128.
Definition binary64 : format := mkFormat 53 1024.

Definition fadd (f : format) (x y : float) : float := SFadd (prec f) (emax f) x y.
Definition fsub (f : format) (x y : float) : float := SFsub (prec f) (emax f) x y.
Definition fmul (f : format) (x y : float) : float := SFmul (prec f) (emax f) x y.
Definition fdiv (f : format) (x y : float) : float := SFdiv (prec f) (emax f) x y.

(** Conversion of a number to a format: the nearest number the format
    holds. *)
Definition cast (f : format) (x : float) : float :=
  match x with
  | S754_finite s m e => binary_round (prec f) (emax f) s m e
  | _ => x
  end.

(** A Python [int] used as a [float], and [float('inf')]. *)
Definition of_int (n : Z) : float := binary_normalize 53 1024 n 0 false.

Definition infinity : float := S754_infinity false.

Definition zero : float := S754_zero false.

(** The literal [0.5]. *)
Definition half : float := fdiv binary64 (of_int 1) (of_int 2).

(** The value a number stands for. *)
Inductive xreal : Type :=
| XNaN
| XNegInf
| XPosInf
| XFin (q : Q).

Definition pow2 (e : Z) : Q :=
  match e with
  | Z0 => 1
  | Zpos p => inject_Z (Zpos (2 ^ p))
  | Zneg p => 1 # (2 ^ p)
  end.

Definition value (x : float) : xreal :=
  match x with
  | S754_zero _ => XFin 0
  | S754_infinity s => if s then XNegInf else XPosInf
  | S754_nan => XNaN
  | S754_finite s m e => XFin (inject_Z (cond_Zopp s (Zpos m)) * pow2 e)
  end.

Definition xlt (a b : xreal) : bool :=
  match a, b with
  | XNaN, _ | _, XNaN => false
  | XFin p, XFin q => Qltb p q
  | XNegInf, XNegInf => false
  | XNegInf, _ => true
  | _, XNegInf => false
  | XPosInf, _ => false
  | _, XPosInf => true
  end.

(** The rational a finite number stands for. *)
Definition num (x : float) : Q :=
  match value x with XFin q => q | _ => 0 end.

(** The number stands for the rational [q]. *)
Definition reads (x : float) (q : Q) : bool :=
  match value x with
  | XFin r => Qeq_bool r q
  | _ => false
  end.

(** The number is not negative: a zero of either sign, a positive number,
    plus infinity or a NaN. *)
Definition not_negative (x : float) : Prop :=
  match x with
  | S754_finite true _ _ | S754_infinity true => False
  | _ => True
  end.

(** [a < b]; [a > b] is [flt b a].  A comparison with a NaN is false. *)
Definition flt (a b : float) : bool := xlt (value a) (value b).

(** [min(a, b)] on two numbers: [b] when [b < a], else [a]. *)
Definition py_min (a b : float) : float := if flt b a then b else a.

(** [int(x)]: truncation toward zero; a NaN and the infinities raise. *)
Definition int (x : float) : result Z :=
  match value x with
  | XFin q => Return (int_of q)
  | XNaN => Raise (ValueError "cannot convert float NaN to integer")
  | XNegInf | XPosInf => Raise OverflowError
  end.

(** [math.sqrt(x)]: the binary64 square root; a negative argument raises. *)
Definition math_sqrt (x : float) : result float :=
  if flt x zero then Raise (ValueError "math domain error")
  else Return (SFsqrt 53 1024 x).

(** What the interpreter and NumPy leave open.  [row] is the dtype of the
    rows the models return (float32); [weak] is the dtype of the result when
    a row scalar meets a Python number: the dtype of the scalar under
    NumPy 2, float64 before; [str_set] is the order in which a [set] of
    strings is iterated. *)
Class runtime : Type := mkRuntime {
  row : format;
  weak : format;
  str_set : set_order
}.

Section Scalars.

Context {rt : runtime}.

(** [x / c] for a row scalar and a Python number. *)
Definition weak_div (x c : float) : float := fdiv weak x (cast weak c).

(** [x ** 2]: the square, rounded as the product [x * x] is. *)
Definition sq (x : float) : float := fmul weak x x.

End Scalars.

(** float32 rows under NumPy 2 and under NumPy 1. *)
Definition numpy2 (o : set_order) : runtime :=
  {| row := binary32; weak := binary32; str_set := o |}.

Definition numpy1 (o : set_order) : runtime :=
  {| row := binary32; weak := binary64; str_set := o |}.

(** The binary32 number nearest to [n] and to [n / d]. *)
Definition px (n : Z) : float := binary_normalize 24 128 n 0 false.

Definition f32 (n : Z) (d : positive) : float := fdiv binary32 (px n) (px (Zpos d)).

End Float.

(* ------------------------------------------------------------------ *)
(** ** alert_manager.py *)

Module AlertStore.

(** [class Alert]: the object a pipeline builds. *)
Record Alert : Type := mkAlert {
  id : string;
  timestamp : string;
  alert_type : string;
  description : string;
  video_path : option string;
  audio_path : option string;
  is_false_positive : bool;
  feedback : string
}.

(** [Alert.__init__].  The two ambient readings it takes, [uuid.uuid4()]
    printed as text and [datetime.now().isoformat()], are arguments. *)
Definition Alert_init (uuid4 now_iso : string)
    (a_type descr : string) (video audio : option string) : Alert :=
  {| id := str_prefix 8 uuid4;
     timestamp := now_iso;
     alert_type := a_type;
     description := descr;
     video_path := video;
     audio_path := audio;
     is_false_positive := false;
     feedback := "" |}.

(** The dictionary [Alert.to_dict] builds, one field per key. *)
Record alert_dict : Type := mkDict {
  d_id : string;
  d_timestamp : string;
  d_alert_type : string;
  d_description : string;
  d_video_path : option string;
  d_audio_path : option string;
  d_is_false_positive : bool;
  d_feedback : string
}.

Definition to_dict (a : Alert) : alert_dict :=
  {| d_id := id a;
     d_timestamp := timestamp a;
     d_alert_type := alert_type a;
     d_description := description a;
     d_video_path := video_path a;
     d_audio_path := audio_path a;
     d_is_false_positive := is_false_positive a;
     d_feedback := feedback a |}.

(** What [ALERTS_DB_PATH] holds. *)
Inductive db_file : Type :=
| DbAbsent
| DbJson (records : list alert_dict)
| DbGarbled.

(** How the rewrite of the database goes: it completes, [open] raises
    (the file is left as it was), or [json.dump] raises after [open(.., 'w')]
    has truncated the file. *)
Inductive io_fault : Type := NoFault | OpenFault | DumpFault.

(** The [AlertManager] object together with the files it touches. *)
Record store : Type := mkStore {
  alerts : list alert_dict;      (* self.alerts *)
  disk : db_file;                (* ALERTS_DB_PATH *)
  media : list string            (* evidence files that exist *)
}.

Definition set_alerts (l : list alert_dict) (st : store) : store :=
  {| alerts := l; disk := disk st; media := media st |}.

Definition set_disk (d : db_file) (st : store) : store :=
  {| alerts := alerts st; disk := d; media := media st |}.

Definition set_media (m : list string) (st : store) : store :=
  {| alerts := alerts st; disk := disk st; media := m |}.

(** [save_alerts]. *)
Definition save_alerts (io : io_fault) (st : store) : result unit * store :=
  match io with
  | NoFault => (Return tt, set_disk (DbJson (alerts st)) st)
  | OpenFault => (Raise OSError, st)
  | DumpFault => (Raise OSError, set_disk DbGarbled st)
  end.

(** [load_alerts], run by [__init__] on [self.alerts = []]. *)
Definition load_alerts (io : io_fault) (st : store) : result unit * store :=
  match disk st with
  | DbJson l => (Return tt, set_alerts l st)
  | DbGarbled => (Return tt, set_alerts [] st)
  | DbAbsent => save_alerts io st
  end.

Definition AlertManager_init (io : io_fault) (d : db_file) (m : list string)
    : result unit * store :=
  load_alerts io {| alerts := []; disk := d; media := m |}.

(** The argument of [add_alert]: an [Alert] instance or anything else. *)
Inductive py_arg : Type :=
| AnAlert (a : Alert)
| NotAnAlert.

(** [add_alert]. *)
Definition add_alert (arg : py_arg) (io : io_fault) (st : store)
    : result string * store :=
  match arg with
  | AnAlert a =>
      let st1 := set_alerts (alerts st ++ [to_dict a]) st in
      match save_alerts io st1 with
      | (Return _, st2) => (Return (id a), st2)
      | (Raise e, st2) => (Raise e, st2)
      end
  | NotAnAlert => (Raise (ValueError "Expected Alert object"), st)
  end.

(** The sort of [get_all_alerts]: [sorted(.., key=timestamp, reverse=True)].
    Keys are strings, compared as Python compares [str]: lexicographically
    by code point.  The sort is stable, also under [reverse=True]. *)
Definition key_le (a b : string) : bool :=
  match String_as_OT.compare a b with Gt => false | _ => true end.

Fixpoint insert_desc (x : alert_dict) (l : list alert_dict) : list alert_dict :=
  match l with
  | [] => [x]
  | y :: l' =>
      if key_le (d_timestamp y) (d_timestamp x)
      then x :: y :: l'
      else y :: insert_desc x l'
  end.

Definition sorted_desc (l : list alert_dict) : list alert_dict :=
  fold_right insert_desc [] l.

Definition get_all_alerts (st : store) : list alert_dict :=
  sorted_desc (alerts st).

(** [get_alert_by_id]: the first record with that id. *)
Definition get_alert_by_id (alert_id : string) (st : store) : option alert_dict :=
  find (fun d => String.eqb (d_id d) alert_id) (alerts st).

Definition mark (fb : string) (d : alert_dict) : alert_dict :=
  {| d_id := d_id d;
     d_timestamp := d_timestamp d;
     d_alert_type := d_alert_type d;
     d_description := d_description d;
     d_video_path := d_video_path d;
     d_audio_path := d_audio_path d;
     d_is_false_positive := true;
     d_feedback := fb |}.

(** The in-place update of the dictionary [get_alert_by_id] returned: the
    first record with the id changes where it sits in [self.alerts]. *)
Fixpoint mark_first (alert_id fb : string) (l : list alert_dict)
    : list alert_dict :=
  match l with
  | [] => []
  | d :: l' =>
      if String.eqb (d_id d) alert_id
      then mark fb d :: l'
      else d :: mark_first alert_id fb l'
  end.

(** [mark_as_false_positive].  A stored dictionary always has its eight
    keys, so [if alert:] tests only that one was found. *)
Definition mark_as_false_positive (alert_id fb : string) (io : io_fault)
    (st : store) : result bool * store :=
  match get_alert_by_id alert_id st with
  | Some _ =>
      let st1 := set_alerts (mark_first alert_id fb (alerts st)) st in
      match save_alerts io st1 with
      | (Return _, st2) => (Return true, st2)
      | (Raise e, st2) => (Raise e, st2)
      end
  | None => (Return false, st)
  end.

(** One round of the loop over [["video_path", "audio_path"]]:
    [os.remove] when the path is truthy and exists; [rm_fails] tells for
    which paths [os.remove] raises (the exception is printed and dropped). *)
Definition remove_media (rm_fails : string -> bool) (p : option string)
    (m : list string) : list string :=
  match p with
  | Some path =>
      if truthy p && existsb (String.eqb path) m
      then if rm_fails path then m
           else filter (fun q => negb (String.eqb path q)) m
      else m
  | None => m
  end.

(** [self.alerts.pop(i)] at the first index whose id matches. *)
Fixpoint pop_first (alert_id : string) (l : list alert_dict)
    : list alert_dict :=
  match l with
  | [] => []
  | d :: l' =>
      if String.eqb (d_id d) alert_id then l'
      else d :: pop_first alert_id l'
  end.

(** [delete_alert].  The loop returns at the first index whose id
    matches: [get_alert_by_id] is the record met there and [pop_first] the
    list after [self.alerts.pop(i)]. *)
Definition delete_alert (alert_id : string) (rm_fails : string -> bool)
    (io : io_fault) (st : store) : result bool * store :=
  match get_alert_by_id alert_id st with
  | Some d =>
      let m1 := remove_media rm_fails (d_video_path d) (media st) in
      let m2 := remove_media rm_fails (d_audio_path d) m1 in
      let st1 := set_alerts (pop_first alert_id (alerts st)) (set_media m2 st) in
      match save_alerts io st1 with
      | (Return _, st2) => (Return true, st2)
      | (Raise e, st2) => (Raise e, st2)
      end
  | None => (Return false, st)
  end.

(** The ids held in memory, in list order. *)
Definition ids (st : store) : list string := map d_id (alerts st).

(** The persisted collection agrees with memory. *)
Definition in_sync (st : store) : Prop := disk st = DbJson (alerts st).

(** A run of successful [add_alert] calls, one per alert. *)
Definition add_all (l : list Alert) (st : store) : store :=
  fold_left (fun s a => snd (add_alert (AnAlert a) NoFault s)) l st.

(** Timestamps in descending order, as [get_all_alerts] lists them. *)
Definition newest_first (l : list alert_dict) : Prop :=
  StronglySorted
    (fun a b => key_le (d_timestamp b) (d_timestamp a) = true) l.

(** *** Sample data *)

(** A store loaded from an empty database. *)
Definition empty_store : store :=
  {| alerts := []; disk := DbJson []; media := [] |}.

Definition theft_alert : Alert :=
  Alert_init "1b9d6bcd-bbfd-4b2d-9b5d-ab8dfbbd4bed" "2024-05-01T10:15:30.250000"
    "object_theft" "Potential theft detected: laptop missing"
    (Some "videos/alert_object_1714558530_20240501_101530.mp4") None.

(** A later alert whose uuid4 starts with the same eight characters. *)
Definition contact_alert : Alert :=
  Alert_init "1b9d6bcd-0f3a-4c1e-8d2a-5e6f7a8b9c0d" "2024-05-01T10:16:02.500000"
    "inappropriate_contact"
    "Detected inappropriate physical contact between people" None None.

(** The store after both were added. *)
Definition twin_store : store :=
  add_all [theft_alert; contact_alert] empty_store.

End AlertStore.

(* ------------------------------------------------------------------ *)
(** ** video_processing.py *)

Module Video.

Section VideoProcessor.

(** A frame is opaque here.  [fit] is the conditional [cv2.resize] of
    [read_frame]: the frame itself when its shape is [output_size], the
    resized frame otherwise. *)
Variable frame : Type.
Variable fit : frame -> frame.
Variable VIDEO_DIR : string.

Record VideoProcessor : Type := mkVideo {
  fps : Z;
  cap : bool;                               (* self.cap is not None *)
  frame_buffer : list frame;
  max_buffer_size : Z;                      (* ALERT_VIDEO_DURATION * fps *)
  clips : list (string * Z * list frame)    (* files written: path, fps, frames *)
}.

(** [__init__], with [ALERT_VIDEO_DURATION] from the configuration. *)
Definition VideoProcessor_init (ALERT_VIDEO_DURATION fps0 : Z) : VideoProcessor :=
  {| fps := fps0;
     cap := false;
     frame_buffer := [];
     max_buffer_size := (ALERT_VIDEO_DURATION * fps0)%Z;
     clips := [] |}.

Definition set_buffer (b : list frame) (vp : VideoProcessor) : VideoProcessor :=
  {| fps := fps vp; cap := cap vp; frame_buffer := b;
     max_buffer_size := max_buffer_size vp; clips := clips vp |}.

Definition set_cap (c : bool) (vp : VideoProcessor) : VideoProcessor :=
  {| fps := fps vp; cap := c; frame_buffer := frame_buffer vp;
     max_buffer_size := max_buffer_size vp; clips := clips vp |}.

(** The two lines that keep the rolling buffer: append, then [pop(0)] when
    the length exceeds [max_buffer_size]. *)
Definition push (f : frame) (vp : VideoProcessor) : VideoProcessor :=
  let b := frame_buffer vp ++ [f] in
  if (Z.of_nat (List.length b) >? max_buffer_size vp)%Z
  then set_buffer (tl b) vp
  else set_buffer b vp.

(** [read_frame].  [opens] tells whether the source can be opened when
    [start] runs ([start] assigns [self.cap] before it tests [isOpened], so
    a failed start still leaves a capture object behind); [rd] is what
    [cap.read()] yields ([None] for [ret] false). *)
Definition read_frame (opens : bool) (rd : option frame) (vp : VideoProcessor)
    : result (option frame) * VideoProcessor :=
  if negb (cap vp) && negb opens
  then (Raise (ValueError "Failed to open video source"), set_cap true vp)
  else
    let vp1 := set_cap true vp in
    match rd with
    | None => (Return None, vp1)
    | Some f0 => let f := fit f0 in (Return (Some f), push f vp1)
    end.

(** [save_alert_video].  [stamp] is [time.strftime("%Y%m%d_%H%M%S")];
    [writer_ok] tells whether the [cv2.VideoWriter] could open its file (it
    does not raise when it cannot: the writes are dropped). *)
Definition save_alert_video (alert_id stamp : string) (writer_ok : bool)
    (vp : VideoProcessor) : option string * VideoProcessor :=
  match frame_buffer vp with
  | [] => (None, vp)
  | _ :: _ =>
      let video_path :=
        path_join VIDEO_DIR ("alert_" ++ alert_id ++ "_" ++ stamp ++ ".mp4")%string in
      let written :=
        if writer_ok then clips vp ++ [(video_path, fps vp, frame_buffer vp)]
        else clips vp in
      (Some video_path,
       {| fps := fps vp; cap := cap vp; frame_buffer := frame_buffer vp;
          max_buffer_size := max_buffer_size vp; clips := written |})
  end.

(** A run of [read_frame] calls, one per capture outcome. *)
Definition read_frames (rds : list (option frame)) (vp : VideoProcessor)
    : VideoProcessor :=
  fold_left (fun v rd => snd (read_frame true rd v)) rds vp.

(** The frames such a run pushes, oldest first. *)
Definition pushed (rds : list (option frame)) : list frame :=
  flat_map (fun rd => match rd with Some f => [fit f] | None => [] end) rds.

End VideoProcessor.

Arguments fps {frame} _.
Arguments cap {frame} _.
Arguments frame_buffer {frame} _.
Arguments max_buffer_size {frame} _.
Arguments clips {frame} _.
Arguments push {frame} f vp.
Arguments set_buffer {frame} b vp.
Arguments set_cap {frame} c vp.
Arguments VideoProcessor_init {frame} ALERT_VIDEO_DURATION fps0.
Arguments read_frame {frame} fit opens rd vp.
Arguments read_frames {frame} fit rds vp.
Arguments pushed {frame} fit rds.
Arguments save_alert_video {frame} VIDEO_DIR alert_id stamp writer_ok vp.

End Video.

(* ------------------------------------------------------------------ *)
(** ** audio_processing.py: the buffer and its export *)

Module Audio.

(** One audio sample.  The values only travel through the buffer; the
    export divides them by their peak. *)
Definition sample : Type := Q.

Record AudioProcessor : Type := mkAudio {
  sample_rate : Z;
  channels : Z;
  audio_buffer : list sample;
  max_buffer_size : Z;             (* ALERT_AUDIO_DURATION * sample_rate * channels *)
  recording : bool;
  queue : list (list sample);      (* self.queue, oldest first *)
  wavs : list (string * Z * list (option sample))  (* files written *)
}.

Definition AudioProcessor_init (ALERT_AUDIO_DURATION rate chans : Z)
    : AudioProcessor :=
  {| sample_rate := rate;
     channels := chans;
     audio_buffer := [];
     max_buffer_size := (ALERT_AUDIO_DURATION * rate * chans)%Z;
     recording := false;
     queue := [];
     wavs := [] |}.

(** [audio_callback]: [indata], already flattened, is queued and appended;
    past [max_buffer_size] the buffer becomes [audio_buffer[-max_buffer_size:]]. *)
Definition audio_callback (indata : list sample) (ap : AudioProcessor)
    : AudioProcessor :=
  let b := audio_buffer ap ++ indata in
  let b' :=
    if (Z.of_nat (List.length b) >? max_buffer_size ap)%Z
    then slice_from (- max_buffer_size ap)%Z b
    else b in
  {| sample_rate := sample_rate ap;
     channels := channels ap;
     audio_buffer := b';
     max_buffer_size := max_buffer_size ap;
     recording := recording ap;
     queue := queue ap ++ [indata];
     wavs := wavs ap |}.

Definition callbacks (chunks : list (list sample)) (ap : AudioProcessor)
    : AudioProcessor :=
  fold_left (fun a c => audio_callback c a) chunks ap.

(** [np.max(np.abs(audio_data))] on a non-empty buffer. *)
Definition peak (b : list sample) : Q :=
  fold_right (fun x m => if Qle_bool m (Qabs x) then Qabs x else m) 0%Q b.

(** [audio_data / peak]: a zero peak gives not-a-number samples, [None]. *)
Definition normalized (b : list sample) : list (option sample) :=
  let m := peak b in
  map (fun x => if Qeq_bool m 0 then None else Some (x / m)%Q) b.

(** [save_alert_audio].  [stamp] is the [time.strftime] text and [sf_fails]
    tells whether [sf.write] raises. *)
Definition save_alert_audio (AUDIO_DIR alert_id stamp : string)
    (sf_fails : bool) (ap : AudioProcessor)
    : result (option string) * AudioProcessor :=
  match audio_buffer ap with
  | [] => (Return None, ap)
  | _ :: _ =>
      let audio_path :=
        path_join AUDIO_DIR ("alert_" ++ alert_id ++ "_" ++ stamp ++ ".wav")%string in
      if sf_fails then (Raise RuntimeError, ap)
      else
        (Return (Some audio_path),
         {| sample_rate := sample_rate ap;
            channels := channels ap;
            audio_buffer := audio_buffer ap;
            max_buffer_size := max_buffer_size ap;
            recording := recording ap;
            queue := queue ap;
            wavs := wavs ap
                    ++ [(audio_path, sample_rate ap, normalized (audio_buffer ap))] |})
  end.

(** *** Sample data *)

(** A processor whose configured clip duration is zero seconds. *)
Definition zero_duration : AudioProcessor := AudioProcessor_init 0 16000 1.

(** A processor that keeps three samples. *)
Definition three_samples : AudioProcessor := AudioProcessor_init 3 1 1.

End Audio.

(* ------------------------------------------------------------------ *)
(** ** yolov8/model.py: the object-presence tracker *)

Module Tracker.

Import Float.

(** A row of [results.boxes.data]: six numbers of the row dtype. *)
Record detection : Type := mkDet {
  x1 : float; y1 : float; x2 : float; y2 : float; conf : float; cls_id : float
}.

(** What [detect_objects] returns: the rows and the class-name table. *)
Record results : Type := mkResults {
  boxes : list detection;
  names : Z -> string
}.

(** The value stored per tracked object. *)
Record obj_data : Type := mkObj {
  class : string;
  position : float * float;
  size : float;
  last_seen : Q;
  box : float * float * float * float
}.

Record tracker : Type := mkTracker {
  tracked_objects : dict obj_data;
  missing_objects : list obj_data
}.

Definition watched_classes : list string :=
  ["chair"; "laptop"; "cell phone"; "keyboard"; "mouse"; "cup"; "bottle"].

Definition watched (class_name : string) : bool :=
  existsb (String.eqb class_name) watched_classes.

(** [YOLOv8ObjectDetector.__init__]. *)
Definition tracker_init : tracker :=
  {| tracked_objects := []; missing_objects := [] |}.

(** The wall clock of one call: [clock n] is what the [n]-th evaluation of
    [time.time()] in the call returns. *)
Definition clock_t : Type := nat -> Q.

Section Tracking.

Context {rt : runtime}.

(** [((x1 + x2) / 2, (y1 + y2) / 2)]: the sums are taken in the row dtype. *)
Definition box_center (d : detection) : float * float :=
  (weak_div (fadd row (x1 d) (x2 d)) (of_int 2),
   weak_div (fadd row (y1 d) (y2 d)) (of_int 2)).

(** [(x2 - x1) * (y2 - y1)]. *)
Definition obj_size (d : detection) : float :=
  fmul row (fsub row (x2 d) (x1 d)) (fsub row (y2 d) (y1 d)).

(** The f-string that names an object; its three [int(..)] are evaluated
    from left to right. *)
Definition obj_id (class_name : string) (d : detection) : result string :=
  cx <- int (weak_div (fst (box_center d)) (of_int 20)) ;;
  cy <- int (weak_div (snd (box_center d)) (of_int 20)) ;;
  sz <- int (weak_div (obj_size d) (of_int 500)) ;;
  Return (class_name ++ "_" ++ str_of_int cx
                     ++ "_" ++ str_of_int cy
                     ++ "_" ++ str_of_int sz)%string.

(** [results.names[int(cls_id)]]. *)
Definition class_of (nm : Z -> string) (d : detection) : result string :=
  c <- int (cls_id d) ;; Return (nm c).

(** The body of the loop over the rows: the dictionary built so far and
    the number of clock readings taken. *)
Definition record_detection (nm : Z -> string) (clock : clock_t)
    (acc : dict obj_data * nat) (d : detection)
    : result (dict obj_data * nat) :=
  class_name <- class_of nm d ;;
  if watched class_name
  then
    id <- obj_id class_name d ;;
    Return (dict_set id
              {| class := class_name;
                 position := box_center d;
                 size := obj_size d;
                 last_seen := clock (snd acc);
                 box := (x1 d, y1 d, x2 d, y2 d) |}
              (fst acc),
            S (snd acc))
  else Return acc.

Definition current_of (r : results) (clock : clock_t)
    : result (dict obj_data * nat) :=
  for_each (record_detection (names r) clock) (boxes r) ([], O).

(** The body of the loop over [self.tracked_objects.items()]. *)
Definition check_missing (cur : dict obj_data) (clock : clock_t)
    (acc : list obj_data * nat) (kv : string * obj_data)
    : list obj_data * nat :=
  if dict_mem (fst kv) cur then acc
  else
    let time_missing := (clock (snd acc) - last_seen (snd kv))%Q in
    if Qltb 3 time_missing
    then (fst acc ++ [snd kv], S (snd acc))
    else (fst acc, S (snd acc)).

(** The description of a theft: the names of [set(missing_names)], joined
    in the order the set is iterated. *)
Definition theft_description (missing : list obj_data) : string :=
  ("Potential theft detected: "
     ++ String.concat ", " (set_iter str_set (map class missing))
     ++ " missing")%string.

(** [update_object_tracking], from what [detect_objects(frame)] returned.
    [self.missing_objects = []] comes first, so it stands when the loop
    over the rows raises. *)
Definition update_object_tracking (r : results) (clock : clock_t)
    (t : tracker) : result (bool * string) * tracker :=
  match current_of r clock with
  | Raise e =>
      (Raise e,
       {| tracked_objects := tracked_objects t; missing_objects := [] |})
  | Return (current_objects, n) =>
      if dict_empty (tracked_objects t)
      then (Return (false, ""),
            {| tracked_objects := current_objects; missing_objects := [] |})
      else
        let missing :=
          fst (fold_left (check_missing current_objects clock)
                 (tracked_objects t) ([], n)) in
        let t' := {| tracked_objects := current_objects;
                     missing_objects := missing |} in
        match missing with
        | [] => (Return (false, ""), t')
        | _ :: _ => (Return (true, theft_description missing), t')
        end
  end.

(** A run of ticks: the outcome of each call, oldest first.  The loop that
    calls the tracker goes on after a call that raised. *)
Fixpoint run (ticks : list (results * clock_t)) (t : tracker)
    : list (result (bool * string)) * tracker :=
  match ticks with
  | [] => ([], t)
  | (r, clock) :: rest =>
      let '(out, t1) := update_object_tracking r clock t in
      let '(outs, t2) := run rest t1 in
      (out :: outs, t2)
  end.

(** A row whose class is read without error and is not watched. *)
Definition unwatched_row (nm : Z -> string) (d : detection) : bool :=
  match class_of nm d with
  | Return class_name => negb (watched class_name)
  | Raise _ => false
  end.

(** A tick that detects no object of a watched class. *)
Definition no_watched (r : results) : Prop :=
  Forall (fun d => unwatched_row (names r) d = true) (boxes r).

End Tracking.

(** *** Sample data *)

Definition coco_names (c : Z) : string :=
  if (c =? 63)%Z then "laptop"
  else if (c =? 41)%Z then "cup"
  else if (c =? 0)%Z then "person"
  else "other".

Definition laptop_row : detection :=
  mkDet (px 100) (px 100) (px 300) (px 220) (f32 9 10) (px 63).
Definition cup_row : detection :=
  mkDet (px 400) (px 150) (px 440) (px 200) (f32 4 5) (px 41).
Definition person_row : detection :=
  mkDet (px 10) (px 10) (px 200) (px 400) (f32 9 10) (px 0).

(** A tick whose clock reads [now] throughout the call. *)
Definition tick_at (now : Q) (rows : list detection) : results * clock_t :=
  ({| boxes := rows; names := coco_names |}, fun _ => now).

(** A laptop and a cup seen at 0 s, 1 s and 2 s; from 3 s on, one tick a
    second, only the cup. *)
Definition desk_trace : list (results * clock_t) :=
  [ tick_at 0 [laptop_row; cup_row];
    tick_at 1 [laptop_row; cup_row];
    tick_at 2 [laptop_row; cup_row];
    tick_at 3 [cup_row];
    tick_at 4 [cup_row];
    tick_at 5 [cup_row];
    tick_at 6 [cup_row];
    tick_at 7 [cup_row] ].

(** The same desk watched by a slow loop: the first tick without the
    laptop comes four seconds after the last one with it. *)
Definition slow_trace : list (results * clock_t) :=
  [ tick_at 0 [laptop_row; cup_row];
    tick_at 4 [cup_row];
    tick_at 8 [cup_row] ].

(** Only a person in view. *)
Definition person_only : results :=
  {| boxes := [person_row]; names := coco_names |}.

(** A cup whose box spans the rows from 50 - 2^-17 to 150: the sum
    [y1 + y2], 200 - 2^-17, is not a binary32 number and is rounded to
    200. *)
Definition edge_cup_row : detection :=
  mkDet (px 350) (S754_finite false 13107198 (-18)) (px 390) (px 150)
        (f32 4 5) (px 41).

End Tracker.

(* ------------------------------------------------------------------ *)
(** ** yolov7_pose/model.py: the contact heuristic *)

Module Pose.

Import Float.

(** A keypoint [(x, y, confidence)] and a person, the rows of one
    keypoint array. *)
Record keypoint : Type := mkKp { kx : float; ky : float; kc : float }.

Definition person : Type := list keypoint.

(** [person[i]]. *)
Definition at_ (p : person) (i : nat) : result keypoint :=
  match nth_error p i with
  | Some k => Return k
  | None => Raise IndexError
  end.

(** [p[2] < 0.5]. *)
Definition low_confidence (k : keypoint) : bool := flt (kc k) half.

Definition key_points : list nat := [5; 6; 11; 12]%nat.
Definition hand_indices : list nat := [9; 10]%nat.
Definition body_indices : list nat := [5; 6; 11; 12]%nat.

Definition contact_message : string :=
  "Detected inappropriate physical contact between people".

Section Heuristic.

Context {rt : runtime}.

(** [(a[0] - b[0])**2 + (a[1] - b[1])**2]: the differences are taken in
    the row dtype. *)
Definition sum_sq (u v : float) : float := fadd weak (sq u) (sq v).

Definition gap2 (a b : keypoint) : float :=
  sum_sq (fsub row (kx a) (kx b)) (fsub row (ky a) (ky b)).

(** [math.sqrt((a[0] - b[0])**2 + (a[1] - b[1])**2)]. *)
Definition dist (a b : keypoint) : result float := math_sqrt (gap2 a b).

(** [_calculate_minimum_distance]. *)
Definition _calculate_minimum_distance (person1 person2 : person)
    : result float :=
  for_each
    (fun min_distance p1_idx =>
       p1 <- at_ person1 p1_idx ;;
       if low_confidence p1 then Return min_distance
       else
         for_each
           (fun min_distance' p2_idx =>
              p2 <- at_ person2 p2_idx ;;
              if low_confidence p2 then Return min_distance'
              else
                d <- dist p1 p2 ;;
                Return (py_min min_distance' d))
           key_points min_distance)
    key_points infinity.

(** [[(a[0] + b[0])/2, (a[1] + b[1])/2]]. *)
Definition midpoint (a b : keypoint) : float * float :=
  (weak_div (fadd row (kx a) (kx b)) (of_int 2),
   weak_div (fadd row (ky a) (ky b)) (of_int 2)).

Definition direction (shoulders_mid hips_mid : float * float) : float * float :=
  (fsub weak (fst shoulders_mid) (fst hips_mid),
   fsub weak (snd shoulders_mid) (snd hips_mid)).

(** [math.sqrt(v[0]**2 + v[1]**2)]. *)
Definition norm (v : float * float) : result float :=
  math_sqrt (sum_sq (fst v) (snd v)).

(** [[v[0]/n, v[1]/n]] for a Python [float] [n]. *)
Definition scaled (v : float * float) (n : float) : float * float :=
  (weak_div (fst v) n, weak_div (snd v) n).

Definition dot (u v : float * float) : float :=
  fadd weak (fmul weak (fst u) (fst v)) (fmul weak (snd u) (snd v)).

(** [_are_facing_each_other]. *)
Definition _are_facing_each_other (person1 person2 : person) : result bool :=
  a5 <- at_ person1 5 ;; a6 <- at_ person1 6 ;;
  b5 <- at_ person2 5 ;; b6 <- at_ person2 6 ;;
  a11 <- at_ person1 11 ;; a12 <- at_ person1 12 ;;
  b11 <- at_ person2 11 ;; b12 <- at_ person2 12 ;;
  let p1_direction := direction (midpoint a5 a6) (midpoint a11 a12) in
  let p2_direction := direction (midpoint b5 b6) (midpoint b11 b12) in
  p1_norm <- norm p1_direction ;;
  p2_norm <- norm p2_direction ;;
  if flt zero p1_norm && flt zero p2_norm
  then
    Return (flt (dot (scaled p1_direction p1_norm) (scaled p2_direction p2_norm))
                zero)
  else Return false.

(** One of the two loops of [_detect_hand_contact]: the wrists of [toucher]
    against the shoulders and hips of [touched]. *)
Definition hands_on (toucher touched : person) : result bool :=
  for_any
    (fun hand_idx =>
       hand <- at_ toucher hand_idx ;;
       if low_confidence hand then Return false
       else
         for_any
           (fun body_idx =>
              body <- at_ touched body_idx ;;
              if low_confidence body then Return false
              else
                d <- dist hand body ;;
                Return (flt d (of_int 20)))
           body_indices)
    hand_indices.

Definition _detect_hand_contact (person1 person2 : person) : result bool :=
  b <- hands_on person1 person2 ;;
  if b then Return true else hands_on person2 person1.

(** The body of the two nested loops of [check_inappropriate_contact]. *)
Definition pair_check (person1 person2 : person) : result bool :=
  distance <- _calculate_minimum_distance person1 person2 ;;
  if flt distance (of_int 30)
  then
    facing <- _are_facing_each_other person1 person2 ;;
    if facing then _detect_hand_contact person1 person2 else Return false
  else Return false.

(** The loops over [i] and [j > i], in the order the code visits the
    pairs: [person1] against each later person, then the rest. *)
Fixpoint check_pairs (poses : list person) : result bool :=
  match poses with
  | [] => Return false
  | person1 :: rest =>
      b <- for_any (pair_check person1) rest ;;
      if b then Return true else check_pairs rest
  end.

(** [check_inappropriate_contact]. *)
Definition check_inappropriate_contact (poses : list person)
    : result (bool * string) :=
  if (List.length poses <? 2)%nat then Return (false, "")
  else
    b <- check_pairs poses ;;
    if b then Return (true, contact_message) else Return (false, "").

End Heuristic.

(** *** The heuristic on full keypoint arrays

    When every index the code reads exists, no call raises and each
    function is a plain boolean expression of the keypoints. *)

Definition unseen : keypoint := mkKp zero zero zero.

Definition kp (p : person) (i : nat) : keypoint := nth i p unseen.

Section Full.

Context {rt : runtime}.

(** The distance and the norm the code computes. *)
Definition distance (a b : keypoint) : float := SFsqrt 53 1024 (gap2 a b).

Definition length_of (v : float * float) : float :=
  SFsqrt 53 1024 (sum_sq (fst v) (snd v)).

(** Distances between the confident shoulder and hip landmarks of two
    persons, in the order the loops meet them. *)
Definition seen_row (p1 : keypoint) (q : person) (idxs : list nat) : list float :=
  flat_map
    (fun b => if low_confidence (kp q b) then [] else [distance p1 (kp q b)])
    idxs.

Definition seen_pairs (p q : person) (idxs : list nat) : list float :=
  flat_map
    (fun a => if low_confidence (kp p a) then []
              else seen_row (kp p a) q key_points)
    idxs.

Definition close_b (p q : person) : bool :=
  flt (fold_left py_min (seen_pairs p q key_points) infinity) (of_int 30).

Definition trunk (p : person) : float * float :=
  direction (midpoint (kp p 5) (kp p 6)) (midpoint (kp p 11) (kp p 12)).

(** The trunk vector divided by its length. *)
Definition unit_trunk (p : person) : float * float :=
  scaled (trunk p) (length_of (trunk p)).

Definition facing_b (p q : person) : bool :=
  flt zero (length_of (trunk p)) && flt zero (length_of (trunk q))
  && flt (dot (unit_trunk p) (unit_trunk q)) zero.

Definition hands_b (a b : person) : bool :=
  existsb
    (fun h =>
       negb (low_confidence (kp a h))
       && existsb
            (fun t => negb (low_confidence (kp b t))
                      && flt (distance (kp a h) (kp b t)) (of_int 20))
            body_indices)
    hand_indices.

Definition pair_b (p q : person) : bool :=
  close_b p q && facing_b p q && (hands_b p q || hands_b q p).

Fixpoint pairs_b (poses : list person) : bool :=
  match poses with
  | [] => false
  | p :: rest => existsb (pair_b p) rest || pairs_b rest
  end.

(** *** The three conditions on the numbers the code computes *)

(** The array has the shoulder, wrist and hip rows (indices up to 12). *)
Definition well_formed (p : person) : Prop := (12 < List.length p)%nat.

(** The landmark is not skipped: its confidence is not below 0.5. *)
Definition confident (k : keypoint) : Prop := low_confidence k = false.

(** The minimum of the computed distances among confident shoulder/hip
    pairs is below 30: some such pair has a computed distance below 30. *)
Definition close_together (p q : person) : Prop :=
  exists a b,
    In a key_points /\ In b key_points /\
    confident (kp p a) /\ confident (kp q b) /\
    flt (distance (kp p a) (kp q b)) (of_int 30) = true.

(** Both trunk vectors have a positive computed length, and the dot
    product of the two divided by their lengths is computed negative. *)
Definition facing (p q : person) : Prop :=
  flt zero (length_of (trunk p)) = true /\
  flt zero (length_of (trunk q)) = true /\
  flt (dot (unit_trunk p) (unit_trunk q)) zero = true.

(** A confident wrist of [a] has a computed distance below 20 to a
    confident shoulder or hip of [b]. *)
Definition wrist_on (a b : person) : Prop :=
  exists h t,
    In h hand_indices /\ In t body_indices /\
    confident (kp a h) /\ confident (kp b t) /\
    flt (distance (kp a h) (kp b t)) (of_int 20) = true.

Definition in_contact (p q : person) : Prop :=
  close_together p q /\ facing p q /\ (wrist_on p q \/ wrist_on q p).

Definition some_pair_in_contact (poses : list person) : Prop :=
  exists i j p q,
    (i < j)%nat /\ nth_error poses i = Some p /\ nth_error poses j = Some q /\
    in_contact p q.

End Full.

(** *** The three conditions on the exact coordinates

    The same conditions read on the rational numbers the coordinates stand
    for, with no rounding; a distance is compared through its square. *)

Definition exact_gap2 (a b : keypoint) : Q :=
  ((num (kx a) - num (kx b)) * (num (kx a) - num (kx b))
   + (num (ky a) - num (ky b)) * (num (ky a) - num (ky b)))%Q.








(** *** Sample data: two synthetic persons *)

(** A full array from the six landmarks the heuristic reads; the other
    eleven rows are undetected. *)
Definition synthetic (l_shoulder r_shoulder l_wrist r_wrist l_hip r_hip : keypoint)
    : person :=
  [ unseen; unseen; unseen; unseen; unseen;
    l_shoulder; r_shoulder;
    unseen; unseen;
    l_wrist; r_wrist;
    l_hip; r_hip;
    unseen; unseen; unseen; unseen ].

(** A landmark at whole pixels, with a confidence in tenths. *)
Definition landmark (x y tenths : Z) : keypoint := mkKp (px x) (px y) (f32 tenths 10).

(** Shoulders above hips; the left wrist is the argument. *)
Definition person_a (l_wrist : keypoint) : person :=
  synthetic (landmark 100 100 9) (landmark 120 100 9)
            l_wrist unseen
            (landmark 100 160 9) (landmark 120 160 9).

(** Hips above shoulders, the shoulders 10 pixels below those of
    [person_a]; both wrists seen, away from the other person. *)
Definition person_b : person :=
  synthetic (landmark 100 110 9) (landmark 120 110 9)
            (landmark 60 80 8) (landmark 160 80 8)
            (landmark 100 50 9) (landmark 120 50 9).

(** The wrist 12 pixels, then 50 pixels, from the left shoulder of
    [person_b]. *)
Definition wrist_near : keypoint := landmark 100 122 9.
Definition wrist_far : keypoint := landmark 100 160 9.

Definition scene_near : list person := [person_a wrist_near; person_b].
Definition scene_far : list person := [person_a wrist_far; person_b].





(** Two landmarks less than 20 pixels apart, 12 + 2^-20 across and
    16 - 2^-20 down: in binary32 the two squares are rounded and their sum
    is 400. *)
Definition corner : keypoint := mkKp (px 0) (px 0) (f32 9 10).

Definition almost_twenty : keypoint :=
  mkKp (S754_finite false 12582913 (-20)) (S754_finite false 16777215 (-20))
       (f32 9 10).

End Pose.

(* ------------------------------------------------------------------ *)
(** ** admin/main.py: the review interface over the alert store *)

Module Admin.

Import AlertStore.

(** The filter fields of [AlertState]. *)
Record filters : Type := mkFilters {
  filter_type : string;             (* "all" or an alert type *)
  filter_date : option string;      (* None, or an ISO date *)
  show_false_positives : bool
}.

(** The initial values of the class. *)
Definition default_filters : filters :=
  {| filter_type := "all"; filter_date := None; show_false_positives := true |}.

(** [s.split("T")[0]]: the text before the first "T". *)
Fixpoint before_T (s : string) : string :=
  match s with
  | EmptyString => EmptyString
  | String c s' => if Ascii.eqb c "T"%char then EmptyString else String c (before_T s')
  end.

(** The body of the loop of [get_filtered_alerts]: [true] when the alert
    reaches [filtered.append], [false] when a [continue] is taken. *)
Definition passes (f : filters) (alert : alert_dict) : bool :=
  if negb (show_false_positives f) && d_is_false_positive alert then false
  else if negb (String.eqb (filter_type f) "all")
          && negb (String.eqb (d_alert_type alert) (filter_type f)) then false
  else if truthy (filter_date f)
  then match filter_date f with
       | Some date => String.eqb (before_T (d_timestamp alert)) date
       | None => true
       end
  else true.

(** [get_filtered_alerts]: a new [AlertManager] is built on the files at
    every call. *)
Definition get_filtered_alerts (f : filters) (io : io_fault) (db : db_file)
    (m : list string) : result (list alert_dict) * store :=
  match AlertManager_init io db m with
  | (Return _, st) => (Return (filter (passes f) (get_all_alerts st)), st)
  | (Raise e, st) => (Raise e, st)
  end.

(** What another [AlertManager] object sees of the files a manager left:
    its own [self.alerts], the shared database and media files. *)
Definition sees_files (other mine : store) : store :=
  set_media (media other) (set_disk (disk other) mine).

(** The manager [AlertState.delete_alert] and [mark_as_false_positive]
    build for one call, on the files the agent's manager left. *)
Definition reviewer_of (agent : store) : store :=
  snd (AlertManager_init NoFault (disk agent) (media agent)).

End Admin.

(* ------------------------------------------------------------------ *)
(** ** audio_processing.py: the speech side *)

Module Speech.

Import Audio.

(** [word in text] on strings. *)
Fixpoint py_in (word text : string) : bool :=
  if prefix word text then true
  else match text with
       | EmptyString => false
       | String _ text' => py_in word text'
       end.

(** [_check_for_curse_words], with the [CURSE_WORDS] of the configuration. *)
Definition _check_for_curse_words (CURSE_WORDS : list string) (text : string)
    : bool :=
  existsb (fun word => py_in word text) CURSE_WORDS.

(** [l[:stop]] for an integer [stop]. *)
Definition slice_to {A} (stop : Z) (l : list A) : list A :=
  let n := Z.of_nat (List.length l) in
  let s := if (stop <? 0)%Z then Z.max (stop + n) 0 else Z.min stop n in
  firstn (Z.to_nat s) l.

(** [chunk_size = int(self.sample_rate * 5)]. *)
Definition chunk_size (ap : AudioProcessor) : Z := (sample_rate ap * 5)%Z.

(** One round of the loop of [_process_audio] once a block came out of the
    queue: the block joins the local [buffer]; when the buffer has reached
    [chunk_size], its first [chunk_size] samples go to
    [_transcribe_and_check] and the buffer restarts at [chunk_size // 2]. *)
Definition process_block (size : Z) (data : list sample) (buffer : list sample)
    : option (list sample) * list sample :=
  let buffer1 := buffer ++ data in
  if (Z.of_nat (List.length buffer1) >=? size)%Z
  then (Some (slice_to size buffer1), slice_from (size / 2)%Z buffer1)
  else (None, buffer1).

(** The rounds for a run of blocks: the chunks handed to transcription,
    oldest first, and the buffer left. *)
Fixpoint process_blocks (size : Z) (blocks : list (list sample))
    (buffer : list sample) : list (list sample) * list sample :=
  match blocks with
  | [] => ([], buffer)
  | data :: rest =>
      let '(chunk, buffer1) := process_block size data buffer in
      let '(chunks, buffer2) := process_blocks size rest buffer1 in
      (match chunk with Some c => c :: chunks | None => chunks end, buffer2)
  end.

(** *** Sample data *)

(** Blocks of one or two samples, for chunks of four. *)
Definition short_blocks : list (list sample) :=
  [[1; 2]; [3; 4]; [5]; [6; 7]]%Q.

End Speech.

(* ------------------------------------------------------------------ *)
(** ** video_processing.py: release *)

Module Capture.

(** [release]: the capture is released and forgotten; [self.writer] is
    never assigned anything but [None]. *)
Definition release {frame} (vp : Video.VideoProcessor frame)
    : Video.VideoProcessor frame :=
  Video.set_cap false vp.

End Capture.

(* ------------------------------------------------------------------ *)
(** ** agent.py: start-up, shutdown and the two detection loops *)

Module Agent.

Import AlertStore.

Section Agent.

Variable frame : Type.
Variable fit : frame -> frame.
Variable VIDEO_DIR : string.
Variable AUDIO_DIR : string.

Context {rt : Float.runtime}.

(** [VideoProcessor.start]: the capture object is stored before
    [isOpened] is tested. *)
Definition start (opens : bool) (vp : Video.VideoProcessor frame)
    : result unit * Video.VideoProcessor frame :=
  if opens then (Return tt, Video.set_cap true vp)
  else (Raise (ValueError "Failed to open video source"), Video.set_cap true vp).

(** The [AudioProcessor] with the two fields the buffer does not need:
    whether [self.stream] and [self.processor_thread] are set. *)
Record recorder : Type := mkRecorder {
  proc : Audio.AudioProcessor;
  stream : bool;
  processor_thread : bool
}.

Definition set_recording (b : bool) (ap : Audio.AudioProcessor)
    : Audio.AudioProcessor :=
  {| Audio.sample_rate := Audio.sample_rate ap;
     Audio.channels := Audio.channels ap;
     Audio.audio_buffer := Audio.audio_buffer ap;
     Audio.max_buffer_size := Audio.max_buffer_size ap;
     Audio.recording := b;
     Audio.queue := Audio.queue ap;
     Audio.wavs := Audio.wavs ap |}.

(** [start_recording].  [stream_opens] tells whether [sd.InputStream]
    could be created; [self.recording] is set before it is tried.  The
    result is [true] for [return self], [false] for the bare [return]. *)
Definition start_recording (stream_opens : bool) (r : recorder)
    : result bool * recorder :=
  if Audio.recording (proc r) then (Return false, r)
  else
    let p1 := set_recording true (proc r) in
    if stream_opens
    then (Return true, {| proc := p1; stream := true; processor_thread := true |})
    else (Raise RuntimeError,
          {| proc := p1; stream := stream r;
             processor_thread := processor_thread r |}).

(** [stop_recording]. *)
Definition stop_recording (r : recorder) : recorder :=
  {| proc := set_recording false (proc r);
     stream := false;
     processor_thread := processor_thread r |}.

(** The [Agent] object.  [threads] lists the workers started, by the
    function they run. *)
Record agent : Type := mkAgent {
  video_processors : list (Video.VideoProcessor frame);
  audio_processor : recorder;
  safe_mode : bool;
  show_visualization : bool;
  object_detector : Tracker.tracker;
  alert_manager : store;
  windows : list string;
  running : bool;
  threads : list string
}.

Definition with_processors (ps : list (Video.VideoProcessor frame)) (a : agent)
    : agent :=
  {| video_processors := ps; audio_processor := audio_processor a;
     safe_mode := safe_mode a; show_visualization := show_visualization a;
     object_detector := object_detector a; alert_manager := alert_manager a;
     windows := windows a; running := running a; threads := threads a |}.

Definition with_audio (r : recorder) (a : agent) : agent :=
  {| video_processors := video_processors a; audio_processor := r;
     safe_mode := safe_mode a; show_visualization := show_visualization a;
     object_detector := object_detector a; alert_manager := alert_manager a;
     windows := windows a; running := running a; threads := threads a |}.

Definition with_detector (t : Tracker.tracker) (a : agent) : agent :=
  {| video_processors := video_processors a; audio_processor := audio_processor a;
     safe_mode := safe_mode a; show_visualization := show_visualization a;
     object_detector := t; alert_manager := alert_manager a;
     windows := windows a; running := running a; threads := threads a |}.

Definition with_manager (st : store) (a : agent) : agent :=
  {| video_processors := video_processors a; audio_processor := audio_processor a;
     safe_mode := safe_mode a; show_visualization := show_visualization a;
     object_detector := object_detector a; alert_manager := st;
     windows := windows a; running := running a; threads := threads a |}.

Definition with_windows (ws : list string) (a : agent) : agent :=
  {| video_processors := video_processors a; audio_processor := audio_processor a;
     safe_mode := safe_mode a; show_visualization := show_visualization a;
     object_detector := object_detector a; alert_manager := alert_manager a;
     windows := ws; running := running a; threads := threads a |}.

Definition with_running (b : bool) (a : agent) : agent :=
  {| video_processors := video_processors a; audio_processor := audio_processor a;
     safe_mode := safe_mode a; show_visualization := show_visualization a;
     object_detector := object_detector a; alert_manager := alert_manager a;
     windows := windows a; running := b; threads := threads a |}.

Definition with_threads (ts : list string) (a : agent) : agent :=
  {| video_processors := video_processors a; audio_processor := audio_processor a;
     safe_mode := safe_mode a; show_visualization := show_visualization a;
     object_detector := object_detector a; alert_manager := alert_manager a;
     windows := windows a; running := running a; threads := ts |}.

(** [stop].  The joined threads stay in [self.threads] and the destroyed
    windows in [self.windows]. *)
Definition stop (a : agent) : agent :=
  with_audio (stop_recording (audio_processor a))
    (with_processors (map Capture.release (video_processors a))
       (with_running false a)).

(** The loop of [start] over the video processors, from index [i] on:
    whether every [processor.start()] went through, the processors and the
    window names afterwards.  [opens i] tells whether source [i] opens. *)
Fixpoint start_sources (opens : nat -> bool) (vis : bool) (i : nat)
    (ps : list (Video.VideoProcessor frame)) (ws : list string)
    : bool * list (Video.VideoProcessor frame) * list string :=
  match ps with
  | [] => (true, [], ws)
  | p :: rest =>
      match start (opens i) p with
      | (Return _, p1) =>
          let ws1 :=
            if vis then ws ++ [("Camera " ++ str_of_int (Z.of_nat i))%string]
            else ws in
          let '(ok, rest1, ws2) := start_sources opens vis (S i) rest ws1 in
          (ok, p1 :: rest1, ws2)
      | (Raise _, p1) => (false, p1 :: rest, ws)
      end
  end.

(** [start], up to the message "Agent started monitoring": what comes
    after is the display loop, which runs until the agent is stopped. *)
Definition start_up (opens : nat -> bool) (stream_opens : bool) (a : agent)
    : agent :=
  if running a then a
  else
    let a1 := with_running true a in
    let '(ok, ps, ws) :=
      start_sources opens (show_visualization a1) O (video_processors a1)
        (windows a1) in
    let a2 := with_windows ws (with_processors ps a1) in
    if ok
    then
      if safe_mode a2 then a2
      else
        let a3 :=
          with_audio (snd (start_recording stream_opens (audio_processor a2))) a2 in
        with_threads
          (threads a3 ++ ["_pose_detection_thread"; "_object_detection_thread"]) a3
    else stop a2.

(** What one round of a detection loop takes from outside. *)
Record world : Type := mkWorld {
  w_opens : bool;                       (* the source opens, if [start] runs *)
  w_frame : option frame;               (* what [cap.read()] yields *)
  w_results : option Tracker.results;   (* [detect_objects]; [None] when it raises *)
  w_clock : Tracker.clock_t;            (* [time.time()] inside the tracker *)
  w_poses : option (list Pose.person);  (* [detect_poses]; [None] when it raises *)
  w_epoch_video : string;               (* [int(time.time())] for the video id *)
  w_epoch_audio : string;               (* [int(time.time())] for the audio id *)
  w_stamp_video : string;               (* [time.strftime] in [save_alert_video] *)
  w_stamp_audio : string;               (* [time.strftime] in [save_alert_audio] *)
  w_writer_ok : bool;
  w_sf_fails : bool;
  w_uuid4 : string;
  w_now : string;
  w_io : io_fault;
  w_overlay : frame                     (* the frame the drawing returns *)
}.

(** [self.video_processors[i] = vp] seen from the list: the processor
    objects are mutated in place. *)
Fixpoint put_processor (i : nat) (vp : Video.VideoProcessor frame)
    (ps : list (Video.VideoProcessor frame))
    : list (Video.VideoProcessor frame) :=
  match ps, i with
  | [], _ => []
  | _ :: rest, O => vp :: rest
  | p :: rest, S i' => p :: put_processor i' vp rest
  end.

(** [l[-1] = x]. *)
Definition set_last {A} (x : A) (l : list A) : result (list A) :=
  match l with
  | [] => Raise IndexError
  | _ :: _ => Return (removelast l ++ [x])
  end.

(** The block under [if detected:]: the two exports, the [Alert] and
    [add_alert]. *)
Definition report (camera_index : nat) (prefix a_type descr : string)
    (w : world) (a : agent) : result unit * agent :=
  match nth_error (video_processors a) camera_index with
  | None => (Raise IndexError, a)
  | Some vp =>
      let '(video_path, vp1) :=
        Video.save_alert_video VIDEO_DIR (prefix ++ w_epoch_video w)%string
          (w_stamp_video w) (w_writer_ok w) vp in
      let a1 := with_processors
                  (put_processor camera_index vp1 (video_processors a)) a in
      match Audio.save_alert_audio AUDIO_DIR (prefix ++ w_epoch_audio w)%string
              (w_stamp_audio w) (w_sf_fails w) (proc (audio_processor a1)) with
      | (Raise e, ap1) =>
          (Raise e,
           with_audio {| proc := ap1; stream := stream (audio_processor a1);
                         processor_thread := processor_thread (audio_processor a1) |}
             a1)
      | (Return audio_path, ap1) =>
          let a2 :=
            with_audio {| proc := ap1; stream := stream (audio_processor a1);
                          processor_thread := processor_thread (audio_processor a1) |}
              a1 in
          let alert :=
            Alert_init (w_uuid4 w) (w_now w) a_type descr video_path audio_path in
          match add_alert (AnAlert alert) (w_io w) (alert_manager a2) with
          | (Raise e, st1) => (Raise e, with_manager st1 a2)
          | (Return _, st1) => (Return tt, with_manager st1 a2)
          end
      end
  end.

(** The block under [if self.show_visualization:]: the drawn frame
    replaces the last frame of the buffer. *)
Definition overlay (camera_index : nat) (w : world) (a : agent)
    : result unit * agent :=
  if show_visualization a
  then
    match nth_error (video_processors a) camera_index with
    | None => (Raise IndexError, a)
    | Some vp =>
        match set_last (w_overlay w) (Video.frame_buffer vp) with
        | Raise e => (Raise e, a)
        | Return b =>
            (Return tt,
             with_processors
               (put_processor camera_index (Video.set_buffer b vp)
                  (video_processors a)) a)
        end
    end
  else (Return tt, a).

(** The [try] block of [_object_detection_thread], camera index 0. *)
Definition object_round (w : world) (a : agent) : result unit * agent :=
  match nth_error (video_processors a) 0 with
  | None => (Raise IndexError, a)
  | Some vp =>
      let '(r, vp1) := Video.read_frame fit (w_opens w) (w_frame w) vp in
      let a1 := with_processors (put_processor 0 vp1 (video_processors a)) a in
      match r with
      | Raise e => (Raise e, a1)
      | Return None => (Return tt, a1)
      | Return (Some _) =>
          match w_results w with
          | None =>
              (Raise RuntimeError,
               with_detector
                 {| Tracker.tracked_objects :=
                      Tracker.tracked_objects (object_detector a1);
                    Tracker.missing_objects := [] |}
                 a1)
          | Some res =>
              let '(r2, t1) :=
                Tracker.update_object_tracking res (w_clock w)
                  (object_detector a1) in
              let a2 := with_detector t1 a1 in
              match r2 with
              | Raise e => (Raise e, a2)
              | Return (detected, description) =>
                  let '(r3, a3) :=
                    if detected
                    then report 0 "object_" "object_theft" description w a2
                    else (Return tt, a2) in
                  match r3 with
                  | Raise e => (Raise e, a3)
                  | Return _ => overlay 0 w a3
                  end
              end
          end
      end
  end.

(** The [try] block of [_pose_detection_thread], camera index 2. *)
Definition pose_round (w : world) (a : agent) : result unit * agent :=
  match nth_error (video_processors a) 2 with
  | None => (Raise IndexError, a)
  | Some vp =>
      let '(r, vp1) := Video.read_frame fit (w_opens w) (w_frame w) vp in
      let a1 := with_processors (put_processor 2 vp1 (video_processors a)) a in
      match r with
      | Raise e => (Raise e, a1)
      | Return None => (Return tt, a1)
      | Return (Some _) =>
          match w_poses w with
          | None => (Raise RuntimeError, a1)
          | Some poses =>
              match Pose.check_inappropriate_contact poses with
              | Raise e => (Raise e, a1)
              | Return (detected, description) =>
                  let '(r3, a3) :=
                    if detected
                    then report 2 "pose_" "inappropriate_contact" description w a1
                    else (Return tt, a1) in
                  match r3 with
                  | Raise e => (Raise e, a3)
                  | Return _ => overlay 2 w a3
                  end
              end
          end
      end
  end.

(** One round of a loop: the [except Exception] arm prints and sleeps, so
    what the round did before it raised stays. *)
Definition object_iteration (w : world) (a : agent) : agent :=
  snd (object_round w a).

Definition pose_iteration (w : world) (a : agent) : agent :=
  snd (pose_round w a).

End Agent.

Arguments video_processors {frame} a.
Arguments audio_processor {frame} a.
Arguments safe_mode {frame} a.
Arguments show_visualization {frame} a.
Arguments object_detector {frame} a.
Arguments alert_manager {frame} a.
Arguments windows {frame} a.
Arguments running {frame} a.
Arguments threads {frame} a.
Arguments stop {frame} a.
Arguments start {frame} opens vp.
Arguments start_sources {frame} opens vis i ps ws.
Arguments start_up {frame} opens stream_opens a.
Arguments w_opens {frame} w.
Arguments w_frame {frame} w.
Arguments w_results {frame} w.
Arguments w_clock {frame} w.
Arguments w_poses {frame} w.
Arguments w_writer_ok {frame} w.
Arguments w_sf_fails {frame} w.
Arguments w_io {frame} w.
Arguments w_overlay {frame} w.
Arguments report {frame} VIDEO_DIR AUDIO_DIR camera_index prefix a_type descr w a.
Arguments overlay {frame} camera_index w a.
Arguments object_round {frame} fit VIDEO_DIR AUDIO_DIR {rt} w a.
Arguments pose_round {frame} fit VIDEO_DIR AUDIO_DIR {rt} w a.
Arguments object_iteration {frame} fit VIDEO_DIR AUDIO_DIR {rt} w a.
Arguments pose_iteration {frame} fit VIDEO_DIR AUDIO_DIR {rt} w a.

(** *** Sample data *)

(** An agent on one camera, frames numbered, that saw a laptop and a cup
    at 0 s and has two audio samples buffered. *)
Definition desk_agent : agent nat :=
  {| video_processors := [Video.VideoProcessor_init 10 30];
     audio_processor :=
       {| proc := Audio.callbacks [[1; 2]%Q] Audio.three_samples;
          stream := false; processor_thread := false |};
     safe_mode := false;
     show_visualization := false;
     object_detector :=
       snd (Tracker.update_object_tracking (rt := Float.numpy2 listed)
              (fst (Tracker.tick_at 0 [Tracker.laptop_row; Tracker.cup_row]))
              (fun _ => 0) Tracker.tracker_init);
     alert_manager := AlertStore.empty_store;
     windows := [];
     running := false;
     threads := [] |}.

(** Four seconds later only the cup is seen; [sf.write] raises or not. *)
Definition theft_world (sf_fails : bool) : world nat :=
  {| w_opens := true;
     w_frame := Some 7%nat;
     w_results := Some (fst (Tracker.tick_at 4 [Tracker.cup_row]));
     w_clock := fun _ => 4;
     w_poses := None;
     w_epoch_video := "1714558530";
     w_epoch_audio := "1714558530";
     w_stamp_video := "20240501_101530";
     w_stamp_audio := "20240501_101530";
     w_writer_ok := true;
     w_sf_fails := sf_fails;
     w_uuid4 := "1b9d6bcd-bbfd-4b2d-9b5d-ab8dfbbd4bed";
     w_now := "2024-05-01T10:15:30.250000";
     w_io := NoFault;
     w_overlay := 0%nat |}.

End Agent.

(* ------------------------------------------------------------------ *)
(** ** yolov8/model.py: what a call examines *)

Module TrackerView.

Import Float.
Import Tracker.

(** The test of the loop over [self.tracked_objects.items()] for a clock
    that reads [now]: the id is not among this tick's ids and more than
    three seconds lie between [now] and the stored sighting. *)
Definition lost (cur : dict obj_data) (now : Q) (kv : string * obj_data) : bool :=
  negb (dict_mem (fst kv) cur) && Qltb 3 (now - last_seen (snd kv)).

(** [d.get(k)] on a dictionary. *)
Definition dict_get {V} (k : string) (d : dict V) : option V :=
  option_map snd (find (fun kv => String.eqb (fst kv) k) d).

Definition stored (o : obj_data)
    : string * (float * float) * float * (float * float * float * float) :=
  (class o, position o, size o, box o).

(** Every stored object is of a watched class. *)
Definition only_watched (t : tracker) : Prop :=
  Forall (fun kv => watched (class (snd kv)) = true) (tracked_objects t) /\
  Forall (fun o => watched (class o) = true) (missing_objects t).

Section Rows.

Context {rt : runtime}.

(** The row is of a watched class: the loop reads the clock for it. *)
Definition watched_row (nm : Z -> string) (d : detection) : bool :=
  match class_of nm d with
  | Return class_name => watched class_name
  | Raise _ => false
  end.

(** The number of clock readings the loop over the rows takes. *)
Definition readings (nm : Z -> string) (rows : list detection) : nat :=
  List.length (filter (watched_row nm) rows).

(** The row is of a watched class and is given the id [k]. *)
Definition names_id (nm : Z -> string) (k : string) (d : detection) : bool :=
  match class_of nm d with
  | Return class_name =>
      watched class_name
      && match obj_id class_name d with
         | Return id => String.eqb id k
         | Raise _ => false
         end
  | Raise _ => false
  end.

(** What a row of a readable class stores under its id, the sighting time
    apart. *)
Definition stored_of (nm : Z -> string) (d : detection)
    : string * (float * float) * float * (float * float * float * float) :=
  (match class_of nm d with Return class_name => class_name | Raise _ => "" end,
   box_center d, obj_size d, (x1 d, y1 d, x2 d, y2 d)).

(** The loop over the rows can name every row: each class is read without
    error, and so is the id of each row of a watched class. *)
Definition readable (r : results) : Prop :=
  Forall
    (fun d => exists class_name,
       class_of (names r) d = Return class_name /\
       (watched class_name = true ->
        exists id, obj_id class_name d = Return id))
    (boxes r).

End Rows.

End TrackerView.

(* ------------------------------------------------------------------ *)
(** ** yolov7_pose/model.py: landmarks the heuristic skips *)

Module PoseView.

Import Pose.

(** No shoulder or hip of the person reaches the confidence of 0.5. *)
Definition torso_unseen (p : person) : Prop :=
  forall i, In i key_points -> low_confidence (kp p i) = true.

(** No wrist of the person reaches the confidence of 0.5. *)
Definition wrists_unseen (p : person) : Prop :=
  forall h, In h hand_indices -> low_confidence (kp p h) = true.

End PoseView.

(* ================================================================== *)
(** * Properties of the numbers *)

Module FloatFacts.

Import Float.

(** ** Comparisons *)

Lemma Qltb_true (a b : Q) : Qltb a b = true <-> (a < b)%Q.
Proof.
  unfold Qltb. rewrite negb_true_iff. split; intros H.
  - apply Qnot_le_lt. intros L. apply Qle_bool_iff in L. congruence.
  - destruct (Qle_bool b a) eqn:E; [|reflexivity].
    apply Qle_bool_iff in E. exfalso. now apply (Qlt_not_le a b).
Qed.

Lemma Qltb_false (a b : Q) : Qltb a b = false <-> (b <= a)%Q.
Proof.
  unfold Qltb. rewrite negb_false_iff. apply Qle_bool_iff.
Qed.

Lemma xlt_trans (a b c : xreal) :
  xlt a b = true -> xlt b c = true -> xlt a c = true.
Proof.
  destruct a, b, c; simpl; try discriminate; try reflexivity.
  rewrite !Qltb_true. apply Qlt_trans.
Qed.

(** [b] not below [a], [b] below [c]: then [a] is below [c], unless [a] is
    not a number. *)
Lemma xlt_le_trans (a b c : xreal) :
  a <> XNaN -> xlt b a = false -> xlt b c = true -> xlt a c = true.
Proof.
  destruct a, b, c; simpl; try discriminate; try reflexivity; try congruence.
  intros _. rewrite Qltb_false, !Qltb_true. apply Qle_lt_trans.
Qed.

Lemma xlt_not_nan (a b : xreal) : xlt a b = true -> a <> XNaN.
Proof. destruct a; simpl; congruence. Qed.

(** Taking one more number into a running minimum that is a number. *)
Lemma flt_py_min (m d t : float) :
  value m <> XNaN ->
  value (py_min m d) <> XNaN /\
  flt (py_min m d) t = flt m t || flt d t.
Proof.
  intros Hm. unfold py_min, flt.
  destruct (xlt (value d) (value m)) eqn:E.
  - split; [now apply (xlt_not_nan _ _ E)|].
    destruct (xlt (value m) (value t)) eqn:E2; simpl; [|reflexivity].
    now apply (xlt_trans _ _ _ E E2).
  - split; [exact Hm|].
    destruct (xlt (value d) (value t)) eqn:E2; [|now rewrite orb_false_r].
    rewrite orb_true_r. now apply (xlt_le_trans _ _ _ Hm E E2).
Qed.

Lemma flt_fold_min (l : list float) (m t : float) :
  value m <> XNaN ->
  flt (fold_left py_min l m) t = flt m t || existsb (fun d => flt d t) l.
Proof.
  revert m. induction l as [|d l IH]; intros m Hm; simpl.
  - now rewrite orb_false_r.
  - destruct (flt_py_min m d t Hm) as [Hn E].
    rewrite (IH _ Hn), E. now rewrite orb_assoc.
Qed.

Lemma flt_infinity (t : float) : flt infinity t = false.
Proof. unfold flt. simpl. now destruct (value t). Qed.

(** ** Signs *)

Lemma pow2_pos (e : Z) : (0 < pow2 e)%Q.
Proof. destruct e; reflexivity. Qed.

Lemma not_negative_flt (x : float) : not_negative x -> flt x zero = false.
Proof.
  unfold flt. destruct x as [s|[]| |[] m e]; simpl; try tauto; intros _.
  apply Qltb_false. apply Qmult_le_0_compat.
  - unfold Qle. simpl. lia.
  - apply Qlt_le_weak, pow2_pos.
Qed.

Lemma round_aux_sign (p em : Z) (s : bool) (m e : Z) (l : location) :
  match binary_round_aux p em s m e l with
  | S754_zero s' | S754_infinity s' | S754_finite s' _ _ => s' = s
  | S754_nan => True
  end.
Proof.
  unfold binary_round_aux.
  destruct (shr_fexp p em m e l) as [mrs' e'].
  destruct (shr_fexp p em _ e' loc_Exact) as [mrs'' e''].
  destruct (shr_m mrs''); [reflexivity | | exact I].
  destruct (e'' <=? em - p)%Z; reflexivity.
Qed.

Lemma round_aux_positive (p em : Z) (m e : Z) (l : location) :
  not_negative (binary_round_aux p em false m e l).
Proof.
  assert (H := round_aux_sign p em false m e l).
  destruct (binary_round_aux p em false m e l) as [s|s| |s m' e'];
    simpl; subst; exact I.
Qed.

Lemma round_positive (p em : Z) (m : positive) (e : Z) :
  not_negative (binary_round p em false m e).
Proof.
  unfold binary_round. destruct (shl_align m e _) as [mz ez].
  apply round_aux_positive.
Qed.

Lemma fmul_self_positive (f : format) (x : float) : not_negative (fmul f x x).
Proof.
  unfold fmul.
  destruct x as [[]|[]| |[] m e]; simpl; try exact I; apply round_aux_positive.
Qed.

Lemma fadd_positive (f : format) (x y : float) :
  not_negative x -> not_negative y -> not_negative (fadd f x y).
Proof.
  unfold fadd.
  destruct x as [[]|[]| |[] m e], y as [[]|[]| |[] m' e'];
    simpl; try tauto; intros _ _.
  apply round_positive.
Qed.

Section ScalarFacts.

Context {rt : runtime}.

Lemma sum_sq_positive (u v : float) : not_negative (Pose.sum_sq u v).
Proof.
  unfold Pose.sum_sq, sq. apply fadd_positive; apply fmul_self_positive.
Qed.

(** [math.sqrt] of a sum of two squares never raises. *)
Lemma sqrt_sum_sq (u v : float) :
  math_sqrt (Pose.sum_sq u v) = Return (SFsqrt 53 1024 (Pose.sum_sq u v)).
Proof.
  unfold math_sqrt. now rewrite (not_negative_flt _ (sum_sq_positive u v)).
Qed.

End ScalarFacts.

(** ** Symmetries *)

Lemma round_aux_abs (p em : Z) (s : bool) (m e : Z) (l : location) :
  SFabs (binary_round_aux p em s m e l)
  = SFabs (binary_round_aux p em false m e l).
Proof.
  unfold binary_round_aux.
  destruct (shr_fexp p em m e l) as [mrs' e'].
  destruct (shr_fexp p em _ e' loc_Exact) as [mrs'' e''].
  destruct (shr_m mrs''); [reflexivity | | reflexivity].
  destruct (e'' <=? em - p)%Z; reflexivity.
Qed.

Lemma round_abs (p em : Z) (s : bool) (m : positive) (e : Z) :
  SFabs (binary_round p em s m e) = SFabs (binary_round p em false m e).
Proof.
  unfold binary_round. destruct (shl_align m e _) as [mz ez].
  apply round_aux_abs.
Qed.

Lemma normalize_abs (p em : Z) (z e : Z) :
  SFabs (binary_normalize p em (- z) e false)
  = SFabs (binary_normalize p em z e false).
Proof.
  destruct z as [|m|m]; simpl; [reflexivity | |].
  - apply round_abs.
  - symmetry. apply round_abs.
Qed.

(** [a - b] and [b - a] differ by their sign at most. *)
Lemma fsub_abs (f : format) (a b : float) :
  SFabs (fsub f a b) = SFabs (fsub f b a).
Proof.
  unfold fsub.
  destruct a as [[]|[]| |sa ma ea], b as [[]|[]| |sb mb eb];
    simpl; try reflexivity.
  rewrite (Z.min_comm eb ea).
  rewrite <- normalize_abs. f_equal. f_equal. lia.
Qed.

Lemma fmul_self_abs (f : format) (x y : float) :
  SFabs x = SFabs y -> fmul f x x = fmul f y y.
Proof.
  unfold fmul.
  destruct x as [[]|[]| |[] m e], y as [[]|[]| |[] m' e'];
    simpl; intros H; try discriminate; try reflexivity;
    injection H as -> ->; reflexivity.
Qed.

Lemma fmul_comm (f : format) (x y : float) : fmul f x y = fmul f y x.
Proof.
  unfold fmul.
  destruct x as [[]|[]| |[] m e], y as [[]|[]| |[] m' e'];
    simpl; try reflexivity;
    now rewrite (Pos.mul_comm m m'), (Z.add_comm e e').
Qed.

End FloatFacts.

(* ================================================================== *)
(** * Properties of the alert store *)

Module AlertStoreSpec.

Import AlertStore.

(** ** Lists: first match, in-place update, removal *)

Lemma find_id_app (i : string) (l1 l2 : list alert_dict) :
  find (fun d => String.eqb (d_id d) i) (l1 ++ l2) =
  match find (fun d => String.eqb (d_id d) i) l1 with
  | Some d => Some d
  | None => find (fun d => String.eqb (d_id d) i) l2
  end.
Proof.
  induction l1 as [|d l1 IH]; simpl; [reflexivity|].
  destruct (String.eqb (d_id d) i); [reflexivity | exact IH].
Qed.

Lemma find_id_none (i : string) (l : list alert_dict) :
  find (fun d => String.eqb (d_id d) i) l = None <-> ~ In i (map d_id l).
Proof.
  induction l as [|d l IH]; simpl.
  - split; [intros _ [] | reflexivity].
  - destruct (String.eqb (d_id d) i) eqn:E.
    + apply String.eqb_eq in E. split; [discriminate | intros H; elim H; now left].
    + apply String.eqb_neq in E. rewrite IH. tauto.
Qed.

Lemma find_id_some (i : string) (l : list alert_dict) (d : alert_dict) :
  find (fun d => String.eqb (d_id d) i) l = Some d -> In d l /\ d_id d = i.
Proof.
  intros H. apply find_some in H. destruct H as [H1 H2].
  split; [exact H1 | now apply String.eqb_eq].
Qed.

Lemma mark_first_ids (i fb : string) (l : list alert_dict) :
  map d_id (mark_first i fb l) = map d_id l.
Proof.
  induction l as [|d l IH]; simpl; [reflexivity|].
  destruct (String.eqb (d_id d) i); simpl; [reflexivity | now rewrite IH].
Qed.

Lemma find_mark_first (i fb : string) (l : list alert_dict) :
  find (fun d => String.eqb (d_id d) i) (mark_first i fb l) =
  option_map (mark fb) (find (fun d => String.eqb (d_id d) i) l).
Proof.
  induction l as [|d l IH]; simpl; [reflexivity|].
  destruct (String.eqb (d_id d) i) eqn:E; simpl; rewrite E; [reflexivity | exact IH].
Qed.

Lemma find_mark_first_other (i i2 fb : string) (l : list alert_dict) :
  i2 <> i ->
  find (fun d => String.eqb (d_id d) i) (mark_first i2 fb l) =
  find (fun d => String.eqb (d_id d) i) l.
Proof.
  intros Hne. induction l as [|d l IH]; simpl; [reflexivity|].
  destruct (String.eqb (d_id d) i2) eqn:E2; simpl.
  - apply String.eqb_eq in E2.
    replace (String.eqb (d_id d) i) with false; [reflexivity|].
    symmetry. apply String.eqb_neq. congruence.
  - destruct (String.eqb (d_id d) i); [reflexivity | exact IH].
Qed.

Lemma mark_first_absent (i fb : string) (l : list alert_dict) :
  find (fun d => String.eqb (d_id d) i) l = None -> mark_first i fb l = l.
Proof.
  induction l as [|d l IH]; simpl; [reflexivity|].
  destruct (String.eqb (d_id d) i); [discriminate | intros H; now rewrite IH].
Qed.

(** No call clears a flag: position by position, a raised flag stays. *)
Lemma mark_first_keeps_flags (i fb : string) (l : list alert_dict) (n : nat)
    (d : alert_dict) :
  nth_error l n = Some d -> d_is_false_positive d = true ->
  exists d', nth_error (mark_first i fb l) n = Some d'
             /\ d_is_false_positive d' = true /\ d_id d' = d_id d.
Proof.
  revert n. induction l as [|x l IH]; intros [|n] H Hf; simpl in *; try discriminate.
  - injection H as ->. destruct (String.eqb (d_id d) i); simpl; eauto.
  - destruct (String.eqb (d_id x) i); simpl; eauto.
Qed.

Lemma pop_first_ids_incl (i : string) (l : list alert_dict) :
  incl (map d_id (pop_first i l)) (map d_id l).
Proof.
  induction l as [|d l IH]; simpl; [apply incl_refl|].
  destruct (String.eqb (d_id d) i); simpl.
  - apply incl_tl, incl_refl.
  - apply incl_cons; [now left | now apply incl_tl].
Qed.

Lemma pop_first_nodup (i : string) (l : list alert_dict) :
  NoDup (map d_id l) -> NoDup (map d_id (pop_first i l)).
Proof.
  induction l as [|d l IH]; simpl; intros H; [exact H|].
  inversion H as [|? ? Hn Hl]; subst.
  destruct (String.eqb (d_id d) i); simpl; [exact Hl|].
  constructor; [|now apply IH].
  intros Hin. apply Hn. now apply (pop_first_ids_incl i l).
Qed.

Lemma pop_first_length (i : string) (l : list alert_dict) :
  In i (map d_id l) -> S (List.length (pop_first i l)) = List.length l.
Proof.
  induction l as [|d l IH]; simpl; [intros []|].
  destruct (String.eqb (d_id d) i) eqn:E; [reflexivity|].
  apply String.eqb_neq in E. intros [H|H]; [contradiction|].
  simpl. now rewrite IH.
Qed.

(** Once the only record with the id is popped, the id is gone. *)
Lemma pop_first_gone (i : string) (l : list alert_dict) :
  NoDup (map d_id l) -> ~ In i (map d_id (pop_first i l)).
Proof.
  induction l as [|d l IH]; simpl; intros H; [tauto|].
  inversion H as [|? ? Hn Hl]; subst.
  destruct (String.eqb (d_id d) i) eqn:E; simpl.
  - apply String.eqb_eq in E. now subst.
  - apply String.eqb_neq in E. intros [Hd|Hd]; [contradiction | now apply IH].
Qed.

Lemma pop_first_absent (i : string) (l : list alert_dict) :
  find (fun d => String.eqb (d_id d) i) l = None -> pop_first i l = l.
Proof.
  induction l as [|d l IH]; simpl; [reflexivity|].
  destruct (String.eqb (d_id d) i); [discriminate | intros H; now rewrite IH].
Qed.

(** ** add_alert under a failing rewrite *)

Lemma add_alert_memory (a : Alert) (io : io_fault) (st : store) :
  alerts (snd (add_alert (AnAlert a) io st)) = alerts st ++ [to_dict a].
Proof. destruct io; reflexivity. Qed.

Lemma add_alert_ok (a : Alert) (st : store) :
  add_alert (AnAlert a) NoFault st =
  (Return (id a),
   {| alerts := alerts st ++ [to_dict a];
      disk := DbJson (alerts st ++ [to_dict a]);
      media := media st |}).
Proof. reflexivity. Qed.

Lemma app_one_neq {A} (l : list A) (x : A) : l ++ [x] <> l.
Proof.
  intros H. apply (f_equal (@List.length A)) in H.
  rewrite length_app in H. simpl in H. lia.
Qed.

(** C1, as stated, fails: [open] raises while the first alert is added to
    a store in step with its database.  The caller does get the exception,
    but the record stays in [self.alerts], which no longer is what the
    database holds. *)
Lemma add_alert_failed_write_keeps_record :
  in_sync empty_store /\
  raised (fst (add_alert (AnAlert theft_alert) OpenFault empty_store)) = true /\
  alerts (snd (add_alert (AnAlert theft_alert) OpenFault empty_store))
    = [to_dict theft_alert] /\
  disk (snd (add_alert (AnAlert theft_alert) OpenFault empty_store)) = DbJson [] /\
  ~ in_sync (snd (add_alert (AnAlert theft_alert) OpenFault empty_store)).
Proof.
  repeat split; try reflexivity.
  unfold in_sync. simpl. discriminate.
Qed.

(** C1, amended: when the rewrite of the database fails during [add_alert],
    the call raises [OSError] (no id is returned), the new record is
    nevertheless kept at the end of the in-memory list, and the database
    is left as it was ([open] failed) or garbled ([json.dump] failed); a
    store that was in step with its database no longer is. *)
Theorem add_alert_write_failure (a : Alert) (io : io_fault) (st : store) :
  io <> NoFault ->
  fst (add_alert (AnAlert a) io st) = Raise OSError /\
  alerts (snd (add_alert (AnAlert a) io st)) = alerts st ++ [to_dict a] /\
  disk (snd (add_alert (AnAlert a) io st))
    = match io with DumpFault => DbGarbled | _ => disk st end /\
  (in_sync st -> ~ in_sync (snd (add_alert (AnAlert a) io st))).
Proof.
  intros Hio. destruct io; [contradiction | |]; simpl.
  - repeat split. unfold in_sync. simpl. intros H1 H2.
    rewrite H1 in H2. injection H2 as H2. symmetry in H2.
    now apply app_one_neq in H2.
  - repeat split. unfold in_sync. simpl. discriminate.
Qed.

Lemma add_alert_write_failure_witness :
  fst (add_alert (AnAlert theft_alert) DumpFault empty_store) = Raise OSError /\
  alerts (snd (add_alert (AnAlert theft_alert) DumpFault empty_store))
    = alerts empty_store ++ [to_dict theft_alert] /\
  disk (snd (add_alert (AnAlert theft_alert) DumpFault empty_store)) = DbGarbled /\
  (in_sync empty_store ->
   ~ in_sync (snd (add_alert (AnAlert theft_alert) DumpFault empty_store))).
Proof.
  apply (add_alert_write_failure theft_alert DumpFault empty_store).
  discriminate.
Defined.

(** ** mark_as_false_positive *)

Lemma mark_present (i fb : string) (st : store) (d : alert_dict) :
  get_alert_by_id i st = Some d ->
  mark_as_false_positive i fb NoFault st =
  (Return true,
   {| alerts := mark_first i fb (alerts st);
      disk := DbJson (mark_first i fb (alerts st));
      media := media st |}).
Proof.
  unfold mark_as_false_positive. intros ->. reflexivity.
Qed.

Lemma mark_memory (i fb : string) (io : io_fault) (st : store) :
  alerts (snd (mark_as_false_positive i fb io st)) = mark_first i fb (alerts st).
Proof.
  unfold mark_as_false_positive.
  destruct (get_alert_by_id i st) eqn:E.
  - destruct io; reflexivity.
  - simpl. symmetry. now apply mark_first_absent.
Qed.

(** C4: [mark_as_false_positive] on a present id returns [True], and then
    [get_alert_by_id] yields the record with the flag set and the feedback
    stored, and the database holds the updated list; on an unknown id it
    returns [False], raises nothing and leaves the store as it was; the
    record [add_alert] stores for a new [Alert] has the flag unset and an
    empty feedback, and is what [get_alert_by_id] yields for the returned id
    when no older record has it; after a second call, on any id, with any
    feedback and whatever happens to the rewrite, the flag is still set. *)
Theorem mark_as_false_positive_spec (i fb : string) (st : store) :
  (forall d, get_alert_by_id i st = Some d ->
     let st' := snd (mark_as_false_positive i fb NoFault st) in
     fst (mark_as_false_positive i fb NoFault st) = Return true /\
     get_alert_by_id i st' = Some (mark fb d) /\
     d_is_false_positive (mark fb d) = true /\
     d_feedback (mark fb d) = fb /\
     in_sync st' /\
     forall i2 fb2 io2,
       exists d2,
         get_alert_by_id i (snd (mark_as_false_positive i2 fb2 io2 st')) = Some d2 /\
         d_is_false_positive d2 = true) /\
  (get_alert_by_id i st = None ->
     forall io, mark_as_false_positive i fb io st = (Return false, st)) /\
  (forall uuid4 now a_type descr video audio,
     let a := Alert_init uuid4 now a_type descr video audio in
     let st' := snd (add_alert (AnAlert a) NoFault st) in
     fst (add_alert (AnAlert a) NoFault st) = Return (id a) /\
     alerts st' = alerts st ++ [to_dict a] /\
     d_is_false_positive (to_dict a) = false /\
     d_feedback (to_dict a) = "" /\
     (get_alert_by_id (id a) st = None ->
      get_alert_by_id (id a) st' = Some (to_dict a))).
Proof.
  split; [|split].
  - intros d Hd st'. subst st'. rewrite (mark_present i fb st d Hd).
    unfold get_alert_by_id in *. simpl.
    rewrite find_mark_first, Hd. simpl.
    repeat split.
    intros i2 fb2 io2. rewrite mark_memory. simpl.
    destruct (string_dec i2 i) as [->|Hne].
    + rewrite find_mark_first, find_mark_first, Hd. simpl. eauto.
    + rewrite find_mark_first_other by exact Hne.
      rewrite find_mark_first, Hd. simpl. eauto.
  - intros Hn io. unfold mark_as_false_positive. now rewrite Hn.
  - intros. subst st'. rewrite add_alert_ok. simpl.
    repeat split. unfold get_alert_by_id. simpl. intros Hn.
    rewrite find_id_app, Hn. simpl. now rewrite String.eqb_refl.
Qed.

Lemma mark_as_false_positive_spec_witness :
  (let st' := snd (mark_as_false_positive "1b9d6bcd" "note" NoFault twin_store) in
   fst (mark_as_false_positive "1b9d6bcd" "note" NoFault twin_store) = Return true /\
   get_alert_by_id "1b9d6bcd" st' = Some (mark "note" (to_dict theft_alert)) /\
   d_is_false_positive (mark "note" (to_dict theft_alert)) = true /\
   d_feedback (mark "note" (to_dict theft_alert)) = "note" /\
   in_sync st' /\
   forall i2 fb2 io2,
     exists d2,
       get_alert_by_id "1b9d6bcd"
         (snd (mark_as_false_positive i2 fb2 io2 st')) = Some d2 /\
       d_is_false_positive d2 = true) /\
  (forall io,
     mark_as_false_positive "0badc0de" "note" io twin_store
       = (Return false, twin_store)) /\
  get_alert_by_id (id theft_alert)
    (snd (add_alert (AnAlert theft_alert) NoFault empty_store))
    = Some (to_dict theft_alert).
Proof.
  split; [|split].
  - apply (proj1 (mark_as_false_positive_spec "1b9d6bcd" "note" twin_store)).
    reflexivity.
  - apply (proj1 (proj2 (mark_as_false_positive_spec "0badc0de" "note" twin_store))).
    reflexivity.
  - apply (proj2 (proj2 (mark_as_false_positive_spec "" "" empty_store))
             "1b9d6bcd-bbfd-4b2d-9b5d-ab8dfbbd4bed" "2024-05-01T10:15:30.250000"
             "object_theft" "Potential theft detected: laptop missing"
             (Some "videos/alert_object_1714558530_20240501_101530.mp4") None).
    reflexivity.
Defined.

(** ** delete_alert *)

Lemma delete_memory (i : string) (rm : string -> bool) (io : io_fault)
    (st : store) :
  alerts (snd (delete_alert i rm io st)) = pop_first i (alerts st).
Proof.
  unfold delete_alert.
  destruct (get_alert_by_id i st) eqn:E.
  - destruct io; reflexivity.
  - simpl. symmetry. now apply pop_first_absent.
Qed.

(** C5 at the failing input: the two records of [twin_store] carry the
    same id, because the two [uuid4] values they were built from agree on
    the eight characters [Alert.__init__] keeps.  [delete_alert] returns
    [True] and pops the first record, and [get_alert_by_id] on the same id
    then finds the second, where the claim has it yield nothing. *)
Theorem delete_then_get_finds_twin :
  twin_store
  = snd (add_alert (AnAlert contact_alert) NoFault
           (snd (add_alert (AnAlert theft_alert) NoFault empty_store))) /\
  ids twin_store = ["1b9d6bcd"; "1b9d6bcd"] /\
  fst (delete_alert "1b9d6bcd" (fun _ => false) NoFault twin_store) = Return true /\
  alerts (snd (delete_alert "1b9d6bcd" (fun _ => false) NoFault twin_store))
  = [to_dict contact_alert] /\
  disk (snd (delete_alert "1b9d6bcd" (fun _ => false) NoFault twin_store))
  = DbJson [to_dict contact_alert] /\
  get_alert_by_id "1b9d6bcd"
    (snd (delete_alert "1b9d6bcd" (fun _ => false) NoFault twin_store))
    = Some (to_dict contact_alert).
Proof. repeat split. Qed.

(** The first record with an id, and the list once it is popped. *)
Lemma find_first_split (i : string) (l : list alert_dict) (d : alert_dict) :
  find (fun x => String.eqb (d_id x) i) l = Some d ->
  exists pre post,
    l = pre ++ d :: post /\ d_id d = i /\ ~ In i (map d_id pre) /\
    pop_first i l = pre ++ post.
Proof.
  induction l as [|x l IH]; simpl; [discriminate|].
  destruct (String.eqb (d_id x) i) eqn:E.
  - intros H. injection H as ->. apply String.eqb_eq in E.
    exists [], l. repeat split; auto.
  - intros H. apply String.eqb_neq in E.
    destruct (IH H) as (pre & post & -> & Hd & Hn & Hp).
    exists (x :: pre), post. simpl. rewrite Hp. repeat split; auto.
    intros [K|K]; [contradiction | now apply Hn].
Qed.

(** What does hold of [delete_alert]: on a present id it returns [True],
    removes the first record with that id, the records before and after
    it staying in their order, and rewrites the database, whether or not
    the evidence files could be removed; a later [get_alert_by_id] yields
    [None] exactly when the id was stored once.  On an unknown id it
    returns [False], raises nothing and leaves the store as it was. *)
Theorem delete_alert_spec (i : string) (rm : string -> bool) (st : store) :
  (forall d, get_alert_by_id i st = Some d ->
     let st' := snd (delete_alert i rm NoFault st) in
     fst (delete_alert i rm NoFault st) = Return true /\
     (exists pre post,
        alerts st = pre ++ d :: post /\ d_id d = i /\ ~ In i (map d_id pre) /\
        alerts st' = pre ++ post) /\
     S (List.length (alerts st')) = List.length (alerts st) /\
     in_sync st' /\
     (get_alert_by_id i st' = None
      <-> count_occ string_dec (ids st) i = 1%nat)) /\
  (get_alert_by_id i st = None ->
     forall io, delete_alert i rm io st = (Return false, st)).
Proof.
  split.
  - intros d Hd st'. subst st'. unfold delete_alert. rewrite Hd. simpl.
    destruct (find_first_split i (alerts st) d Hd) as (pre & post & El & Ei & Hn & Ep).
    split; [reflexivity|]. split; [now exists pre, post|].
    split.
    { apply pop_first_length. apply find_id_some in Hd.
      destruct Hd as [Hin <-]. now apply in_map. }
    split; [reflexivity|].
    unfold get_alert_by_id, ids. simpl. rewrite Ep, El.
    rewrite !map_app, count_occ_app. simpl. rewrite Ei.
    destruct (string_dec i i) as [_|K]; [|contradiction].
    rewrite (proj1 (count_occ_not_In string_dec (map d_id pre) i) Hn).
    simpl. split.
    + intros Hf. f_equal. apply count_occ_not_In.
      intros Hin. apply (find_id_none i (pre ++ post)) in Hf.
      apply Hf. rewrite map_app. apply in_or_app. now right.
    + intros Hc. injection Hc as Hc. apply count_occ_not_In in Hc.
      apply find_id_none. rewrite map_app. intros Hin.
      apply in_app_or in Hin. tauto.
  - intros Hn io. unfold delete_alert. now rewrite Hn.
Qed.

Lemma delete_alert_spec_witness :
  get_alert_by_id "1b9d6bcd"
    (snd (delete_alert "1b9d6bcd" (fun _ => true) NoFault
            (add_all [theft_alert] empty_store))) = None /\
  (forall io,
     delete_alert "0badc0de" (fun _ => true) io (add_all [theft_alert] empty_store)
       = (Return false, add_all [theft_alert] empty_store)).
Proof.
  split.
  - apply (proj1 (delete_alert_spec "1b9d6bcd" (fun _ => true)
                    (add_all [theft_alert] empty_store)) (to_dict theft_alert)).
    + reflexivity.
    + reflexivity.
  - apply (proj2 (delete_alert_spec "0badc0de" (fun _ => true)
                    (add_all [theft_alert] empty_store))).
    reflexivity.
Defined.

(** The evidence file stays when [os.remove] raises, and the record goes
    all the same. *)
Example delete_with_stuck_file :
  let st := set_media ["videos/alert_object_1714558530_20240501_101530.mp4"]
              (add_all [theft_alert] empty_store) in
  delete_alert "1b9d6bcd" (fun _ => true) NoFault st
  = (Return true,
     {| alerts := []; disk := DbJson [];
        media := ["videos/alert_object_1714558530_20240501_101530.mp4"] |}) /\
  delete_alert "1b9d6bcd" (fun _ => false) NoFault st
  = (Return true, {| alerts := []; disk := DbJson []; media := [] |}).
Proof. split; reflexivity. Qed.

(** ** get_all_alerts *)

Lemma key_le_iff (a b : string) :
  key_le a b = true <-> a = b \/ String_as_OT.lt a b.
Proof.
  unfold key_le.
  destruct (String_as_OT.compare_spec a b) as [E|L|G]; split; intros H;
    try discriminate; auto.
  destruct H as [-> | L].
  - exfalso. now apply (StrictOrder_Irreflexive b).
  - exfalso. apply (StrictOrder_Irreflexive a).
    now apply (StrictOrder_Transitive a b a).
Qed.

Lemma key_le_total (a b : string) : key_le a b = true \/ key_le b a = true.
Proof.
  rewrite !key_le_iff.
  destruct (String_as_OT.compare_spec a b) as [E|L|G]; auto.
Qed.

Lemma key_le_antisym (a b : string) :
  key_le a b = true -> key_le b a = true -> a = b.
Proof.
  rewrite !key_le_iff. intros [E|L1] [E'|L2]; auto.
  exfalso. apply (StrictOrder_Irreflexive a).
  now apply (StrictOrder_Transitive a b a).
Qed.

Lemma key_le_trans (a b c : string) :
  key_le a b = true -> key_le b c = true -> key_le a c = true.
Proof.
  rewrite !key_le_iff. intros [->|L1] [->|L2]; auto.
  right. now apply (StrictOrder_Transitive a b c).
Qed.

Lemma insert_desc_perm (x : alert_dict) (l : list alert_dict) :
  Permutation (insert_desc x l) (x :: l).
Proof.
  induction l as [|y l IH]; simpl; [reflexivity|].
  destruct (key_le (d_timestamp y) (d_timestamp x)); [reflexivity|].
  rewrite IH. apply perm_swap.
Qed.

Lemma sorted_desc_perm (l : list alert_dict) : Permutation (sorted_desc l) l.
Proof.
  induction l as [|x l IH]; simpl; [constructor|].
  rewrite insert_desc_perm. now constructor.
Qed.

Lemma insert_desc_sorted (x : alert_dict) (l : list alert_dict) :
  newest_first l -> newest_first (insert_desc x l).
Proof.
  unfold newest_first.
  induction l as [|y l IH]; simpl; intros H.
  - repeat constructor.
  - inversion H as [|? ? Hl Hy]; subst.
    destruct (key_le (d_timestamp y) (d_timestamp x)) eqn:E.
    + constructor; [exact H|]. constructor; [exact E|].
      eapply Forall_impl; [|exact Hy]. simpl. intros z Hz.
      now apply (key_le_trans _ (d_timestamp y)).
    + constructor; [now apply IH|].
      eapply Permutation_Forall.
      * symmetry. apply insert_desc_perm.
      * constructor; [|exact Hy].
        destruct (key_le_total (d_timestamp x) (d_timestamp y)) as [T|T];
          [exact T | congruence].
Qed.

Lemma sorted_desc_sorted (l : list alert_dict) : newest_first (sorted_desc l).
Proof.
  induction l as [|x l IH]; simpl.
  - constructor.
  - now apply insert_desc_sorted.
Qed.

(** Two lists in the same antisymmetric order with the same elements are
    the same list. *)
Lemma sorted_perm_unique {A} (R : A -> A -> Prop) :
  (forall a b, R a b -> R b a -> a = b) ->
  forall l1 l2 : list A,
    StronglySorted R l1 -> StronglySorted R l2 -> Permutation l1 l2 -> l1 = l2.
Proof.
  intros Hanti. induction l1 as [|a l1 IH]; intros l2 S1 S2 P.
  - apply Permutation_nil in P. now subst.
  - destruct l2 as [|b l2].
    + symmetry in P. apply Permutation_nil in P. discriminate.
    + inversion S1 as [|? ? S1' F1]; inversion S2 as [|? ? S2' F2]; subst.
      assert (a = b) as ->.
      { assert (Ha : In a (b :: l2)) by (eapply Permutation_in; [exact P | now left]).
        assert (Hb : In b (a :: l1))
          by (eapply Permutation_in; [symmetry; exact P | now left]).
        destruct Ha as [->|Ha]; [reflexivity|].
        destruct Hb as [->|Hb]; [reflexivity|].
        rewrite Forall_forall in F1, F2. apply Hanti; auto. }
      f_equal. apply IH; auto. now apply Permutation_cons_inv in P.
Qed.

Lemma newest_first_keys (l : list alert_dict) :
  newest_first l ->
  StronglySorted (fun a b => key_le b a = true) (map d_timestamp l).
Proof.
  unfold newest_first. induction 1 as [|x l S IH F]; simpl; constructor; auto.
  rewrite Forall_map. exact F.
Qed.

(** C6: [get_all_alerts] returns every stored alert, once each, with the
    timestamps in descending order; and whatever order the same alerts
    were stored in, the timestamps come out in the same sequence. *)
Theorem get_all_alerts_newest_first (st : store) :
  Permutation (get_all_alerts st) (alerts st) /\
  newest_first (get_all_alerts st) /\
  (forall st', Permutation (alerts st) (alerts st') ->
     map d_timestamp (get_all_alerts st) = map d_timestamp (get_all_alerts st')).
Proof.
  unfold get_all_alerts. split; [apply sorted_desc_perm|].
  split; [apply sorted_desc_sorted|].
  intros st' P.
  apply (sorted_perm_unique (fun a b => key_le b a = true)).
  - intros a b H1 H2. now apply key_le_antisym.
  - apply newest_first_keys, sorted_desc_sorted.
  - apply newest_first_keys, sorted_desc_sorted.
  - apply Permutation_map.
    rewrite (sorted_desc_perm (alerts st)), (sorted_desc_perm (alerts st')).
    exact P.
Qed.

Lemma get_all_alerts_newest_first_witness :
  map d_timestamp (get_all_alerts twin_store)
  = map d_timestamp
      (get_all_alerts (add_all [contact_alert; theft_alert] empty_store)).
Proof.
  apply (proj2 (proj2 (get_all_alerts_newest_first twin_store))).
  apply perm_swap.
Defined.

Example get_all_alerts_twin :
  map d_timestamp (get_all_alerts twin_store)
  = ["2024-05-01T10:16:02.500000"; "2024-05-01T10:15:30.250000"].
Proof. reflexivity. Qed.

(** ** Distinct ids *)

(** C8 at the failing input: two [uuid4] values that differ and agree on
    their first eight characters give two alerts the same id, since
    [Alert.__init__] keeps only those eight characters; both [add_alert]
    calls succeed and return that id, and after the two adds the store
    holds two records and one distinct id. *)
Theorem add_alert_repeats_id :
  "1b9d6bcd-bbfd-4b2d-9b5d-ab8dfbbd4bed" <> "1b9d6bcd-0f3a-4c1e-8d2a-5e6f7a8b9c0d" /\
  id theft_alert = str_prefix 8 "1b9d6bcd-bbfd-4b2d-9b5d-ab8dfbbd4bed" /\
  id contact_alert = str_prefix 8 "1b9d6bcd-0f3a-4c1e-8d2a-5e6f7a8b9c0d" /\
  id theft_alert = id contact_alert /\
  fst (add_alert (AnAlert theft_alert) NoFault empty_store) = Return "1b9d6bcd" /\
  fst (add_alert (AnAlert contact_alert) NoFault
         (snd (add_alert (AnAlert theft_alert) NoFault empty_store)))
    = Return "1b9d6bcd" /\
  ids twin_store = ["1b9d6bcd"; "1b9d6bcd"] /\
  List.length (alerts twin_store) = 2%nat /\
  List.length (nodup string_dec (ids twin_store)) = 1%nat /\
  ~ NoDup (ids twin_store).
Proof.
  split; [discriminate|]. repeat split.
  intros H. inversion H as [|? ? Hn _]. apply Hn. now left.
Qed.

Lemma add_all_ids (l : list Alert) (st : store) :
  ids (add_all l st) = ids st ++ map id l.
Proof.
  revert st. induction l as [|a l IH]; intros st; simpl.
  - now rewrite app_nil_r.
  - unfold add_all in *. simpl. rewrite IH. unfold ids. simpl.
    rewrite map_app. simpl. now rewrite <- app_assoc.
Qed.

(** What does hold of the ids: the store does not choose or check them.
    [add_alert] keeps the stored ids distinct when the id the [Alert] was
    built with is not yet stored; [mark_as_false_positive] leaves the ids as they are and
    [delete_alert] keeps them distinct; and after [N] successful adds of
    alerts with pairwise distinct ids to an empty store, the store holds
    exactly those [N] ids, all distinct. *)
Theorem ids_stay_distinct (st : store) :
  NoDup (ids st) ->
  (forall a io, ~ In (id a) (ids st) ->
     NoDup (ids (snd (add_alert (AnAlert a) io st)))) /\
  (forall i fb io,
     ids (snd (mark_as_false_positive i fb io st)) = ids st) /\
  (forall i rm io, NoDup (ids (snd (delete_alert i rm io st)))) /\
  (forall l : list Alert, NoDup (map id l) ->
     ids (add_all l empty_store) = map id l /\
     List.length (alerts (add_all l empty_store)) = List.length l /\
     NoDup (ids (add_all l empty_store))).
Proof.
  intros Hnd. repeat split.
  - intros a io Hfresh. unfold ids in *. rewrite add_alert_memory, map_app. simpl.
    apply NoDup_app; [exact Hnd | repeat constructor; tauto |].
    intros x Hx [<-|[]]. contradiction.
  - intros i fb io. unfold ids. rewrite mark_memory. apply mark_first_ids.
  - intros i rm io. unfold ids. rewrite delete_memory. now apply pop_first_nodup.
  - now rewrite add_all_ids.
  - rewrite <- (length_map d_id). fold (ids (add_all l empty_store)).
    rewrite add_all_ids. simpl. apply length_map.
  - now rewrite add_all_ids.
Qed.

Lemma ids_stay_distinct_witness :
  NoDup (ids (snd (add_alert (AnAlert theft_alert) DumpFault empty_store))) /\
  List.length (alerts (add_all [theft_alert] empty_store)) = 1%nat.
Proof.
  assert (H0 : NoDup (ids empty_store)) by constructor.
  split.
  - apply (proj1 (ids_stay_distinct empty_store H0)). simpl. tauto.
  - apply (proj2 (proj2 (proj2 (ids_stay_distinct empty_store H0))) [theft_alert]).
    repeat constructor. simpl. tauto.
Defined.

End AlertStoreSpec.

(* ================================================================== *)
(** * Properties of the rolling evidence buffers *)

Module BufferSpec.

(** ** The last items of a list *)

Lemma last_n_length {A} (n : nat) (l : list A) :
  List.length (last_n n l) = Nat.min n (List.length l).
Proof. unfold last_n. rewrite length_skipn. lia. Qed.

Lemma last_n_all {A} (n : nat) (l : list A) :
  (List.length l <= n)%nat -> last_n n l = l.
Proof.
  intros H. unfold last_n. replace (List.length l - n)%nat with O by lia.
  reflexivity.
Qed.

(** Keeping the last [n] items as one goes gives the last [n] of all. *)
Lemma last_n_app {A} (n : nat) (h c : list A) :
  last_n n (last_n n h ++ c) = last_n n (h ++ c).
Proof.
  unfold last_n. rewrite !length_app, length_skipn.
  set (k := (List.length h - n)%nat).
  assert (Hk : (k <= List.length h)%nat) by (unfold k; lia).
  assert (E : skipn k h ++ c = skipn k (h ++ c)).
  { rewrite skipn_app. replace (k - List.length h)%nat with O by lia.
    reflexivity. }
  rewrite E, skipn_skipn. f_equal. unfold k. lia.
Qed.

Lemma tl_skipn {A} (l : list A) : tl l = skipn 1 l.
Proof. destruct l; reflexivity. Qed.

(** ** video_processing.py *)

Section VideoBuffer.

Variable frame : Type.
Variable fit : frame -> frame.

Implicit Types (vp : Video.VideoProcessor frame) (f : frame).

Lemma push_keeps_config f vp :
  Video.max_buffer_size (Video.push f vp) = Video.max_buffer_size vp.
Proof.
  unfold Video.push.
  destruct (Z.of_nat _ >? Video.max_buffer_size vp)%Z; reflexivity.
Qed.

(** One push on a buffer within its capacity. *)
Lemma push_buffer f vp :
  (0 <= Video.max_buffer_size vp)%Z ->
  (Z.of_nat (List.length (Video.frame_buffer vp)) <= Video.max_buffer_size vp)%Z ->
  Video.frame_buffer (Video.push f vp)
  = last_n (Z.to_nat (Video.max_buffer_size vp)) (Video.frame_buffer vp ++ [f]).
Proof.
  intros H0 Hlen. unfold Video.push.
  destruct (Z.of_nat _ >? Video.max_buffer_size vp)%Z eqn:E; simpl.
  - apply Z.gtb_lt in E. rewrite length_app in E. simpl in E.
    rewrite tl_skipn. unfold last_n. f_equal.
    rewrite length_app. simpl. lia.
  - symmetry. apply last_n_all.
    assert (~ (Z.of_nat (List.length (Video.frame_buffer vp ++ [f]))
               > Video.max_buffer_size vp)%Z).
    { intros G. apply Z.gtb_gt in G. congruence. }
    lia.
Qed.

Lemma read_frame_keeps_config opens rd vp :
  Video.max_buffer_size (snd (Video.read_frame fit opens rd vp))
  = Video.max_buffer_size vp.
Proof.
  unfold Video.read_frame.
  destruct (negb (Video.cap vp) && negb opens); [reflexivity|].
  destruct rd; simpl; [|reflexivity].
  now rewrite push_keeps_config.
Qed.

(** The buffer after a run of reads, from any buffer within capacity. *)
Lemma read_frames_buffer (rds : list (option frame)) vp :
  (0 <= Video.max_buffer_size vp)%Z ->
  (Z.of_nat (List.length (Video.frame_buffer vp)) <= Video.max_buffer_size vp)%Z ->
  Video.frame_buffer (Video.read_frames fit rds vp)
  = last_n (Z.to_nat (Video.max_buffer_size vp))
      (Video.frame_buffer vp ++ Video.pushed fit rds).
Proof.
  revert vp. induction rds as [|rd rds IH]; intros vp H0 Hlen.
  - simpl. rewrite app_nil_r. symmetry. apply last_n_all. lia.
  - unfold Video.read_frames in *. simpl fold_left.
    set (vp1 := snd (Video.read_frame fit true rd vp)).
    assert (Hc : Video.max_buffer_size vp1 = Video.max_buffer_size vp)
      by apply read_frame_keeps_config.
    assert (Hb : Video.frame_buffer vp1
                 = last_n (Z.to_nat (Video.max_buffer_size vp))
                     (Video.frame_buffer vp
                        ++ match rd with Some f => [fit f] | None => [] end)).
    { unfold vp1, Video.read_frame. rewrite andb_false_r.
      destruct rd as [f0|]; simpl.
      - rewrite (push_buffer (fit f0) (Video.set_cap true vp)); auto.
      - rewrite app_nil_r. symmetry. apply last_n_all. lia. }
    rewrite IH; rewrite ?Hc; auto.
    + rewrite Hb. simpl Video.pushed. rewrite last_n_app.
      now rewrite <- app_assoc.
    + rewrite Hb, last_n_length. lia.
Qed.

(** The video buffer: for every capacity [C >= 0], the buffer after a run
    of reads from an empty buffer is the last [C] frames pushed, and never
    longer than [C]. *)
Lemma video_buffer_holds_last (duration rate : Z)
    (rds : list (option frame)) :
  (0 <= duration * rate)%Z ->
  let vp := Video.read_frames fit rds (Video.VideoProcessor_init duration rate) in
  Video.frame_buffer vp = last_n (Z.to_nat (duration * rate)) (Video.pushed fit rds) /\
  (Z.of_nat (List.length (Video.frame_buffer vp)) <= duration * rate)%Z.
Proof.
  intros H vp. subst vp.
  rewrite read_frames_buffer; simpl; try lia.
  split; [reflexivity|]. rewrite last_n_length. lia.
Qed.

End VideoBuffer.

(** ** audio_processing.py *)

Lemma slice_from_neg {A} (c : Z) (l : list A) :
  (0 < c)%Z -> slice_from (- c) l = last_n (Z.to_nat c) l.
Proof.
  intros H. unfold slice_from, last_n.
  replace (- c <? 0)%Z with true by (symmetry; apply Z.ltb_lt; lia).
  f_equal. lia.
Qed.

Lemma slice_from_zero {A} (l : list A) : slice_from (- 0) l = l.
Proof.
  unfold slice_from. simpl. now rewrite Z.min_l by lia.
Qed.

Lemma audio_callback_buffer (c : list Audio.sample) (ap : Audio.AudioProcessor) :
  (0 < Audio.max_buffer_size ap)%Z ->
  Audio.audio_buffer (Audio.audio_callback c ap)
  = last_n (Z.to_nat (Audio.max_buffer_size ap)) (Audio.audio_buffer ap ++ c).
Proof.
  intros H. unfold Audio.audio_callback. simpl.
  destruct (Z.of_nat _ >? Audio.max_buffer_size ap)%Z eqn:E.
  - now apply slice_from_neg.
  - symmetry. apply last_n_all.
    assert (~ (Z.of_nat (List.length (Audio.audio_buffer ap ++ c))
               > Audio.max_buffer_size ap)%Z).
    { intros G. apply Z.gtb_gt in G. congruence. }
    lia.
Qed.

Lemma callbacks_buffer (chunks : list (list Audio.sample))
    (ap : Audio.AudioProcessor) :
  (0 < Audio.max_buffer_size ap)%Z ->
  (Z.of_nat (List.length (Audio.audio_buffer ap)) <= Audio.max_buffer_size ap)%Z ->
  Audio.audio_buffer (Audio.callbacks chunks ap)
  = last_n (Z.to_nat (Audio.max_buffer_size ap))
      (Audio.audio_buffer ap ++ List.concat chunks).
Proof.
  revert ap. induction chunks as [|c chunks IH]; intros ap H Hlen.
  - simpl. rewrite app_nil_r. symmetry. apply last_n_all. lia.
  - unfold Audio.callbacks in *. simpl fold_left.
    assert (Hb := audio_callback_buffer c ap H).
    rewrite IH.
    + rewrite Hb. simpl Audio.max_buffer_size. simpl List.concat.
      rewrite last_n_app. now rewrite <- app_assoc.
    + exact H.
    + rewrite Hb, last_n_length. simpl Audio.max_buffer_size. lia.
Qed.

(** The audio buffer: for every capacity [C > 0], the buffer after a run
    of callbacks from an empty buffer is the last [C] samples received, and
    never longer than [C]. *)
Lemma audio_buffer_holds_last (duration rate chans : Z)
    (chunks : list (list Audio.sample)) :
  (0 < duration * rate * chans)%Z ->
  let ap := Audio.callbacks chunks (Audio.AudioProcessor_init duration rate chans) in
  Audio.audio_buffer ap
  = last_n (Z.to_nat (duration * rate * chans)) (List.concat chunks) /\
  (Z.of_nat (List.length (Audio.audio_buffer ap)) <= duration * rate * chans)%Z.
Proof.
  intros H ap. subst ap.
  rewrite callbacks_buffer; simpl; try lia.
  split; [reflexivity|]. rewrite last_n_length. lia.
Qed.

(** With a capacity of zero the slice [audio_buffer[-0:]] is the whole
    list: nothing is ever dropped. *)
Lemma audio_zero_capacity_keeps_all (chunks : list (list Audio.sample))
    (ap : Audio.AudioProcessor) :
  Audio.max_buffer_size ap = 0%Z ->
  Audio.audio_buffer (Audio.callbacks chunks ap)
  = Audio.audio_buffer ap ++ List.concat chunks.
Proof.
  revert ap. induction chunks as [|c chunks IH]; intros ap H.
  - simpl. now rewrite app_nil_r.
  - unfold Audio.callbacks in *. simpl fold_left. rewrite IH by exact H.
    simpl. rewrite H.
    destruct (Z.of_nat _ >? 0)%Z; rewrite ?slice_from_zero;
      now rewrite <- app_assoc.
Qed.

(** C2 at the failing input: an audio processor of capacity 0 (a clip
    duration of zero seconds) receives two one-sample chunks.  The claim
    asks for an empty buffer (the last 0 samples, length at most 0); the
    buffer holds both samples.  The video buffer of the same capacity is
    empty after two frames. *)
Theorem audio_buffer_overflows_zero_capacity :
  Audio.max_buffer_size Audio.zero_duration = 0%Z /\
  Audio.audio_buffer
    (Audio.callbacks [[1 # 2]; [1 # 4]] Audio.zero_duration) = [1 # 2; 1 # 4] /\
  last_n 0 ([1 # 2; 1 # 4] : list Q) = [] /\
  Video.frame_buffer
    (Video.read_frames (fun f : nat => f) [Some 1%nat; Some 2%nat]
       (Video.VideoProcessor_init 0 30)) = [].
Proof. repeat split. Qed.

Example audio_buffer_three :
  Audio.audio_buffer
    (Audio.callbacks [[1; 2]; [3; 4; 5]] Audio.three_samples) = [3; 4; 5].
Proof. reflexivity. Qed.

(** ** Export *)

(** C9: [save_alert_video] and [save_alert_audio] return [None] exactly
    when their buffer is empty, and whether the export returns a path,
    returns [None] or raises, the buffer afterwards is the buffer before. *)
Theorem export_leaves_buffer (frame : Type) (dir alert_id stamp : string)
    (writer_ok sf_fails : bool)
    (vp : Video.VideoProcessor frame) (ap : Audio.AudioProcessor) :
  (fst (Video.save_alert_video dir alert_id stamp writer_ok vp) = None
   <-> Video.frame_buffer vp = []) /\
  Video.frame_buffer (snd (Video.save_alert_video dir alert_id stamp writer_ok vp))
    = Video.frame_buffer vp /\
  (fst (Audio.save_alert_audio dir alert_id stamp sf_fails ap) = Return None
   <-> Audio.audio_buffer ap = []) /\
  Audio.audio_buffer (snd (Audio.save_alert_audio dir alert_id stamp sf_fails ap))
    = Audio.audio_buffer ap.
Proof.
  unfold Video.save_alert_video, Audio.save_alert_audio.
  destruct (Video.frame_buffer vp) eqn:Ev, (Audio.audio_buffer ap) eqn:Ea;
    destruct sf_fails; simpl; rewrite ?Ev, ?Ea;
    repeat split; intros; try discriminate; reflexivity.
Qed.

End BufferSpec.

(* ================================================================== *)
(** * Properties of the object-presence tracker *)

Module TrackerSpec.

Import Float.
Import Tracker.
Import TrackerView.

Lemma for_each_app {A B} (f : B -> A -> result B) (l1 l2 : list A) (b : B) :
  for_each f (l1 ++ l2) b = (b' <- for_each f l1 b ;; for_each f l2 b').
Proof.
  revert b. induction l1 as [|x l1 IH]; intros b; simpl; [reflexivity|].
  destruct (f b x); simpl; [apply IH | reflexivity].
Qed.

Lemma dict_get_set {V} (k k' : string) (v : V) (d : dict V) :
  dict_get k (dict_set k' v d)
  = if String.eqb k' k then Some v else dict_get k d.
Proof.
  unfold dict_get. induction d as [|[k0 v0] d IH]; simpl.
  - destruct (String.eqb k' k); reflexivity.
  - destruct (String.eqb k0 k') eqn:E; simpl.
    + apply String.eqb_eq in E. subst k0.
      destruct (String.eqb k' k); reflexivity.
    + destruct (String.eqb k0 k) eqn:E2; simpl.
      * apply String.eqb_eq in E2. subst k0.
        rewrite String.eqb_sym in E. now rewrite E.
      * exact IH.
Qed.

Section TrackingSpec.

Context {rt : runtime}.

(** ** The loop over the rows *)

(** What one round of the loop does when it does not raise. *)
Lemma record_detection_step (nm : Z -> string) (clock : clock_t)
    (acc acc' : dict obj_data * nat) (d : detection) :
  record_detection nm clock acc d = Return acc' ->
  (watched_row nm d = false /\ acc' = acc /\ forall k, names_id nm k d = false)
  \/ exists class_name id,
       class_of nm d = Return class_name /\ watched class_name = true /\
       obj_id class_name d = Return id /\
       watched_row nm d = true /\
       (forall k, names_id nm k d = String.eqb id k) /\
       acc' = (dict_set id
                 {| class := class_name;
                    position := box_center d;
                    size := obj_size d;
                    last_seen := clock (snd acc);
                    box := (x1 d, y1 d, x2 d, y2 d) |}
                 (fst acc),
               S (snd acc)).
Proof.
  unfold record_detection, watched_row, names_id.
  destruct (class_of nm d) as [c|e]; cbn [bind]; [|discriminate].
  destruct (watched c) eqn:Ew.
  - destruct (obj_id c d) as [id|e] eqn:Eid; cbn [bind]; [|discriminate].
    intros H. injection H as <-. right. exists c, id.
    repeat split; try assumption.
  - intros H. injection H as <-. left. repeat split.
Qed.

(** Rows that are not given the id [k] leave its entry as it was. *)
Lemma rows_keep_entry (nm : Z -> string) (clock : clock_t) (k : string)
    (rows : list detection) (acc acc' : dict obj_data * nat) :
  for_each (record_detection nm clock) rows acc = Return acc' ->
  snd acc' = (snd acc + readings nm rows)%nat /\
  (Forall (fun d => names_id nm k d = false) rows ->
   dict_get k (fst acc') = dict_get k (fst acc)).
Proof.
  revert acc. induction rows as [|d rows IH]; intros acc H.
  - injection H as <-. split; [unfold readings; simpl; lia | reflexivity].
  - cbn [for_each] in H.
    destruct (record_detection nm clock acc d) as [acc1|e] eqn:E;
      [|discriminate].
    cbn [bind] in H. destruct (IH acc1 H) as [Hn Hk].
    unfold readings in *. cbn [filter].
    destruct (record_detection_step nm clock acc acc1 d E)
      as [(Hw & -> & Hno)|(c & id & Hc & Hwc & Hid & Hw & Hname & ->)];
      rewrite Hw.
    + split; [exact Hn|]. intros HF. inversion HF; subst. now apply Hk.
    + split; [cbn [snd List.length] in *; lia|].
      intros HF. inversion HF as [|? ? Hd Hrest]; subst.
      rewrite (Hk Hrest). cbn [fst]. rewrite dict_get_set.
      rewrite Hname in Hd. now rewrite Hd.
Qed.

(** The entry under an id is what the last row given that id stored. *)
Lemma rows_store_last (nm : Z -> string) (clock : clock_t)
    (pre post : list detection) (d : detection) (class_name k : string)
    (acc acc' : dict obj_data * nat) :
  for_each (record_detection nm clock) (pre ++ d :: post) acc = Return acc' ->
  class_of nm d = Return class_name -> watched class_name = true ->
  obj_id class_name d = Return k ->
  Forall (fun d' => names_id nm k d' = false) post ->
  dict_get k (fst acc')
  = Some {| class := class_name;
            position := box_center d;
            size := obj_size d;
            last_seen := clock (snd acc + readings nm pre)%nat;
            box := (x1 d, y1 d, x2 d, y2 d) |}.
Proof.
  intros H Hc Hw Hid Hpost. rewrite for_each_app in H.
  destruct (for_each (record_detection nm clock) pre acc) as [acc1|e] eqn:E1;
    [|discriminate].
  cbn [bind for_each] in H.
  destruct (record_detection nm clock acc1 d) as [acc2|e] eqn:E2;
    [|discriminate].
  cbn [bind] in H.
  destruct (rows_keep_entry nm clock k pre acc acc1 E1) as [Hn1 _].
  destruct (rows_keep_entry nm clock k post acc2 acc' H) as [_ Hk].
  rewrite (Hk Hpost).
  unfold record_detection in E2. rewrite Hc in E2. cbn [bind] in E2.
  rewrite Hw, Hid in E2. cbn [bind] in E2. injection E2 as <-.
  cbn [fst]. rewrite dict_get_set, String.eqb_refl. now rewrite Hn1.
Qed.

(** The loop returns when every row can be named. *)
Lemma rows_readable (nm : Z -> string) (clock : clock_t)
    (rows : list detection) (acc : dict obj_data * nat) :
  Forall
    (fun d => exists class_name,
       class_of nm d = Return class_name /\
       (watched class_name = true ->
        exists id, obj_id class_name d = Return id))
    rows ->
  exists acc', for_each (record_detection nm clock) rows acc = Return acc'.
Proof.
  intros H. revert acc. induction H as [|d rows (c & Hc & Hid) _ IH]; intros acc.
  - now exists acc.
  - cbn [for_each]. unfold record_detection at 1. rewrite Hc. cbn [bind].
    destruct (watched c) eqn:Ew.
    + destruct (Hid eq_refl) as [id ->]. cbn [bind]. apply IH.
    + cbn [bind]. apply IH.
Qed.

Lemma record_unwatched (nm : Z -> string) (clock : clock_t)
    (l : list detection) (acc : dict obj_data * nat) :
  Forall (fun d => unwatched_row nm d = true) l ->
  for_each (record_detection nm clock) l acc = Return acc.
Proof.
  revert acc. induction l as [|d l IH]; intros acc H; [reflexivity|].
  inversion H as [|? ? Hd Hl]; subst.
  cbn [for_each]. unfold record_detection at 1. unfold unwatched_row in Hd.
  destruct (class_of nm d) as [c|e]; [|discriminate]. cbn [bind].
  apply negb_true_iff in Hd. rewrite Hd. cbn [bind]. now apply IH.
Qed.

Lemma current_of_no_watched (r : results) (clock : clock_t) :
  no_watched r -> current_of r clock = Return ([], O).
Proof. intros H. unfold current_of. now apply record_unwatched. Qed.

(** ** The call *)

(** The first-frame branch: an empty tracked set is seeded, with no alert. *)
Lemma update_seeds (r : results) (clock : clock_t) (t : tracker) :
  tracked_objects t = [] ->
  update_object_tracking r clock t
  = match current_of r clock with
    | Return (cur, _) =>
        (Return (false, ""), {| tracked_objects := cur; missing_objects := [] |})
    | Raise e =>
        (Raise e, {| tracked_objects := []; missing_objects := [] |})
    end.
Proof.
  intros H. unfold update_object_tracking.
  destruct (current_of r clock) as [[cur n]|e]; now rewrite H.
Qed.

(** Whatever the branch, the tracked set after a tick that does not raise
    is that tick's detections; a tick that raises leaves it as it was. *)
Lemma update_tracked (r : results) (clock : clock_t) (t : tracker) :
  tracked_objects (snd (update_object_tracking r clock t))
  = match current_of r clock with
    | Return (cur, _) => cur
    | Raise _ => tracked_objects t
    end.
Proof.
  unfold update_object_tracking.
  destruct (current_of r clock) as [[cur n]|e]; [|reflexivity].
  destruct (dict_empty (tracked_objects t)); [reflexivity|].
  destruct (fst (fold_left _ _ _)); reflexivity.
Qed.

Lemma update_returns (r : results) (clock : clock_t) (t : tracker) :
  raised (fst (update_object_tracking r clock t)) = raised (current_of r clock).
Proof.
  unfold update_object_tracking.
  destruct (current_of r clock) as [[cur n]|e]; [|reflexivity].
  destruct (dict_empty (tracked_objects t)); [reflexivity|].
  destruct (fst (fold_left _ _ _)); reflexivity.
Qed.

(** ** When the missing classification can fire *)

Lemma check_missing_origin (cur : dict obj_data) (clock : clock_t)
    (l : dict obj_data) (acc : list obj_data) (n : nat) (o : obj_data) :
  In o (fst (fold_left (check_missing cur clock) l (acc, n))) ->
  In o acc \/
  exists k m, In (k, o) l /\ dict_mem k cur = false
              /\ Qltb 3 (clock m - last_seen o) = true.
Proof.
  revert acc n. induction l as [|[k v] l IH]; intros acc n H; simpl in H.
  - now left.
  - unfold check_missing at 2 in H. simpl in H.
    destruct (dict_mem k cur) eqn:Em.
    + apply IH in H. destruct H as [H|(k' & m & Hin & Hk & Ht)]; [now left|].
      right. exists k', m. simpl. auto.
    + destruct (Qltb 3 (clock n - last_seen v)) eqn:Et.
      * apply IH in H. destruct H as [H|(k' & m & Hin & Hk & Ht)].
        -- apply in_app_or in H. destruct H as [H|[<-|[]]]; [now left|].
           right. exists k, n. simpl. auto.
        -- right. exists k', m. simpl. auto.
      * apply IH in H. destruct H as [H|(k' & m & Hin & Hk & Ht)]; [now left|].
        right. exists k', m. simpl. auto.
Qed.

(** An object is classified missing only in a tick whose tracked set, that
    is the detections of the tick just before, still held it, and only when
    more than three seconds separate that sighting from the check. *)
Lemma flagged_only_when_just_lost (r : results) (clock : clock_t)
    (t : tracker) (o : obj_data) :
  In o (missing_objects (snd (update_object_tracking r clock t))) ->
  exists cur n k m,
    current_of r clock = Return (cur, n)
    /\ In (k, o) (tracked_objects t)
    /\ dict_mem k cur = false
    /\ Qltb 3 (clock m - last_seen o) = true.
Proof.
  unfold update_object_tracking.
  destruct (current_of r clock) as [[cur n]|e]; [|intros []].
  destruct (dict_empty (tracked_objects t)); [intros []|].
  destruct (fst (fold_left (check_missing cur clock) (tracked_objects t) ([], n)))
    as [|o1 miss] eqn:E; [intros []|].
  intros H. change (In o (o1 :: miss)) in H. rewrite <- E in H.
  apply check_missing_origin in H. destruct H as [[]|(k & m & H)].
  now exists cur, n, k, m.
Qed.

(** C10: after a tick that detects no object of a watched class the tracked
    set is empty.  The next tick, whatever it detects, takes the first-frame
    branch and reports no theft.  When its loop over the rows returns, as
    it does when every row can be named, the tick returns [(False, "")] and
    the tracked set becomes that tick's detections: under each id, the
    class, centre, area and box of the last row that was given the id and
    the clock reading taken for that row, and nothing under an id given to
    no row.  When the loop raises, the tracked set stays empty. *)
Theorem empty_tick_reseeds (r : results) (clock : clock_t) (t : tracker) :
  no_watched r ->
  let t1 := snd (update_object_tracking r clock t) in
  raised (fst (update_object_tracking r clock t)) = false /\
  tracked_objects t1 = [] /\
  forall (r' : results) (clock' : clock_t),
    let out := update_object_tracking r' clock' t1 in
    (forall descr, fst out <> Return (true, descr)) /\
    (readable r' -> fst out = Return (false, "")) /\
    (fst out = Return (false, "") ->
     missing_objects (snd out) = [] /\
     (forall pre d post class_name k,
        boxes r' = pre ++ d :: post ->
        class_of (names r') d = Return class_name ->
        watched class_name = true ->
        obj_id class_name d = Return k ->
        Forall (fun d' => names_id (names r') k d' = false) post ->
        dict_get k (tracked_objects (snd out))
        = Some {| class := class_name;
                  position := box_center d;
                  size := obj_size d;
                  last_seen := clock' (readings (names r') pre);
                  box := (x1 d, y1 d, x2 d, y2 d) |}) /\
     (forall k,
        Forall (fun d' => names_id (names r') k d' = false) (boxes r') ->
        dict_get k (tracked_objects (snd out)) = None)) /\
    (raised (fst out) = true ->
     snd out = {| tracked_objects := []; missing_objects := [] |}).
Proof.
  intros H t1.
  assert (Hr : raised (fst (update_object_tracking r clock t)) = false).
  { rewrite update_returns. now rewrite current_of_no_watched. }
  assert (E : tracked_objects t1 = []).
  { subst t1. rewrite update_tracked. now rewrite current_of_no_watched. }
  split; [exact Hr|]. split; [exact E|].
  intros r' clock' out. subst out. rewrite (update_seeds r' clock' t1 E).
  unfold current_of, readable.
  destruct (for_each (record_detection (names r') clock') (boxes r') ([], O))
    as [[cur n]|e] eqn:Ec; cbn [fst snd].
  - split; [discriminate|]. split; [reflexivity|]. split; [|discriminate].
    intros _. split; [reflexivity|]. split.
    + intros pre d post c k Hb Hc Hw Hid Hpost. rewrite Hb in Ec.
      exact (rows_store_last (names r') clock' pre post d c k ([], O) (cur, n)
               Ec Hc Hw Hid Hpost).
    + intros k Hk.
      destruct (rows_keep_entry (names r') clock' k (boxes r') ([], O) (cur, n) Ec)
        as [_ Hg].
      exact (Hg Hk).
  - split; [discriminate|]. split; [|split; [discriminate | reflexivity]].
    intros Hread.
    destruct (rows_readable (names r') clock' (boxes r') ([], O) Hread)
      as [acc' Ha].
    rewrite Ha in Ec. discriminate.
Qed.

End TrackingSpec.

Lemma empty_tick_reseeds_witness :
  let t1 :=
    snd (update_object_tracking (rt := numpy2 listed) person_only (fun _ => 3)
           (snd (run (rt := numpy2 listed) slow_trace tracker_init))) in
  let out :=
    update_object_tracking (rt := numpy2 listed)
      (fst (tick_at 5 [laptop_row; cup_row; laptop_row])) (fun _ => 5) t1 in
  tracked_objects t1 = [] /\
  fst out = Return (false, "") /\
  missing_objects (snd out) = [] /\
  dict_get "laptop_10_8_48" (tracked_objects (snd out))
  = Some {| class := "laptop";
            position := (px 200, px 160);
            size := px 24000;
            last_seen := 5;
            box := (px 100, px 100, px 300, px 220) |} /\
  dict_get "cup_21_8_4" (tracked_objects (snd out))
  = Some {| class := "cup";
            position := (px 420, px 175);
            size := px 2000;
            last_seen := 5;
            box := (px 400, px 150, px 440, px 200) |} /\
  dict_get "person_5_10_148" (tracked_objects (snd out)) = None.
Proof.
  intros t1 out.
  assert (Hn : no_watched person_only)
    by (repeat constructor).
  destruct (empty_tick_reseeds (rt := numpy2 listed) person_only (fun _ => 3)
              (snd (run (rt := numpy2 listed) slow_trace tracker_init)) Hn)
    as (_ & E & Hnext).
  destruct (Hnext (fst (tick_at 5 [laptop_row; cup_row; laptop_row])) (fun _ => 5))
    as (_ & Hret & Hset & _).
  assert (Hout : fst out = Return (false, "")).
  { apply Hret. repeat constructor.
    - exists "laptop". split; [reflexivity|]. intros _. now exists "laptop_10_8_48".
    - exists "cup". split; [reflexivity|]. intros _. now exists "cup_21_8_4".
    - exists "laptop". split; [reflexivity|]. intros _. now exists "laptop_10_8_48". }
  destruct (Hset Hout) as (Hm & Hin & Hnone).
  split; [exact E|]. split; [exact Hout|]. split; [exact Hm|].
  split; [|split].
  - exact (Hin [laptop_row; cup_row] laptop_row [] "laptop" "laptop_10_8_48"
             eq_refl eq_refl eq_refl eq_refl (Forall_nil _)).
  - apply (Hin [laptop_row] cup_row [laptop_row] "cup" "cup_21_8_4"
             eq_refl eq_refl eq_refl eq_refl).
    repeat constructor.
  - apply Hnone. repeat constructor.
Defined.

(** C3 at the failing input: [desk_trace].  The laptop is last seen at
    2 s and is absent from the tick at 3 s on; the first tick at which more
    than three seconds have passed since 2 s is the one at 6 s, where the
    claim has the classification fire.  No tick of the run fires: the tick
    at 3 s finds one second elapsed and drops the laptop from the tracked
    set, so the later ticks never look at it. *)
Theorem desk_trace_never_fires :
  fst (run (rt := numpy2 listed) desk_trace tracker_init)
  = [ Return (false, ""); Return (false, ""); Return (false, "");
      Return (false, ""); Return (false, ""); Return (false, "");
      Return (false, ""); Return (false, "") ] /\
  fst (run (rt := numpy1 listed) desk_trace tracker_init)
  = [ Return (false, ""); Return (false, ""); Return (false, "");
      Return (false, ""); Return (false, ""); Return (false, "");
      Return (false, ""); Return (false, "") ].
Proof. split; vm_compute; reflexivity. Qed.

(** The classification does fire when the very first tick without the
    object comes more than three seconds after its last sighting. *)
Example slow_trace_fires :
  fst (run (rt := numpy2 listed) slow_trace tracker_init)
  = [ Return (false, "");
      Return (true, "Potential theft detected: laptop missing");
      Return (false, "") ].
Proof. vm_compute. reflexivity. Qed.

Example laptop_row_id :
  obj_id (rt := numpy2 listed) "laptop" laptop_row = Return "laptop_10_8_48" /\
  obj_id (rt := numpy1 listed) "laptop" laptop_row = Return "laptop_10_8_48".
Proof. split; vm_compute; reflexivity. Qed.

End TrackerSpec.

(* ================================================================== *)
(** * Properties of the contact heuristic *)

Module PoseSpec.

Import Float.
Import Pose.
Import FloatFacts.

Section HeuristicSpec.

Context {rt : runtime}.

(** ** The calls on full arrays *)

Lemma dist_pure (a b : keypoint) : dist a b = Return (distance a b).
Proof. apply sqrt_sum_sq. Qed.

Lemma norm_pure (v : float * float) : norm v = Return (length_of v).
Proof. apply sqrt_sum_sq. Qed.

Lemma at_full (p : person) (i : nat) :
  (i < List.length p)%nat -> at_ p i = Return (kp p i).
Proof.
  intros H. unfold at_, kp. now rewrite (nth_error_nth' p unseen H).
Qed.

Lemma key_points_full (p : person) :
  well_formed p -> Forall (fun i => (i < List.length p)%nat) key_points.
Proof. unfold well_formed, key_points. intros H. repeat constructor; lia. Qed.

Lemma hand_indices_full (p : person) :
  well_formed p -> Forall (fun i => (i < List.length p)%nat) hand_indices.
Proof. unfold well_formed, hand_indices. intros H. repeat constructor; lia. Qed.

Lemma for_any_pure {A} (f : A -> result bool) (g : A -> bool) (l : list A) :
  Forall (fun x => f x = Return (g x)) l ->
  for_any f l = Return (existsb g l).
Proof.
  induction 1 as [|x l Hx Hl IH]; simpl; [reflexivity|].
  rewrite Hx. simpl. destruct (g x); [reflexivity | exact IH].
Qed.

Lemma min_row_pure (p1 : keypoint) (q : person) (idxs : list nat) (m : float) :
  Forall (fun i => (i < List.length q)%nat) idxs ->
  for_each
    (fun min_distance' p2_idx =>
       p2 <- at_ q p2_idx ;;
       if low_confidence p2 then Return min_distance'
       else
         d <- dist p1 p2 ;;
         Return (py_min min_distance' d))
    idxs m
  = Return (fold_left py_min (seen_row p1 q idxs) m).
Proof.
  intros H. revert m. induction H as [|i idxs Hi Hl IH]; intros m.
  - reflexivity.
  - cbn [for_each]. rewrite (at_full q i Hi). cbn [bind].
    unfold seen_row in *. cbn [flat_map].
    destruct (low_confidence (kp q i)); cbn [bind app].
    + apply IH.
    + rewrite dist_pure. cbn [bind fold_left]. apply IH.
Qed.

Lemma min_pairs_pure (p q : person) (idxs : list nat) (m : float) :
  well_formed q ->
  Forall (fun i => (i < List.length p)%nat) idxs ->
  for_each
    (fun min_distance p1_idx =>
       p1 <- at_ p p1_idx ;;
       if low_confidence p1 then Return min_distance
       else
         for_each
           (fun min_distance' p2_idx =>
              p2 <- at_ q p2_idx ;;
              if low_confidence p2 then Return min_distance'
              else
                d <- dist p1 p2 ;;
                Return (py_min min_distance' d))
           key_points min_distance)
    idxs m
  = Return (fold_left py_min (seen_pairs p q idxs) m).
Proof.
  intros Hq H. revert m. induction H as [|i idxs Hi Hl IH]; intros m.
  - reflexivity.
  - cbn [for_each]. rewrite (at_full p i Hi). cbn [bind].
    unfold seen_pairs in *. cbn [flat_map].
    destruct (low_confidence (kp p i)); cbn [bind app].
    + apply IH.
    + rewrite (min_row_pure (kp p i) q key_points m (key_points_full q Hq)).
      cbn [bind]. rewrite fold_left_app. apply IH.
Qed.

Lemma minimum_distance_pure (p q : person) :
  well_formed p -> well_formed q ->
  _calculate_minimum_distance p q
  = Return (fold_left py_min (seen_pairs p q key_points) infinity).
Proof.
  intros Hp Hq. unfold _calculate_minimum_distance.
  apply min_pairs_pure; [exact Hq | now apply key_points_full].
Qed.

Lemma facing_pure (p q : person) :
  well_formed p -> well_formed q ->
  _are_facing_each_other p q = Return (facing_b p q).
Proof.
  unfold well_formed. intros Hp Hq. unfold _are_facing_each_other.
  rewrite !at_full by lia. cbn [bind]. rewrite !norm_pure. cbn [bind].
  unfold facing_b, unit_trunk, trunk.
  destruct (flt zero _ && flt zero _); reflexivity.
Qed.

Lemma hands_on_pure (a b : person) :
  well_formed a -> well_formed b -> hands_on a b = Return (hands_b a b).
Proof.
  intros Ha Hb. unfold hands_on, hands_b.
  apply for_any_pure.
  eapply Forall_impl; [|exact (hand_indices_full a Ha)].
  intros h Hh. cbv beta in Hh |- *. rewrite (at_full a h Hh). cbn [bind].
  destruct (low_confidence (kp a h)); cbn [negb andb]; [reflexivity|].
  apply for_any_pure.
  eapply Forall_impl; [|exact (key_points_full b Hb)].
  intros t Ht. cbv beta in Ht |- *. rewrite (at_full b t Ht). cbn [bind].
  destruct (low_confidence (kp b t)); cbn [negb andb]; [reflexivity|].
  now rewrite dist_pure.
Qed.

Lemma pair_check_pure (p q : person) :
  well_formed p -> well_formed q -> pair_check p q = Return (pair_b p q).
Proof.
  intros Hp Hq. unfold pair_check, pair_b, _detect_hand_contact.
  rewrite minimum_distance_pure by assumption. cbn [bind].
  fold (close_b p q). destruct (close_b p q); cbn [andb]; [|reflexivity].
  rewrite facing_pure by assumption. cbn [bind].
  destruct (facing_b p q); cbn [andb]; [|reflexivity].
  rewrite hands_on_pure by assumption. cbn [bind].
  destruct (hands_b p q); cbn [orb]; [reflexivity|].
  now apply hands_on_pure.
Qed.

Lemma check_pairs_pure (poses : list person) :
  Forall well_formed poses -> check_pairs poses = Return (pairs_b poses).
Proof.
  induction 1 as [|p rest Hp Hrest IH]; simpl; [reflexivity|].
  rewrite (for_any_pure (pair_check p) (pair_b p) rest).
  - simpl. destruct (existsb (pair_b p) rest); [reflexivity | exact IH].
  - eapply Forall_impl; [|exact Hrest].
    intros q Hq. now apply pair_check_pure.
Qed.

Lemma check_pure (poses : list person) :
  Forall well_formed poses ->
  check_inappropriate_contact poses
  = Return (if pairs_b poses then (true, contact_message) else (false, "")).
Proof.
  intros H. unfold check_inappropriate_contact.
  destruct (List.length poses <? 2)%nat eqn:E.
  - apply Nat.ltb_lt in E.
    destruct poses as [|p [|q rest]]; simpl in *; try reflexivity; lia.
  - rewrite check_pairs_pure by assumption. simpl.
    destruct (pairs_b poses); reflexivity.
Qed.

(** ** The booleans against the three conditions *)

Lemma close_b_iff (p q : person) : close_b p q = true <-> close_together p q.
Proof.
  unfold close_b, close_together.
  rewrite flt_fold_min by discriminate. rewrite flt_infinity. cbn [orb].
  rewrite existsb_exists. unfold seen_pairs, seen_row, confident. split.
  - intros (d & Hin & Hd).
    apply in_flat_map in Hin. destruct Hin as (a & Ha & Hin).
    destruct (low_confidence (kp p a)) eqn:Ea; [destruct Hin|].
    apply in_flat_map in Hin. destruct Hin as (b & Hb & Hin).
    destruct (low_confidence (kp q b)) eqn:Eb; [destruct Hin|].
    destruct Hin as [<-|[]].
    exists a, b. repeat split; auto.
  - intros (a & b & Ha & Hb & Ca & Cb & Hd).
    exists (distance (kp p a) (kp q b)). split; [|exact Hd].
    apply in_flat_map. exists a. split; [exact Ha|]. rewrite Ca.
    apply in_flat_map. exists b. split; [exact Hb|]. rewrite Cb. now left.
Qed.

Lemma facing_b_iff (p q : person) : facing_b p q = true <-> facing p q.
Proof.
  unfold facing_b, facing. rewrite !andb_true_iff. tauto.
Qed.

Lemma hands_b_iff (a b : person) : hands_b a b = true <-> wrist_on a b.
Proof.
  unfold hands_b, wrist_on, confident. rewrite existsb_exists. split.
  - intros (h & Hh & H). apply andb_true_iff in H. destruct H as [Ch H].
    apply existsb_exists in H. destruct H as (t & Ht & H).
    apply andb_true_iff in H. destruct H as [Ct Hd].
    apply negb_true_iff in Ch, Ct.
    exists h, t. repeat split; auto.
  - intros (h & t & Hh & Ht & Ch & Ct & Hd).
    exists h. split; [exact Hh|]. rewrite Ch. cbn [negb andb].
    apply existsb_exists. exists t. split; [exact Ht|]. rewrite Ct. cbn [negb andb].
    exact Hd.
Qed.

Lemma pair_b_iff (p q : person) : pair_b p q = true <-> in_contact p q.
Proof.
  unfold pair_b, in_contact.
  rewrite !andb_true_iff, orb_true_iff, close_b_iff, facing_b_iff, !hands_b_iff.
  tauto.
Qed.

Lemma pairs_b_iff (poses : list person) :
  pairs_b poses = true <-> some_pair_in_contact poses.
Proof.
  unfold some_pair_in_contact. induction poses as [|p0 rest IH]; simpl.
  - split; [discriminate|]. intros (i & j & p & q & _ & Hi & _).
    destruct i; discriminate.
  - rewrite orb_true_iff, existsb_exists, IH. split.
    + intros [(q & Hq & Hc)|(i & j & p & q & Hij & Hi & Hj & Hc)].
      * apply In_nth_error in Hq. destruct Hq as [j Hj].
        exists O, (S j), p0, q.
        split; [lia|]. split; [reflexivity|]. split; [exact Hj|].
        now apply pair_b_iff.
      * exists (S i), (S j), p, q.
        split; [lia|]. split; [exact Hi|]. split; [exact Hj | exact Hc].
    + intros (i & j & p & q & Hij & Hi & Hj & Hc).
      destruct j as [|j]; [lia|]. simpl in Hj.
      destruct i as [|i]; simpl in Hi.
      * injection Hi as ->. left. exists q. split.
        -- now apply nth_error_In in Hj.
        -- now apply pair_b_iff.
      * right. exists i, j, p, q.
        split; [lia|]. split; [exact Hi|]. split; [exact Hj | exact Hc].
Qed.




End HeuristicSpec.

Lemma scene_near_full : Forall well_formed scene_near.
Proof. repeat constructor; unfold well_formed; simpl; lia. Qed.

Lemma scene_far_full : Forall well_formed scene_far.
Proof. repeat constructor; unfold well_formed; simpl; lia. Qed.



(** The rounding of the squares depends on the dtype they are taken in: a
    distance below 20 is computed as 20.0 when the squares are binary32
    numbers (NumPy 2) and as a number below 20 when they are binary64
    numbers (NumPy 1). *)
Example squares_rounded_in_row_dtype :
  (exact_gap2 corner almost_twenty < 20 * 20)%Q /\
  reads (distance (rt := numpy2 listed) corner almost_twenty) 20 = true /\
  flt (distance (rt := numpy2 listed) corner almost_twenty) (of_int 20) = false /\
  flt (distance (rt := numpy1 listed) corner almost_twenty) (of_int 20) = true.
Proof. vm_compute. repeat split. Qed.

(** A person array missing its hip rows makes the call raise. *)
Example short_array_raises :
  check_inappropriate_contact (rt := numpy2 listed)
    [firstn 11 (person_a wrist_near); person_b]
  = Raise IndexError.
Proof. vm_compute. reflexivity. Qed.

End PoseSpec.

(* ================================================================== *)
(** * The alert store across restarts, reviews and failures *)

Module AlertStoreLife.

Import AlertStore.
Import AlertStoreSpec.

(** ** Save, then load *)

Lemma reload_in_sync (st : store) (io : io_fault) :
  in_sync st -> AlertManager_init io (disk st) (media st) = (Return tt, st).
Proof.
  unfold in_sync, AlertManager_init, load_alerts. destruct st as [l d m].
  simpl. intros ->. reflexivity.
Qed.

Lemma mark_in_sync (i fb : string) (st : store) (d : alert_dict) :
  get_alert_by_id i st = Some d ->
  in_sync (snd (mark_as_false_positive i fb NoFault st)).
Proof. intros H. rewrite (mark_present i fb st d H). reflexivity. Qed.

Lemma delete_in_sync (i : string) (rm : string -> bool) (st : store)
    (d : alert_dict) :
  get_alert_by_id i st = Some d ->
  in_sync (snd (delete_alert i rm NoFault st)).
Proof. intros H. unfold delete_alert. rewrite H. reflexivity. Qed.

(** A manager built on the files left by a successful [add_alert],
    [mark_as_false_positive] or [delete_alert] holds exactly the alert list
    the writing manager holds, in the same order. *)
Theorem reload_after_mutation (st : store) (io : io_fault) :
  (forall a,
     let st' := snd (add_alert (AnAlert a) NoFault st) in
     AlertManager_init io (disk st') (media st') = (Return tt, st')) /\
  (forall i fb d, get_alert_by_id i st = Some d ->
     let st' := snd (mark_as_false_positive i fb NoFault st) in
     AlertManager_init io (disk st') (media st') = (Return tt, st')) /\
  (forall i rm d, get_alert_by_id i st = Some d ->
     let st' := snd (delete_alert i rm NoFault st) in
     AlertManager_init io (disk st') (media st') = (Return tt, st')).
Proof.
  split; [|split].
  - intros a st'. apply reload_in_sync. reflexivity.
  - intros i fb d H st'. apply reload_in_sync. now apply (mark_in_sync i fb st d).
  - intros i rm d H st'. apply reload_in_sync. now apply (delete_in_sync i rm st d).
Qed.

Lemma reload_after_mutation_witness :
  (let st' := snd (mark_as_false_positive "1b9d6bcd" "note" NoFault twin_store) in
   AlertManager_init OpenFault (disk st') (media st') = (Return tt, st')) /\
  (let st' := snd (delete_alert "1b9d6bcd" (fun _ => false) NoFault twin_store) in
   AlertManager_init OpenFault (disk st') (media st') = (Return tt, st')).
Proof.
  split.
  - apply (proj1 (proj2 (reload_after_mutation twin_store OpenFault))
             "1b9d6bcd" "note" (to_dict theft_alert)).
    reflexivity.
  - apply (proj2 (proj2 (reload_after_mutation twin_store OpenFault))
             "1b9d6bcd" (fun _ => false) (to_dict theft_alert)).
    reflexivity.
Defined.

(** [AlertManager()] raises exactly when the database file is absent and
    cannot be created; whenever it returns, memory holds the records of the
    file, or nothing when the file was absent or unreadable, and an
    unreadable file is left as it is. *)
Theorem manager_init_outcomes (io : io_fault) (db : db_file) (m : list string) :
  (raised (fst (AlertManager_init io db m)) = true
   <-> db = DbAbsent /\ io <> NoFault) /\
  alerts (snd (AlertManager_init io db m))
    = match db with DbJson l => l | _ => [] end /\
  (db = DbGarbled -> disk (snd (AlertManager_init io db m)) = DbGarbled) /\
  (db = DbAbsent -> io = NoFault ->
   disk (snd (AlertManager_init io db m)) = DbJson []).
Proof.
  unfold AlertManager_init, load_alerts.
  destruct db, io; simpl; repeat split; intros;
    try discriminate; try reflexivity; try tauto;
    match goal with H : _ /\ _ |- _ => destruct H; congruence end.
Qed.

Lemma manager_init_outcomes_witness :
  disk (snd (AlertManager_init DumpFault DbGarbled [])) = DbGarbled /\
  disk (snd (AlertManager_init NoFault DbAbsent [])) = DbJson [].
Proof.
  split.
  - apply (manager_init_outcomes DumpFault DbGarbled []). reflexivity.
  - apply (manager_init_outcomes NoFault DbAbsent []); reflexivity.
Defined.

(** ** Marking and the listing *)

Lemma insert_desc_related (R : alert_dict -> alert_dict -> Prop)
    (x x' : alert_dict) (l l' : list alert_dict) :
  (forall a b, R a b -> d_timestamp b = d_timestamp a) ->
  R x x' -> Forall2 R l l' ->
  Forall2 R (insert_desc x l) (insert_desc x' l').
Proof.
  intros Hts Hx H. induction H as [|y y' l l' Hy Hl IH]; simpl.
  - repeat constructor. exact Hx.
  - rewrite (Hts _ _ Hx), (Hts _ _ Hy).
    destruct (key_le (d_timestamp y) (d_timestamp x)).
    + repeat constructor; assumption.
    + constructor; assumption.
Qed.

Lemma sorted_desc_related (R : alert_dict -> alert_dict -> Prop)
    (l l' : list alert_dict) :
  (forall a b, R a b -> d_timestamp b = d_timestamp a) ->
  Forall2 R l l' -> Forall2 R (sorted_desc l) (sorted_desc l').
Proof.
  intros Hts H. induction H as [|x x' l l' Hx Hl IH]; simpl.
  - constructor.
  - now apply insert_desc_related.
Qed.

Lemma mark_first_related (i fb : string) (l : list alert_dict) :
  Forall2 (fun a b => b = a \/ b = mark fb a) l (mark_first i fb l).
Proof.
  induction l as [|d l IH]; simpl; [constructor|].
  destruct (String.eqb (d_id d) i).
  - constructor; [now right|].
    clear IH. induction l; constructor; auto.
  - constructor; [now left | exact IH].
Qed.

Lemma related_ids (fb : string) (l l' : list alert_dict) :
  Forall2 (fun a b => b = a \/ b = mark fb a) l l' ->
  map d_id l' = map d_id l /\ map d_timestamp l' = map d_timestamp l.
Proof.
  induction 1 as [|a b l l' [->| ->] Hl [IH1 IH2]]; simpl;
    [split; reflexivity | |]; now rewrite IH1, IH2.
Qed.

(** [mark_as_false_positive] never reorders the listing: whatever the id,
    the feedback and the outcome of the rewrite, [get_all_alerts] lists the
    same ids and timestamps in the same places, and the record in each
    place is the one before or that one marked. *)
Theorem mark_keeps_listing (i fb : string) (io : io_fault) (st : store) :
  let st' := snd (mark_as_false_positive i fb io st) in
  Forall2 (fun a b => b = a \/ b = mark fb a)
    (get_all_alerts st) (get_all_alerts st') /\
  map d_id (get_all_alerts st') = map d_id (get_all_alerts st) /\
  map d_timestamp (get_all_alerts st') = map d_timestamp (get_all_alerts st).
Proof.
  intros st'.
  assert (H : Forall2 (fun a b => b = a \/ b = mark fb a)
                (get_all_alerts st) (get_all_alerts st')).
  { unfold get_all_alerts, st'. rewrite mark_memory.
    apply sorted_desc_related; [|apply mark_first_related].
    intros a b [->| ->]; reflexivity. }
  split; [exact H|]. now apply (related_ids fb).
Qed.

(** ** The listing against the order of storage *)

Lemma insert_desc_oldest (x : alert_dict) (l : list alert_dict) :
  Forall (fun y => key_le (d_timestamp y) (d_timestamp x) = false) l ->
  insert_desc x l = l ++ [x].
Proof.
  induction 1 as [|y l Hy Hl IH]; simpl; [reflexivity|].
  now rewrite Hy, IH.
Qed.

(** When every stored alert is strictly older than the ones stored after
    it, as when the clock moves on between the adds, [get_all_alerts] is the
    stored list read backwards. *)
Theorem listing_reverses_storage (st : store) :
  StronglySorted
    (fun a b => key_le (d_timestamp b) (d_timestamp a) = false) (alerts st) ->
  get_all_alerts st = rev (alerts st).
Proof.
  unfold get_all_alerts. induction 1 as [|x l Hs IH Hx]; simpl; [reflexivity|].
  rewrite IH. apply insert_desc_oldest.
  rewrite Forall_forall in *. intros y Hy. apply Hx. now apply in_rev.
Qed.

Lemma listing_reverses_storage_witness :
  get_all_alerts twin_store = rev (alerts twin_store).
Proof.
  apply (listing_reverses_storage twin_store).
  repeat constructor.
Defined.

End AlertStoreLife.

(* ================================================================== *)
(** * Deleting, reviewing and the shared database *)

Module ReviewSpec.

Import AlertStore.
Import AlertStoreSpec.
Import Admin.

(** ** The evidence files under delete_alert *)

(** What one round of the loop over the two path keys leaves. *)
Lemma remove_media_in (rm : string -> bool) (p : option string)
    (m : list string) (f : string) :
  In f (remove_media rm p m) <->
  In f m /\ ~ (p = Some f /\ f <> "" /\ rm f = false).
Proof.
  unfold remove_media. destruct p as [path|].
  2:{ split; [intros H; split; [exact H | intros (Hp & _); discriminate] | tauto]. }
  unfold truthy.
  assert (Hex : existsb (String.eqb path) m = true <-> In path m).
  { rewrite existsb_exists. split.
    - intros (x & Hx & E). apply String.eqb_eq in E. now subst.
    - intros H. exists path. split; [exact H | apply String.eqb_refl]. }
  destruct (String.eqb path "") eqn:E0; simpl.
  - apply String.eqb_eq in E0. split; [|tauto]. intros H. split; [exact H|].
    intros (Hp & Hn & _). injection Hp as Hp. subst. now apply Hn.
  - apply String.eqb_neq in E0.
    destruct (existsb (String.eqb path) m) eqn:Ex.
    + destruct (rm path) eqn:Er.
      * split; [|tauto]. intros H. split; [exact H|].
        intros (Hp & _ & Hr). injection Hp as Hp. subst. congruence.
      * rewrite filter_In, negb_true_iff. split.
        -- intros [H Hne]. apply String.eqb_neq in Hne. split; [exact H|].
           intros (Hp & _). injection Hp as Hp. now apply Hne.
        -- intros [H Hn]. split; [exact H|]. apply String.eqb_neq.
           intros Heq. apply Hn. subst. auto.
    + split; [|tauto]. intros H. split; [exact H|].
      intros (Hp & _). injection Hp as Hp. subst.
      apply Hex in H. congruence.
Qed.

Lemma delete_media (i : string) (rm : string -> bool) (io : io_fault)
    (st : store) (d : alert_dict) :
  get_alert_by_id i st = Some d ->
  media (snd (delete_alert i rm io st))
  = remove_media rm (d_audio_path d)
      (remove_media rm (d_video_path d) (media st)).
Proof.
  intros H. unfold delete_alert. rewrite H. destruct io; reflexivity.
Qed.

(** [delete_alert] takes away no file but the two the deleted record
    names, and creates none: a media file is there afterwards exactly when
    it was there before and is not a path of the record whose [os.remove]
    went through.  This holds whatever happens to the rewrite of the
    database. *)
Theorem delete_removes_only_own_files (i : string) (rm : string -> bool)
    (io : io_fault) (st : store) (d : alert_dict) (f : string) :
  get_alert_by_id i st = Some d ->
  (In f (media (snd (delete_alert i rm io st))) <->
   In f (media st) /\
   ~ ((d_video_path d = Some f \/ d_audio_path d = Some f)
      /\ f <> "" /\ rm f = false)).
Proof.
  intros H. rewrite (delete_media i rm io st d H), !remove_media_in. tauto.
Qed.

Lemma delete_removes_only_own_files_witness :
  In "videos/other.mp4"
    (media (snd (delete_alert "1b9d6bcd" (fun _ => false) DumpFault
                   (set_media ["videos/other.mp4"] twin_store)))) <->
  In "videos/other.mp4" (media (set_media ["videos/other.mp4"] twin_store)) /\
  ~ ((d_video_path (to_dict theft_alert) = Some "videos/other.mp4"
      \/ d_audio_path (to_dict theft_alert) = Some "videos/other.mp4")
     /\ "videos/other.mp4" <> "" /\ (fun _ : string => false) "videos/other.mp4" = false).
Proof.
  apply (delete_removes_only_own_files "1b9d6bcd" (fun _ => false) DumpFault
           (set_media ["videos/other.mp4"] twin_store) (to_dict theft_alert)).
  reflexivity.
Defined.

(** ** delete_alert under a failing rewrite *)

(** When [open] fails during [delete_alert], the call raises [OSError]
    after the record has left memory and its evidence files have been
    removed, and the database still lists the record: a manager started
    later holds the record again. *)
Theorem delete_write_failure (i : string) (rm : string -> bool) (st : store)
    (d : alert_dict) (io : io_fault) :
  in_sync st -> get_alert_by_id i st = Some d ->
  let st' := snd (delete_alert i rm OpenFault st) in
  fst (delete_alert i rm OpenFault st) = Raise OSError /\
  alerts st' = pop_first i (alerts st) /\
  S (List.length (alerts st')) = List.length (alerts st) /\
  media st' = remove_media rm (d_audio_path d)
                (remove_media rm (d_video_path d) (media st)) /\
  alerts (snd (AlertManager_init io (disk st') (media st'))) = alerts st /\
  get_alert_by_id i (snd (AlertManager_init io (disk st') (media st'))) = Some d.
Proof.
  intros Hs H st'. subst st'. unfold delete_alert. rewrite H. simpl.
  unfold in_sync in Hs.
  assert (Hl : S (List.length (pop_first i (alerts st))) = List.length (alerts st)).
  { apply pop_first_length. apply find_id_some in H.
    destruct H as [Hin <-]. now apply in_map. }
  unfold AlertManager_init, load_alerts. simpl. rewrite Hs. simpl.
  repeat split; auto.
Qed.

Lemma delete_write_failure_witness :
  let st' := snd (delete_alert "1b9d6bcd" (fun _ => false) OpenFault twin_store) in
  fst (delete_alert "1b9d6bcd" (fun _ => false) OpenFault twin_store) = Raise OSError /\
  alerts st' = pop_first "1b9d6bcd" (alerts twin_store) /\
  S (List.length (alerts st')) = List.length (alerts twin_store) /\
  media st' = remove_media (fun _ => false) (d_audio_path (to_dict theft_alert))
                (remove_media (fun _ => false) (d_video_path (to_dict theft_alert))
                   (media twin_store)) /\
  alerts (snd (AlertManager_init NoFault (disk st') (media st'))) = alerts twin_store /\
  get_alert_by_id "1b9d6bcd" (snd (AlertManager_init NoFault (disk st') (media st')))
    = Some (to_dict theft_alert).
Proof.
  apply (delete_write_failure "1b9d6bcd" (fun _ => false) twin_store
           (to_dict theft_alert) NoFault); reflexivity.
Defined.

(** ** get_filtered_alerts *)

Lemma filter_sorted {A} (R : A -> A -> Prop) (keep : A -> bool) (l : list A) :
  StronglySorted R l -> StronglySorted R (filter keep l).
Proof.
  induction 1 as [|x l Hs IH Hx]; simpl; [constructor|].
  destruct (keep x); [|exact IH].
  constructor; [exact IH|].
  rewrite Forall_forall in *. intros y Hy. apply filter_In in Hy.
  apply Hx. tauto.
Qed.

Lemma filter_all {A} (keep : A -> bool) (l : list A) :
  (forall x, keep x = true) -> filter keep l = l.
Proof.
  intros H. induction l as [|x l IH]; simpl; [reflexivity|].
  now rewrite H, IH.
Qed.

(** [s.split("T")[0]] is [d] exactly when [d] has no "T" and [s] is [d],
    or [d] followed by a "T" and anything. *)
Lemma before_T_spec (s d : string) :
  before_T s = d <->
  ~ In "T"%char (list_ascii_of_string d) /\
  (s = d \/ exists rest, s = (d ++ String "T" rest)%string).
Proof.
  revert d. induction s as [|c s IH]; intros d; simpl.
  - split.
    + intros <-. split; [intros [] | now left].
    + intros [_ [<-|[rest H]]]; [reflexivity|].
      destruct d; discriminate.
  - destruct (Ascii.eqb c "T") eqn:E.
    + apply Ascii.eqb_eq in E. subst c. split.
      * intros <-. split; [intros [] | right; now exists s].
      * intros [Hn [<-|[rest H]]].
        -- exfalso. apply Hn. now left.
        -- destruct d as [|c' d]; [reflexivity|].
           simpl in H. injection H as <- _. exfalso. apply Hn. now left.
    + apply Ascii.eqb_neq in E. split.
      * intros <-. destruct (proj1 (IH (before_T s)) eq_refl) as [Hn Hs].
        split.
        -- simpl. intros [K|K]; [now apply E | now apply Hn].
        -- destruct Hs as [Hs|[rest Hs]].
           ++ left. now rewrite <- Hs.
           ++ right. exists rest. simpl. now rewrite <- Hs.
      * intros [Hn Hs]. destruct d as [|c' d].
        -- destruct Hs as [Hs|[rest Hs]]; [discriminate|].
           simpl in Hs. injection Hs as -> _. now elim E.
        -- assert (Ec : c' = c /\ (s = d \/ exists rest, s = (d ++ String "T" rest)%string)).
           { destruct Hs as [Hs|[rest Hs]].
             - injection Hs as -> ->. auto.
             - simpl in Hs. injection Hs as -> ->. split; [reflexivity|].
               right. now exists rest. }
           destruct Ec as [-> Hs']. f_equal. apply IH. split; [|exact Hs'].
           intros K. apply Hn. simpl. now right.
Qed.

(** The three tests of the loop body. *)
Lemma passes_spec (f : filters) (a : alert_dict) :
  passes f a = true <->
  (show_false_positives f = true \/ d_is_false_positive a = false) /\
  (filter_type f = "all" \/ d_alert_type a = filter_type f) /\
  (forall date, filter_date f = Some date -> date <> "" ->
     ~ In "T"%char (list_ascii_of_string date) /\
     (d_timestamp a = date
      \/ exists rest, d_timestamp a = (date ++ String "T" rest)%string)).
Proof.
  assert (P1 : negb (show_false_positives f) && d_is_false_positive a = false
               <-> show_false_positives f = true \/ d_is_false_positive a = false).
  { destruct (show_false_positives f), (d_is_false_positive a); simpl;
      intuition congruence. }
  assert (P2 : negb (String.eqb (filter_type f) "all")
               && negb (String.eqb (d_alert_type a) (filter_type f)) = false
               <-> filter_type f = "all" \/ d_alert_type a = filter_type f).
  { destruct (String.eqb (filter_type f) "all") eqn:Et;
      [apply String.eqb_eq in Et | apply String.eqb_neq in Et];
      (destruct (String.eqb (d_alert_type a) (filter_type f)) eqn:Ea;
       [apply String.eqb_eq in Ea | apply String.eqb_neq in Ea]);
      simpl; intuition congruence. }
  assert (P3 : (if truthy (filter_date f)
                then match filter_date f with
                     | Some date => String.eqb (before_T (d_timestamp a)) date
                     | None => true
                     end
                else true) = true
               <-> forall date, filter_date f = Some date -> date <> "" ->
                     ~ In "T"%char (list_ascii_of_string date) /\
                     (d_timestamp a = date
                      \/ exists rest,
                           d_timestamp a = (date ++ String "T" rest)%string)).
  { destruct (filter_date f) as [dt|]; cbn [truthy].
    - destruct (String.eqb dt "") eqn:Ed;
        [apply String.eqb_eq in Ed | apply String.eqb_neq in Ed]; cbn [negb].
      + split; [|reflexivity]. intros _ date K Hne. injection K as <-.
        contradiction.
      + rewrite String.eqb_eq, before_T_spec. split.
        * intros K date K' _. injection K' as <-. exact K.
        * intros K. exact (K dt eq_refl Ed).
    - split; [|reflexivity]. intros _ date K. discriminate. }
  unfold passes. rewrite <- P1, <- P2, <- P3.
  destruct (negb (show_false_positives f) && d_is_false_positive a);
    destruct (negb (String.eqb (filter_type f) "all")
              && negb (String.eqb (d_alert_type a) (filter_type f)));
    intuition congruence.
Qed.

(** [get_filtered_alerts], when the manager it builds is built without
    error, returns newest first exactly the alerts of the database that
    pass the three filters: false positives are shown or the alert is not
    one, the type filter is "all" or is the type of the alert, and a date
    filter that is set (not [None], not empty) is the text of the
    timestamp before its first "T".  With the filters as the class sets
    them it returns the whole listing.  When building the manager raises,
    so does the call. *)
Theorem get_filtered_alerts_spec (f : filters) (io : io_fault) (db : db_file)
    (m : list string) :
  let st := snd (AlertManager_init io db m) in
  (raised (fst (AlertManager_init io db m)) = false ->
   exists l,
     fst (get_filtered_alerts f io db m) = Return l /\
     newest_first l /\
     (forall a,
        In a l <->
        In a (alerts st) /\
        (show_false_positives f = true \/ d_is_false_positive a = false) /\
        (filter_type f = "all" \/ d_alert_type a = filter_type f) /\
        (forall date, filter_date f = Some date -> date <> "" ->
           ~ In "T"%char (list_ascii_of_string date) /\
           (d_timestamp a = date
            \/ exists rest, d_timestamp a = (date ++ String "T" rest)%string))) /\
     (f = default_filters -> l = get_all_alerts st)) /\
  (raised (fst (AlertManager_init io db m)) = true ->
   raised (fst (get_filtered_alerts f io db m)) = true).
Proof.
  intros st. subst st. unfold get_filtered_alerts.
  destruct (AlertManager_init io db m) as [[u|e] st]; simpl; split;
    try discriminate; try reflexivity.
  intros _. eexists. split; [reflexivity|]. split; [|split].
  - apply filter_sorted. apply sorted_desc_sorted.
  - intros a. rewrite filter_In. unfold get_all_alerts.
    assert (Hin : In a (sorted_desc (alerts st)) <-> In a (alerts st)).
    { split; intros K.
      - eapply Permutation_in; [apply sorted_desc_perm | exact K].
      - eapply Permutation_in; [symmetry; apply sorted_desc_perm | exact K]. }
    rewrite Hin. apply and_iff_compat_l. rewrite <- (passes_spec f a).
    reflexivity.
  - intros ->. apply filter_all. intros x. reflexivity.
Qed.

Lemma get_filtered_alerts_spec_witness :
  exists l,
    fst (get_filtered_alerts
           {| filter_type := "object_theft"; filter_date := Some "2024-05-01";
              show_false_positives := false |}
           NoFault (disk twin_store) []) = Return l /\
    map d_id l = ["1b9d6bcd"] /\
    (In (to_dict theft_alert) l <->
     In (to_dict theft_alert)
        (alerts (snd (AlertManager_init NoFault (disk twin_store) []))) /\
     (false = true \/ d_is_false_positive (to_dict theft_alert) = false) /\
     ("object_theft" = "all" \/ d_alert_type (to_dict theft_alert) = "object_theft") /\
     (forall date, Some "2024-05-01" = Some date -> date <> "" ->
        ~ In "T"%char (list_ascii_of_string date) /\
        (d_timestamp (to_dict theft_alert) = date
         \/ exists rest,
              d_timestamp (to_dict theft_alert) = (date ++ String "T" rest)%string))).
Proof.
  destruct (get_filtered_alerts_spec
              {| filter_type := "object_theft"; filter_date := Some "2024-05-01";
                 show_false_positives := false |}
              NoFault (disk twin_store) []) as [H _].
  destruct (H eq_refl) as (l & Hl & _ & Hin & _).
  exists l. split; [exact Hl|]. split.
  - vm_compute in Hl. injection Hl as <-. reflexivity.
  - exact (Hin (to_dict theft_alert)).
Defined.

Example filtered_by_type_and_date :
  map d_id
    (filter (passes {| filter_type := "object_theft";
                       filter_date := Some "2024-05-01";
                       show_false_positives := false |})
       (get_all_alerts twin_store)) = ["1b9d6bcd"] /\
  before_T "2024-05-01T10:15:30.250000" = "2024-05-01".
Proof. split; reflexivity. Qed.

(** ** Two managers on one database *)

(** The review interface builds a manager of its own for each action,
    while the agent keeps one for its lifetime.  A record the reviewer
    deleted, or marked as a false positive, is back as it was once the
    agent adds its next alert: the agent rewrites the database from its
    own list. *)
Theorem agent_add_undoes_review (agent : store) (i fb : string)
    (rm : string -> bool) (d : alert_dict) (a : Alert) :
  in_sync agent -> get_alert_by_id i agent = Some d ->
  let deleted := snd (delete_alert i rm NoFault (reviewer_of agent)) in
  let marked := snd (mark_as_false_positive i fb NoFault (reviewer_of agent)) in
  let after_delete :=
    snd (add_alert (AnAlert a) NoFault (sees_files deleted agent)) in
  let after_mark :=
    snd (add_alert (AnAlert a) NoFault (sees_files marked agent)) in
  disk deleted = DbJson (pop_first i (alerts agent)) /\
  get_alert_by_id i marked = Some (mark fb d) /\
  disk after_delete = DbJson (alerts agent ++ [to_dict a]) /\
  disk after_mark = DbJson (alerts agent ++ [to_dict a]) /\
  get_alert_by_id i (reviewer_of after_delete) = Some d /\
  get_alert_by_id i (reviewer_of after_mark) = Some d.
Proof.
  intros Hs H. unfold reviewer_of.
  rewrite (AlertStoreLife.reload_in_sync agent NoFault Hs). simpl snd.
  unfold delete_alert. rewrite H.
  rewrite (mark_present i fb agent d H). simpl.
  unfold get_alert_by_id in *. simpl.
  rewrite find_mark_first, H, find_id_app, H. simpl.
  repeat split.
Qed.

Lemma agent_add_undoes_review_witness :
  get_alert_by_id "1b9d6bcd"
    (reviewer_of
       (snd (add_alert (AnAlert contact_alert) NoFault
               (sees_files
                  (snd (delete_alert "1b9d6bcd" (fun _ => false) NoFault
                          (reviewer_of (add_all [theft_alert] empty_store))))
                  (add_all [theft_alert] empty_store)))))
  = Some (to_dict theft_alert).
Proof.
  apply (agent_add_undoes_review (add_all [theft_alert] empty_store)
           "1b9d6bcd" "" (fun _ => false) (to_dict theft_alert) contact_alert);
    reflexivity.
Defined.

End ReviewSpec.

(* ================================================================== *)
(** * The speech side of the audio processor *)

Module SpeechSpec.

Import Audio.
Import Speech.

(** ** Substring search *)

Lemma prefix_iff (w t : string) :
  prefix w t = true <-> exists post, t = (w ++ post)%string.
Proof.
  revert t. induction w as [|c w IH]; intros t.
  - split; [intros _; now exists t | intros _; destruct t; reflexivity].
  - destruct t as [|c' t]; simpl.
    + split; [discriminate | intros [post H]; discriminate].
    + destruct (ascii_dec c c') as [->|Hne].
      * rewrite IH. split; intros [post H]; exists post.
        -- now rewrite H.
        -- now injection H.
      * split; [discriminate|]. intros [post H]. injection H as H _. congruence.
Qed.

Lemma py_in_prefix (w t : string) : prefix w t = true -> py_in w t = true.
Proof. intros E. destruct t; cbn [py_in]; now rewrite E. Qed.

(** [word in text] holds exactly when [text] is some text, then [word],
    then some text. *)
Lemma py_in_iff (w t : string) :
  py_in w t = true <-> exists pre post, t = (pre ++ w ++ post)%string.
Proof.
  split.
  - induction t as [|c t IH]; cbn [py_in].
    + destruct (prefix w "") eqn:E; [|discriminate]. intros _.
      apply prefix_iff in E. destruct E as [post E]. now exists ""%string, post.
    + destruct (prefix w (String c t)) eqn:E.
      * intros _. apply prefix_iff in E. destruct E as [post E].
        now exists ""%string, post.
      * intros H. destruct (IH H) as (pre & post & ->).
        now exists (String c pre), post.
  - intros (pre & post & ->). induction pre as [|c pre IH].
    + apply py_in_prefix. apply prefix_iff. now exists post.
    + change (String c pre ++ w ++ post)%string
        with (String c (pre ++ w ++ post)%string).
      cbn [py_in].
      destruct (prefix w (String c (pre ++ w ++ post))); [reflexivity | exact IH].
Qed.

(** [_check_for_curse_words] answers [True] exactly when some word of the
    lexicon occurs in the text as a substring (inside a longer word too);
    so a flagged text stays flagged whatever is put around it, an empty
    lexicon flags nothing, and a lexicon holding the empty word flags every
    text. *)
Theorem check_for_curse_words_spec (CURSE_WORDS : list string) (text : string) :
  (_check_for_curse_words CURSE_WORDS text = true <->
   exists word pre post,
     In word CURSE_WORDS /\ text = (pre ++ word ++ post)%string) /\
  (_check_for_curse_words CURSE_WORDS text = true ->
   forall before after,
     _check_for_curse_words CURSE_WORDS (before ++ text ++ after)%string = true) /\
  _check_for_curse_words [] text = false /\
  (In ""%string CURSE_WORDS -> _check_for_curse_words CURSE_WORDS text = true).
Proof.
  assert (Hiff : forall W t,
            _check_for_curse_words W t = true <->
            exists word pre post, In word W /\ t = (pre ++ word ++ post)%string).
  { intros W t. unfold _check_for_curse_words. rewrite existsb_exists. split.
    - intros (w & Hin & H). apply py_in_iff in H. destruct H as (pre & post & ->).
      now exists w, pre, post.
    - intros (w & pre & post & Hin & ->). exists w. split; [exact Hin|].
      apply py_in_iff. now exists pre, post. }
  split; [apply Hiff|]. split; [|split].
  - intros H before after. apply Hiff in H. destruct H as (w & pre & post & Hin & ->).
    apply Hiff. exists w, (before ++ pre)%string, (post ++ after)%string.
    split; [exact Hin|].
    clear. induction before as [|c b IH]; simpl.
    + induction pre as [|c p IH]; simpl.
      * induction w as [|c w IH]; simpl; [reflexivity | now rewrite IH].
      * now rewrite IH.
    + now rewrite IH.
  - reflexivity.
  - intros Hin. apply Hiff. exists ""%string, ""%string, text. now split.
Qed.

Lemma check_for_curse_words_spec_witness :
  (forall before after,
     _check_for_curse_words ["damn"] (before ++ "goddamn it" ++ after)%string = true) /\
  _check_for_curse_words ["damn"; ""] "good morning" = true.
Proof.
  split.
  - apply (proj1 (proj2 (check_for_curse_words_spec ["damn"] "goddamn it"))).
    reflexivity.
  - apply (proj2 (proj2 (proj2 (check_for_curse_words_spec ["damn"; ""] "good morning")))).
    simpl. tauto.
Defined.

(** ** Chunks for transcription *)

Lemma slice_to_nonneg {A} (n : Z) (l : list A) :
  (0 <= n)%Z -> slice_to n l = firstn (Z.to_nat n) l.
Proof.
  intros H. unfold slice_to.
  replace (n <? 0)%Z with false by (symmetry; apply Z.ltb_ge; lia).
  destruct (Z.le_ge_cases n (Z.of_nat (List.length l))) as [L|G].
  - now rewrite Z.min_l by lia.
  - rewrite Z.min_r by lia. rewrite Nat2Z.id.
    rewrite !firstn_all2; auto; lia.
Qed.

Lemma slice_from_nonneg {A} (n : Z) (l : list A) :
  (0 <= n)%Z -> slice_from n l = skipn (Z.to_nat n) l.
Proof.
  intros H. unfold slice_from.
  replace (n <? 0)%Z with false by (symmetry; apply Z.ltb_ge; lia).
  destruct (Z.le_ge_cases n (Z.of_nat (List.length l))) as [L|G].
  - now rewrite Z.min_l by lia.
  - rewrite Z.min_r by lia. rewrite Nat2Z.id.
    rewrite !skipn_all2; auto; lia.
Qed.

(** One round of [_process_audio] for a positive chunk size.  When the
    buffer has reached the size, transcription gets exactly [size] samples,
    the buffer restarts [size // 2] samples further on, so that the samples
    of the chunk from [size // 2] on open the buffer and come again in the
    next chunk, and the buffer has shrunk by [size // 2] only, however long
    it was.  Otherwise the block is only appended. *)
Theorem process_block_spec (size : Z) (data buffer : list sample) :
  (0 < size)%Z ->
  let joined := buffer ++ data in
  (Z.of_nat (List.length joined) >= size)%Z /\
    (exists chunk,
       fst (process_block size data buffer) = Some chunk /\
       chunk = firstn (Z.to_nat size) joined /\
       Z.of_nat (List.length chunk) = size /\
       snd (process_block size data buffer) = skipn (Z.to_nat (size / 2)) joined /\
       skipn (Z.to_nat (size / 2)) chunk
       = firstn (Z.to_nat (size - size / 2)) (snd (process_block size data buffer)) /\
       Z.of_nat (List.length (snd (process_block size data buffer)))
       = (Z.of_nat (List.length joined) - size / 2)%Z)
  \/ (Z.of_nat (List.length joined) < size)%Z /\
     process_block size data buffer = (None, joined).
Proof.
  intros Hs joined. unfold process_block. fold joined.
  assert (Hh : (0 <= size / 2 < size)%Z).
  { split; [apply Z.div_pos; lia | apply Z.div_lt_upper_bound; lia]. }
  destruct (Z.of_nat (List.length joined) >=? size)%Z eqn:E.
  - left. apply Z.geb_le in E. split; [lia|].
    rewrite slice_to_nonneg, slice_from_nonneg by lia. simpl.
    eexists. split; [reflexivity|]. split; [reflexivity|].
    split; [rewrite length_firstn; lia|].
    split; [reflexivity|]. split.
    + rewrite firstn_skipn_comm. f_equal. f_equal. lia.
    + rewrite length_skipn. lia.
  - right. assert (~ (size <= Z.of_nat (List.length joined))%Z).
    { intros G. apply Z.geb_le in G. congruence. }
    split; [lia | reflexivity].
Qed.

Lemma process_block_spec_witness :
  (Z.of_nat (List.length ([1%Q; 2%Q; 3%Q] ++ [4%Q; 5%Q])) >= 4)%Z /\
    (exists chunk,
       fst (process_block 4 [4%Q; 5%Q] [1%Q; 2%Q; 3%Q]) = Some chunk /\
       chunk = firstn (Z.to_nat 4) ([1%Q; 2%Q; 3%Q] ++ [4%Q; 5%Q]) /\
       Z.of_nat (List.length chunk) = 4%Z /\
       snd (process_block 4 [4%Q; 5%Q] [1%Q; 2%Q; 3%Q])
       = skipn (Z.to_nat (4 / 2)) ([1%Q; 2%Q; 3%Q] ++ [4%Q; 5%Q]) /\
       skipn (Z.to_nat (4 / 2)) chunk
       = firstn (Z.to_nat (4 - 4 / 2)) (snd (process_block 4 [4%Q; 5%Q] [1%Q; 2%Q; 3%Q])) /\
       Z.of_nat (List.length (snd (process_block 4 [4%Q; 5%Q] [1%Q; 2%Q; 3%Q])))
       = (Z.of_nat (List.length ([1%Q; 2%Q; 3%Q] ++ [4%Q; 5%Q])) - 4 / 2)%Z)
  \/ (Z.of_nat (List.length ([1%Q; 2%Q; 3%Q] ++ [4%Q; 5%Q])) < 4)%Z /\
     process_block 4 [4%Q; 5%Q] [1%Q; 2%Q; 3%Q] = (None, [1%Q; 2%Q; 3%Q] ++ [4%Q; 5%Q]).
Proof.
  apply (process_block_spec 4 [4%Q; 5%Q] [1%Q; 2%Q; 3%Q]). lia.
Defined.

(** Over a run of blocks none of which is longer than half a chunk, a
    buffer that starts below the chunk size stays below it, and every
    chunk handed to transcription has exactly the chunk size. *)
Theorem process_blocks_bounded (size : Z) (blocks : list (list sample))
    (buffer : list sample) :
  (0 < size)%Z ->
  Forall (fun data => (Z.of_nat (List.length data) <= size / 2)%Z) blocks ->
  (Z.of_nat (List.length buffer) < size)%Z ->
  Forall (fun chunk => Z.of_nat (List.length chunk) = size)
    (fst (process_blocks size blocks buffer)) /\
  (Z.of_nat (List.length (snd (process_blocks size blocks buffer))) < size)%Z.
Proof.
  intros Hs Hb. revert buffer.
  induction Hb as [|data blocks Hd Hbs IH]; intros buffer Hlen; simpl.
  - split; [constructor | exact Hlen].
  - destruct (process_block_spec size data buffer Hs)
      as [(Hge & chunk & E1 & _ & Hc & _ & _ & Hl) | (Hlt & E)].
    + destruct (process_block size data buffer) as [c b1]. simpl in *. subst c.
      assert (Hb1 : (Z.of_nat (List.length b1) < size)%Z).
      { rewrite Hl, length_app. lia. }
      destruct (IH b1 Hb1) as [IH1 IH2].
      destruct (process_blocks size blocks b1) as [chunks b2]. simpl in *.
      split; [constructor; assumption | exact IH2].
    + rewrite E. destruct (IH (buffer ++ data) Hlt) as [IH1 IH2].
      destruct (process_blocks size blocks (buffer ++ data)) as [chunks b2].
      simpl in *. split; assumption.
Qed.

Lemma process_blocks_bounded_witness :
  Forall (fun chunk => Z.of_nat (List.length chunk) = 4%Z)
    (fst (process_blocks 4 short_blocks [])) /\
  (Z.of_nat (List.length (snd (process_blocks 4 short_blocks []))) < 4)%Z.
Proof.
  apply (process_blocks_bounded 4 short_blocks []).
  - lia.
  - unfold short_blocks.
    repeat (apply Forall_cons; [cbv; discriminate|]). apply Forall_nil.
  - simpl. lia.
Defined.

Example chunks_overlap :
  process_blocks 4 short_blocks []
  = ([[1; 2; 3; 4]; [3; 4; 5; 6]], [5; 6; 7])%Q.
Proof. reflexivity. Qed.

End SpeechSpec.

(* ================================================================== *)
(** * Reading, exporting and releasing a video source *)

Module CaptureSpec.

Import Video.
Import Capture.

Section Reading.

Variable frame : Type.
Variable fit : frame -> frame.

Implicit Types (vp : VideoProcessor frame) (f : frame).

(** With room for at least one frame, the frame just pushed is the last
    of the buffer. *)
Lemma push_last f vp :
  (1 <= max_buffer_size vp)%Z ->
  exists b, frame_buffer (push f vp) = b ++ [f].
Proof.
  intros H. unfold push.
  destruct (Z.of_nat _ >? max_buffer_size vp)%Z eqn:E; simpl.
  - apply Z.gtb_lt in E. rewrite length_app in E. simpl in E.
    destruct (frame_buffer vp) as [|x b]; simpl in *; [lia|].
    now exists b.
  - now exists (frame_buffer vp).
Qed.

(** [read_frame] raises exactly when no capture is held and the source does
    not open; it then leaves the buffer alone, and no later call raises,
    since the failed [start] left a capture object in [self.cap].  When
    the capture yields nothing it returns [None] and leaves the buffer
    alone.  When the capture yields a frame it returns the fitted frame,
    and with room for at least one frame that frame is the last of the
    buffer. *)
Theorem read_frame_outcomes (opens : bool) (rd : option frame) vp :
  let r := read_frame fit opens rd vp in
  (raised (fst r) = true <-> cap vp = false /\ opens = false) /\
  (raised (fst r) = true ->
   frame_buffer (snd r) = frame_buffer vp /\
   forall opens' rd', raised (fst (read_frame fit opens' rd' (snd r))) = false) /\
  (raised (fst r) = false -> rd = None ->
   fst r = Return None /\ frame_buffer (snd r) = frame_buffer vp) /\
  (raised (fst r) = false -> forall f0, rd = Some f0 ->
   fst r = Return (Some (fit f0)) /\
   ((1 <= max_buffer_size vp)%Z ->
    exists b, frame_buffer (snd r) = b ++ [fit f0])).
Proof.
  intros r. subst r. unfold read_frame.
  assert (Hcase :
    (negb (cap vp) && negb opens = true /\ cap vp = false /\ opens = false)
    \/ (negb (cap vp) && negb opens = false
        /\ ~ (cap vp = false /\ opens = false))).
  { destruct (cap vp), opens; simpl;
      [right | right | right | left]; (split; [reflexivity|]);
      try tauto; intros [? ?]; discriminate. }
  destruct Hcase as [(E & Hc & Ho) | (E & Hn)]; rewrite E.
  - simpl. split; [tauto|]. split; [|split].
    + intros _. split; [reflexivity|].
      intros opens' rd'. unfold read_frame. simpl. destruct rd'; reflexivity.
    + intros H. discriminate H.
    + intros H. discriminate H.
  - destruct rd as [f0|]; simpl.
    + split; [split; [discriminate | intros H; exfalso; exact (Hn H)]|].
      split; [intros H; discriminate H|].
      split; [intros _ H; discriminate H|].
      intros _ f1 Hf. injection Hf as <-. split; [reflexivity|].
      intros Hm. apply push_last. exact Hm.
    + split; [split; [discriminate | intros H; exfalso; exact (Hn H)]|].
      split; [intros H; discriminate H|].
      split; [intros _ _; split; reflexivity|].
      intros _ f1 Hf. discriminate Hf.
Qed.

End Reading.

Lemma read_frame_outcomes_witness :
  fst (read_frame (fun n : nat => n) true (Some 7%nat) (VideoProcessor_init 10 30))
    = Return (Some 7%nat) /\
  ((1 <= max_buffer_size (VideoProcessor_init (frame := nat) 10 30))%Z ->
   exists b,
     frame_buffer
       (snd (read_frame (fun n : nat => n) true (Some 7%nat)
               (VideoProcessor_init 10 30))) = b ++ [7%nat]).
Proof.
  apply (read_frame_outcomes nat (fun n => n) true (Some 7%nat)
           (VideoProcessor_init 10 30));
    reflexivity.
Defined.

(** An export that follows a read that returned a frame, on a processor
    with room for at least one frame, never returns [None]: it returns a
    path, and the clip it writes ends with the frame just read. *)
Theorem export_after_read (frame : Type) (fit : frame -> frame)
    (dir alert_id stamp : string) (opens : bool) (f0 : frame)
    (vp : VideoProcessor frame) :
  (1 <= max_buffer_size vp)%Z ->
  raised (fst (read_frame fit opens (Some f0) vp)) = false ->
  let vp' := snd (read_frame fit opens (Some f0) vp) in
  exists path b,
    (forall writer_ok,
       fst (save_alert_video dir alert_id stamp writer_ok vp') = Some path) /\
    clips (snd (save_alert_video dir alert_id stamp true vp'))
    = clips vp ++ [(path, fps vp, b ++ [fit f0])].
Proof.
  intros Hm Hr vp'.
  destruct (read_frame_outcomes frame fit opens (Some f0) vp)
    as (_ & _ & _ & H).
  destruct (H Hr f0 eq_refl) as [_ Hb]. destruct (Hb Hm) as [b Eb].
  fold vp' in Eb.
  assert (Ef : fps vp' = fps vp /\ clips vp' = clips vp).
  { unfold vp', read_frame in *.
    destruct (negb (cap vp) && negb opens); [discriminate|].
    simpl. unfold push.
    destruct (Z.of_nat _ >? _)%Z; simpl; split; reflexivity. }
  destruct Ef as [Ef Ec].
  unfold save_alert_video. rewrite Eb.
  destruct (b ++ [fit f0]) as [|x l] eqn:E.
  - destruct b; discriminate.
  - eexists. exists b. split; [intros; reflexivity|].
    simpl. now rewrite Ef, Ec, E.
Qed.

Lemma export_after_read_witness :
  exists path b,
    (forall writer_ok,
       fst (save_alert_video "videos" "object_1714558530" "20240501_101530" writer_ok
              (snd (read_frame (fun n : nat => n) true (Some 7%nat)
                      (VideoProcessor_init 10 30)))) = Some path) /\
    clips (snd (save_alert_video "videos" "object_1714558530" "20240501_101530" true
                  (snd (read_frame (fun n : nat => n) true (Some 7%nat)
                          (VideoProcessor_init 10 30)))))
    = clips (VideoProcessor_init (frame := nat) 10 30)
      ++ [(path, fps (VideoProcessor_init (frame := nat) 10 30), b ++ [7%nat])].
Proof.
  apply (export_after_read nat (fun n => n) "videos" "object_1714558530"
           "20240501_101530" true 7%nat (VideoProcessor_init 10 30));
    [simpl; lia | reflexivity].
Defined.

Example export_path :
  fst (save_alert_video "videos" "object_1714558530" "20240501_101530" true
         (snd (read_frame (fun n : nat => n) true (Some 7%nat)
                 (VideoProcessor_init 10 30))))
  = Some "videos/alert_object_1714558530_20240501_101530.mp4".
Proof. reflexivity. Qed.

(** [release] does not clear the buffer: releasing twice is releasing
    once, the buffered frames stay, an export after the release returns
    what it would have returned before, and the next [read_frame] opens the
    source again, raising when it does not open. *)
Theorem release_keeps_buffer (frame : Type) (fit : frame -> frame)
    (dir alert_id stamp : string) (writer_ok : bool) (rd : option frame)
    (vp : VideoProcessor frame) :
  release (release vp) = release vp /\
  frame_buffer (release vp) = frame_buffer vp /\
  fst (save_alert_video dir alert_id stamp writer_ok (release vp))
    = fst (save_alert_video dir alert_id stamp writer_ok vp) /\
  clips (snd (save_alert_video dir alert_id stamp writer_ok (release vp)))
    = clips (snd (save_alert_video dir alert_id stamp writer_ok vp)) /\
  raised (fst (read_frame fit false rd (release vp))) = true /\
  raised (fst (read_frame fit true rd (release vp))) = false.
Proof.
  unfold release, save_alert_video, read_frame. simpl.
  destruct (frame_buffer vp), rd, writer_ok; repeat split.
Qed.

End CaptureSpec.

(* ================================================================== *)
(** * What the tracker stores and reports *)

Module TrackerLife.

Import Float.
Import Tracker.
Import TrackerView.
Import TrackerSpec.

Lemma dict_set_values {V} (P : V -> Prop) (k : string) (v : V) (d : dict V) :
  P v -> Forall (fun kv => P (snd kv)) d ->
  Forall (fun kv => P (snd kv)) (dict_set k v d).
Proof.
  intros Hv H. induction H as [|[k' v'] d Hk Hd IH]; simpl.
  - repeat constructor. exact Hv.
  - destruct (String.eqb k' k); constructor; auto.
Qed.

Section TrackingLife.

Context {rt : runtime}.

(** ** Only watched classes *)

Lemma record_detection_watched (nm : Z -> string) (clock : clock_t)
    (l : list detection) (acc acc' : dict obj_data * nat) :
  for_each (record_detection nm clock) l acc = Return acc' ->
  Forall (fun kv => watched (class (snd kv)) = true) (fst acc) ->
  Forall (fun kv => watched (class (snd kv)) = true) (fst acc').
Proof.
  revert acc. induction l as [|d l IH]; intros acc E H.
  - injection E as <-. exact H.
  - cbn [for_each] in E.
    destruct (record_detection nm clock acc d) as [acc1|e] eqn:E1;
      [|discriminate].
    cbn [bind] in E. apply (IH acc1 E).
    destruct (record_detection_step nm clock acc acc1 d E1)
      as [(_ & -> & _)|(c & id & _ & Hw & _ & _ & _ & ->)]; [exact H|].
    cbn [fst]. apply (dict_set_values (fun o => watched (class o) = true)); auto.
Qed.

Lemma update_keeps_watched (r : results) (clock : clock_t) (t : tracker) :
  only_watched t -> only_watched (snd (update_object_tracking r clock t)).
Proof.
  intros [Ht Hm]. split.
  - rewrite update_tracked. unfold current_of.
    destruct (for_each (record_detection (names r) clock) (boxes r) ([], O))
      as [[cur n]|e] eqn:E; [|exact Ht].
    apply (record_detection_watched _ _ _ _ _ E). constructor.
  - rewrite Forall_forall. intros o Ho.
    apply flagged_only_when_just_lost in Ho.
    destruct Ho as (cur & n & k & m & _ & Hin & _ & _).
    rewrite Forall_forall in Ht. exact (Ht (k, o) Hin).
Qed.

(** From a tracker that stores only objects of watched classes, as a new
    detector does, every run of ticks leaves only objects of watched
    classes in the tracked set and among the objects reported missing,
    whatever the detections name and whether or not a tick raises. *)
Theorem run_keeps_watched (ticks : list (results * clock_t)) (t : tracker) :
  only_watched t -> only_watched (snd (run ticks t)).
Proof.
  revert t. induction ticks as [|[r clock] ticks IH]; intros t H; simpl.
  - exact H.
  - assert (H1 := update_keeps_watched r clock t H).
    destruct (update_object_tracking r clock t) as [out t1]. simpl in H1.
    specialize (IH t1 H1).
    destruct (run ticks t1) as [outs t2]. exact IH.
Qed.

(** ** A clock that stands still during the call *)

Lemma check_missing_steady (cur : dict obj_data) (now : Q)
    (l : dict obj_data) (acc : list obj_data) (n : nat) :
  fst (fold_left (check_missing cur (fun _ => now)) l (acc, n))
  = acc ++ map snd (filter (lost cur now) l).
Proof.
  revert acc n. induction l as [|kv l IH]; intros acc n; simpl.
  - now rewrite app_nil_r.
  - unfold check_missing at 2. unfold lost at 1. simpl.
    destruct (dict_mem (fst kv) cur); simpl.
    + apply IH.
    + destruct (Qltb 3 (now - last_seen (snd kv))); simpl.
      * rewrite IH. now rewrite <- app_assoc.
      * apply IH.
Qed.

(** With a non-empty tracked set, a clock that reads [now] throughout the
    call and rows that build the dictionary [cur], [update_object_tracking]
    reports as missing exactly the tracked objects whose id is not among
    this tick's ids and whose stored sighting is more than three seconds
    before [now], in the order they were tracked; it returns [(False, "")]
    when there is none and [True] with a description when there is one; the
    description lists each missing class once, in the order the set is
    iterated; and the tracked set becomes this tick's detections. *)
Theorem update_steady_clock (r : results) (now : Q) (t : tracker)
    (cur : dict obj_data) (n : nat) :
  tracked_objects t <> [] ->
  current_of r (fun _ => now) = Return (cur, n) ->
  let missing := map snd (filter (lost cur now) (tracked_objects t)) in
  exists listing,
    Permutation listing (nodup string_dec (map class missing)) /\
    update_object_tracking r (fun _ => now) t
    = (Return match missing with
              | [] => (false, "")
              | _ :: _ =>
                  (true,
                   ("Potential theft detected: "
                      ++ String.concat ", " listing ++ " missing")%string)
              end,
       {| tracked_objects := cur; missing_objects := missing |}).
Proof.
  intros Hne Ec missing. exists (set_iter str_set (map class missing)).
  split; [apply set_iter_perm|].
  unfold update_object_tracking. rewrite Ec. subst missing.
  destruct (tracked_objects t) as [|kv l] eqn:Et; [contradiction|].
  cbn [dict_empty]. rewrite check_missing_steady. cbn [app].
  destruct (map snd (filter (lost cur now) (kv :: l))); reflexivity.
Qed.

(** ** One entry per id *)

Lemma rows_get (nm : Z -> string) (clock : clock_t)
    (rows : list detection) (acc : dict obj_data * nat) (k : string) :
  for_each (record_detection nm clock) rows ([], O) = Return acc ->
  option_map stored (dict_get k (fst acc))
  = option_map (stored_of nm) (find (names_id nm k) (rev rows)).
Proof.
  revert acc. induction rows as [|d rows IH] using rev_ind; intros acc E.
  - injection E as <-. reflexivity.
  - rewrite for_each_app in E.
    destruct (for_each (record_detection nm clock) rows ([], O)) as [acc1|e]
      eqn:E1; [|discriminate].
    cbn [bind for_each] in E.
    destruct (record_detection nm clock acc1 d) as [acc2|e] eqn:E2;
      [|discriminate].
    cbn [bind] in E. injection E as <-.
    rewrite rev_app_distr. cbn [rev app find].
    destruct (record_detection_step nm clock acc1 acc2 d E2)
      as [(_ & -> & Hno)|(c & id & Hc & _ & _ & _ & Hname & ->)].
    + rewrite Hno. now apply IH.
    + rewrite Hname. cbn [fst]. rewrite dict_get_set.
      destruct (String.eqb id k); [|now apply IH].
      cbn [option_map]. unfold stored, stored_of. now rewrite Hc.
Qed.

(** The tracked set after a tick that returned has one entry per id: under
    an id it holds the class, centre, area and box of the last row of a
    watched class that was given that id, so that of two objects of one
    class in one position and size bucket only the later row is tracked;
    and an id given to no such row is not in the set. *)
Theorem tracked_is_last_row (r : results) (clock : clock_t) (t : tracker)
    (k : string) :
  raised (fst (update_object_tracking r clock t)) = false ->
  option_map stored
    (dict_get k (tracked_objects (snd (update_object_tracking r clock t))))
  = option_map (stored_of (names r))
      (find (names_id (names r) k) (rev (boxes r))).
Proof.
  rewrite update_returns, update_tracked. unfold current_of.
  destruct (for_each (record_detection (names r) clock) (boxes r) ([], O))
    as [[cur n]|e] eqn:E; [|discriminate].
  intros _. exact (rows_get (names r) clock (boxes r) (cur, n) k E).
Qed.

End TrackingLife.

Lemma run_keeps_watched_witness :
  only_watched (snd (run (rt := numpy2 listed) slow_trace tracker_init)).
Proof.
  apply (run_keeps_watched (rt := numpy2 listed) slow_trace tracker_init).
  split; constructor.
Defined.

Lemma update_steady_clock_witness :
  let t := snd (update_object_tracking (rt := numpy2 listed)
                  (fst (tick_at 0 [laptop_row; cup_row]))
                  (fun _ => 0) tracker_init) in
  exists listing,
    Permutation listing ["laptop"] /\
    update_object_tracking (rt := numpy2 listed) (fst (tick_at 4 [cup_row]))
      (fun _ => 4) t
    = (Return (true,
               ("Potential theft detected: "
                  ++ String.concat ", " listing ++ " missing")%string),
       {| tracked_objects :=
            [("cup_21_8_4",
              {| class := "cup"; position := (px 420, px 175);
                 size := px 2000; last_seen := 4;
                 box := (px 400, px 150, px 440, px 200) |})];
          missing_objects :=
            [{| class := "laptop"; position := (px 200, px 160);
                size := px 24000; last_seen := 0;
                box := (px 100, px 100, px 300, px 220) |}] |}).
Proof.
  intros t.
  apply (update_steady_clock (rt := numpy2 listed) (fst (tick_at 4 [cup_row])) 4 t
           [("cup_21_8_4",
             {| class := "cup"; position := (px 420, px 175);
                size := px 2000; last_seen := 4;
                box := (px 400, px 150, px 440, px 200) |})] 1%nat).
  - vm_compute. discriminate.
  - vm_compute. reflexivity.
Defined.

Lemma tracked_is_last_row_witness :
  option_map stored
    (dict_get "cup_21_8_4"
       (tracked_objects
          (snd (update_object_tracking (rt := numpy2 listed)
                  {| boxes := [cup_row;
                               mkDet (px 401) (px 150) (px 441) (px 200)
                                     (f32 4 5) (px 41)];
                     names := coco_names |}
                  (fun _ => 0) tracker_init))))
  = Some ("cup", (px 421, px 175), px 2000, (px 401, px 150, px 441, px 200)).
Proof.
  apply (tracked_is_last_row (rt := numpy2 listed)
           {| boxes := [cup_row;
                        mkDet (px 401) (px 150) (px 441) (px 200)
                              (f32 4 5) (px 41)];
              names := coco_names |}
           (fun _ => 0) tracker_init "cup_21_8_4").
  vm_compute. reflexivity.
Defined.

Example two_cups_one_entry :
  let near := mkDet (px 401) (px 150) (px 441) (px 200) (f32 4 5) (px 41) in
  map fst (tracked_objects
             (snd (update_object_tracking (rt := numpy2 listed)
                     {| boxes := [cup_row; near]; names := coco_names |}
                     (fun _ => 0) tracker_init)))
  = ["cup_21_8_4"] /\
  obj_id (rt := numpy2 listed) "cup" cup_row
  = obj_id (rt := numpy2 listed) "cup" near.
Proof. vm_compute. split; reflexivity. Qed.

(** The sum [y1 + y2] of [edge_cup_row] is rounded up to 200, so the
    centre is computed as 100 and falls in the cell numbered 5, while the
    exact centre, 100 - 2^-18, lies in the cell numbered 4. *)
Example rounded_centre_changes_cell :
  obj_id (rt := numpy2 listed) "cup" edge_cup_row = Return "cup_18_5_8" /\
  obj_id (rt := numpy1 listed) "cup" edge_cup_row = Return "cup_18_5_8" /\
  reads (snd (box_center (rt := numpy2 listed) edge_cup_row)) 100 = true /\
  int_of ((num (y1 edge_cup_row) + num (y2 edge_cup_row)) / 2 / 20) = 4%Z.
Proof. vm_compute. repeat split. Qed.

(** A row with a NaN coordinate makes the call raise, and the tracked set
    stays as it was. *)
Example nan_row_raises :
  update_object_tracking (rt := numpy2 listed)
    {| boxes := [mkDet S754_nan (px 150) (px 440) (px 200) (f32 4 5) (px 41)];
       names := coco_names |}
    (fun _ => 0) tracker_init
  = (Raise (ValueError "cannot convert float NaN to integer"), tracker_init).
Proof. vm_compute. reflexivity. Qed.

(** ** Buckets *)

Lemma int_of_floor (x : Q) : (0 <= x)%Q -> int_of x = Qfloor x.
Proof.
  destruct x as [n d]. unfold Qle, int_of, Qfloor. simpl. intros H.
  apply Z.quot_div_nonneg; lia.
Qed.

(** [int(x / w)], as in the id of an object, is the number of the cell of
    width [w] that holds [x] when [x] is not negative (the floor); and
    since [int] truncates toward zero, [int(-x / w)] is its opposite, so
    the cell numbered 0 reaches from [-w] to [w]. *)
Theorem bucket_bounds (x w : Q) :
  (0 <= x)%Q -> (0 < w)%Q ->
  (inject_Z (int_of (x / w)) * w <= x)%Q /\
  (x < (inject_Z (int_of (x / w)) + 1) * w)%Q /\
  int_of (- x / w) = (- int_of (x / w))%Z.
Proof.
  intros Hx Hw.
  assert (Hq : (0 <= x / w)%Q).
  { apply Qle_shift_div_l; [exact Hw|]. now rewrite Qmult_0_l. }
  assert (Hne : ~ (w == 0)%Q) by (intros E; rewrite E in Hw; now apply Qlt_irrefl in Hw).
  assert (Ex : (x == (x / w) * w)%Q) by (field; exact Hne).
  rewrite (int_of_floor _ Hq).
  split; [|split].
  - rewrite Ex at 2. apply Qmult_le_compat_r; [apply Qfloor_le | now apply Qlt_le_weak].
  - rewrite Ex at 1. apply Qmult_lt_compat_r; [exact Hw|].
    rewrite <- (inject_Z_plus _ 1). apply Qlt_floor.
  - rewrite <- (int_of_floor _ Hq).
    unfold int_of. destruct x as [n d], w as [m e]. simpl.
    destruct m as [|m|m]; simpl; try (unfold Qlt in Hw; simpl in Hw; lia).
    rewrite <- Z.quot_opp_l by lia. f_equal. lia.
Qed.

Lemma bucket_bounds_witness :
  (inject_Z (int_of (205 / 20)) * 20 <= 205)%Q /\
  (205 < (inject_Z (int_of (205 / 20)) + 1) * 20)%Q /\
  int_of (- 205 / 20) = (- int_of (205 / 20))%Z.
Proof.
  apply (bucket_bounds 205 20); [discriminate | reflexivity].
Defined.

End TrackerLife.

(* ================================================================== *)
(** * The contact heuristic over scenes *)

Module PoseScenes.

Import Float.
Import Pose.
Import PoseView.
Import FloatFacts.
Import PoseSpec.

Section Scenes.

Context {rt : runtime}.

(** ** The order of the persons *)

Lemma gap2_sym (a b : keypoint) : gap2 a b = gap2 b a.
Proof.
  unfold gap2, sum_sq, sq.
  now rewrite (fmul_self_abs weak _ _ (fsub_abs row (kx a) (kx b))),
              (fmul_self_abs weak _ _ (fsub_abs row (ky a) (ky b))).
Qed.

Lemma distance_sym (a b : keypoint) : distance a b = distance b a.
Proof. unfold distance. now rewrite gap2_sym. Qed.

Lemma dot_sym (u v : float * float) : dot u v = dot v u.
Proof.
  unfold dot.
  now rewrite (fmul_comm weak (fst u)), (fmul_comm weak (snd u)).
Qed.

Lemma close_together_sym (p q : person) :
  close_together p q -> close_together q p.
Proof.
  intros (a & b & Ha & Hb & Ca & Cb & Hd).
  exists b, a. repeat split; auto. now rewrite distance_sym.
Qed.

Lemma in_contact_sym (p q : person) : in_contact p q -> in_contact q p.
Proof.
  intros (Hc & (Hp & Hq & Hd) & Hw). split; [|split].
  - now apply close_together_sym.
  - repeat split; auto. now rewrite dot_sym.
  - tauto.
Qed.

Lemma pair_b_sym (p q : person) : pair_b p q = pair_b q p.
Proof.
  apply eq_true_iff_eq. rewrite !pair_b_iff.
  split; apply in_contact_sym.
Qed.

Lemma existsb_perm {A} (f : A -> bool) (l l' : list A) :
  Permutation l l' -> existsb f l = existsb f l'.
Proof.
  intros P. apply eq_true_iff_eq. rewrite !existsb_exists.
  split; intros (x & Hin & Hx); exists x; split; auto.
  - now apply (Permutation_in _ P).
  - apply Permutation_sym in P. now apply (Permutation_in _ P).
Qed.

Lemma pairs_b_perm (l l' : list person) :
  Permutation l l' -> pairs_b l = pairs_b l'.
Proof.
  induction 1 as [|x l l' P IH|x y l|l l' l'' P1 IH1 P2 IH2]; simpl.
  - reflexivity.
  - now rewrite IH, (existsb_perm _ _ _ P).
  - rewrite (pair_b_sym y x).
    destruct (pair_b x y), (existsb (pair_b x) l), (existsb (pair_b y) l),
      (pairs_b l); reflexivity.
  - now rewrite IH1.
Qed.

(** On full keypoint arrays the verdict does not depend on the order in
    which the persons are listed. *)
Theorem verdict_ignores_order (poses poses' : list person) :
  Forall well_formed poses -> Permutation poses poses' ->
  check_inappropriate_contact poses' = check_inappropriate_contact poses.
Proof.
  intros H P.
  assert (H' : Forall well_formed poses') by (eapply Permutation_Forall; eauto).
  rewrite (check_pure poses H), (check_pure poses' H').
  now rewrite (pairs_b_perm poses poses' P).
Qed.

(** ** Bystanders *)

Lemma pairs_b_app (l1 l2 : list person) :
  pairs_b l1 = true \/ pairs_b l2 = true -> pairs_b (l1 ++ l2) = true.
Proof.
  induction l1 as [|x l1 IH]; simpl.
  - intros [H|H]; [discriminate | exact H].
  - rewrite existsb_app. intros [H|H].
    + apply orb_true_iff in H. destruct H as [H|H].
      * now rewrite H.
      * rewrite (IH (or_introl H)). apply orb_true_r.
    + rewrite (IH (or_intror H)). apply orb_true_r.
Qed.

(** Persons added to a scene, before or after, never turn a detection
    off: a contact found among some persons is found among them and any
    others. *)
Theorem bystanders_keep_detection (before poses after : list person) :
  Forall well_formed (before ++ poses ++ after) ->
  check_inappropriate_contact poses = Return (true, contact_message) ->
  check_inappropriate_contact (before ++ poses ++ after)
  = Return (true, contact_message).
Proof.
  intros H Hc.
  assert (Hp : Forall well_formed poses).
  { apply Forall_app in H. destruct H as [_ H].
    apply Forall_app in H. tauto. }
  rewrite (check_pure poses Hp) in Hc.
  rewrite (check_pure _ H).
  destruct (pairs_b poses) eqn:E; [|discriminate].
  rewrite pairs_b_app; [reflexivity|].
  right. apply pairs_b_app. now left.
Qed.

(** ** Landmarks below the confidence threshold *)

Lemma torso_unseen_far (p q : person) :
  torso_unseen p \/ torso_unseen q -> ~ close_together p q.
Proof.
  intros H (a & b & Ha & Hb & Ca & Cb & _). unfold confident in *.
  destruct H as [H|H]; [specialize (H a Ha) | specialize (H b Hb)]; congruence.
Qed.

Lemma wrists_unseen_off (p q : person) :
  wrists_unseen p -> ~ wrist_on p q.
Proof.
  intros H (h & t & Hh & _ & Ch & _). unfold confident in *.
  specialize (H h Hh). congruence.
Qed.

Lemma no_pair_verdict (poses : list person) :
  Forall well_formed poses -> ~ some_pair_in_contact poses ->
  check_inappropriate_contact poses = Return (false, "").
Proof.
  intros H Hn. rewrite (check_pure poses H).
  destruct (pairs_b poses) eqn:E; [|reflexivity].
  exfalso. apply Hn. now apply pairs_b_iff.
Qed.

(** Landmarks below 0.5 confidence never count.  When in every pair of
    persons one has no confident shoulder or hip, the minimum distance of
    the pair stays infinite and the verdict is [(False, "")]; and so it is
    when no person has a confident wrist, however close and however
    oriented the persons are. *)
Theorem unseen_landmarks_never_count (poses : list person) :
  Forall well_formed poses ->
  ((forall i j p q,
      (i < j)%nat -> nth_error poses i = Some p -> nth_error poses j = Some q ->
      torso_unseen p \/ torso_unseen q) ->
   check_inappropriate_contact poses = Return (false, "")) /\
  (Forall wrists_unseen poses ->
   check_inappropriate_contact poses = Return (false, "")).
Proof.
  intros H. split; intros Hu; apply (no_pair_verdict poses H).
  - intros (i & j & p & q & Hij & Hi & Hj & Hc & _).
    exact (torso_unseen_far p q (Hu i j p q Hij Hi Hj) Hc).
  - intros (i & j & p & q & Hij & Hi & Hj & _ & _ & Hw).
    rewrite Forall_forall in Hu.
    apply nth_error_In in Hi, Hj.
    destruct Hw as [Hw|Hw].
    + exact (wrists_unseen_off p q (Hu p Hi) Hw).
    + exact (wrists_unseen_off q p (Hu q Hj) Hw).
Qed.

(** ** When the call raises *)

(** [check_inappropriate_contact] never raises on full keypoint arrays,
    and never on fewer than two persons, whatever their arrays; with two
    persons or more it raises [IndexError] at once when the first array has
    no row 5. *)
Theorem contact_check_errors (poses : list person) :
  (Forall well_formed poses ->
   raised (check_inappropriate_contact poses) = false) /\
  ((List.length poses < 2)%nat ->
   check_inappropriate_contact poses = Return (false, "")) /\
  (forall p q rest, poses = p :: q :: rest -> (List.length p <= 5)%nat ->
   check_inappropriate_contact poses = Raise IndexError).
Proof.
  split; [|split].
  - intros H. rewrite (check_pure poses H). reflexivity.
  - intros H. unfold check_inappropriate_contact.
    apply Nat.ltb_lt in H. now rewrite H.
  - intros p q rest -> Hp. unfold check_inappropriate_contact.
    cbn [List.length Nat.ltb Nat.leb]. cbn [check_pairs for_any].
    unfold pair_check, _calculate_minimum_distance, key_points.
    cbn [for_each]. unfold at_ at 1.
    assert (E : nth_error p 5 = None) by (apply nth_error_None; exact Hp).
    rewrite E. reflexivity.
Qed.

End Scenes.

Lemma verdict_ignores_order_witness :
  check_inappropriate_contact (rt := numpy2 listed) [person_b; person_a wrist_near]
  = check_inappropriate_contact (rt := numpy2 listed) scene_near.
Proof.
  apply (verdict_ignores_order (rt := numpy2 listed)
           scene_near [person_b; person_a wrist_near]).
  - repeat constructor; unfold well_formed; simpl; lia.
  - apply perm_swap.
Defined.

Lemma bystanders_keep_detection_witness :
  check_inappropriate_contact (rt := numpy2 listed)
    ([person_b] ++ scene_near ++ [person_a wrist_far])
  = Return (true, contact_message).
Proof.
  apply (bystanders_keep_detection (rt := numpy2 listed)
           [person_b] scene_near [person_a wrist_far]).
  - repeat constructor; unfold well_formed; simpl; lia.
  - vm_compute. reflexivity.
Defined.

Lemma unseen_landmarks_never_count_witness :
  check_inappropriate_contact (rt := numpy2 listed)
    [person_a unseen; synthetic (landmark 100 110 9) (landmark 120 110 9)
                        unseen unseen
                        (landmark 100 50 9) (landmark 120 50 9)]
  = Return (false, "").
Proof.
  apply (unseen_landmarks_never_count (rt := numpy2 listed)
           [person_a unseen;
            synthetic (landmark 100 110 9) (landmark 120 110 9)
              unseen unseen
              (landmark 100 50 9) (landmark 120 50 9)]).
  - repeat constructor; unfold well_formed; simpl; lia.
  - repeat constructor; intros h [<-|[<-|[]]]; vm_compute; reflexivity.
Defined.

Lemma contact_check_errors_witness :
  raised (check_inappropriate_contact (rt := numpy2 listed) scene_far) = false /\
  check_inappropriate_contact (rt := numpy2 listed) [firstn 3 person_b]
    = Return (false, "") /\
  check_inappropriate_contact (rt := numpy2 listed) [firstn 3 person_b; person_b]
    = Raise IndexError.
Proof.
  split; [|split].
  - apply (contact_check_errors (rt := numpy2 listed) scene_far).
    repeat constructor; unfold well_formed; simpl; lia.
  - apply (contact_check_errors (rt := numpy2 listed) [firstn 3 person_b]).
    simpl. lia.
  - apply (proj2 (proj2 (contact_check_errors (rt := numpy2 listed)
                           [firstn 3 person_b; person_b]))
             (firstn 3 person_b) person_b []).
    + reflexivity.
    + simpl. lia.
Defined.

End PoseScenes.

(* ================================================================== *)
(** * Starting and stopping the agent *)

Module AgentStart.

Import Agent.

Section Start.

Variable frame : Type.

Implicit Types (a : agent frame) (ps : list (Video.VideoProcessor frame)).

(** The loop over the sources goes through exactly when every source
    opens; it keeps the number of processors and their buffers, and when it
    goes through every processor holds its capture. *)
Lemma start_sources_spec (opens : nat -> bool) (vis : bool) ps
    (i : nat) (ws : list string) :
  let '(ok, ps', ws') := start_sources opens vis i ps ws in
  (ok = true <-> forall j, (j < List.length ps)%nat -> opens (i + j)%nat = true) /\
  map (@Video.frame_buffer frame) ps' = map (@Video.frame_buffer frame) ps /\
  List.length ps' = List.length ps /\
  (ok = true -> Forall (fun vp => Video.cap vp = true) ps').
Proof.
  revert i ws. induction ps as [|p ps IH]; intros i ws; simpl.
  - repeat split; auto. intros j Hj. lia.
  - unfold start. destruct (opens i) eqn:Eo.
    + specialize (IH (S i)
        (if vis then ws ++ [("Camera " ++ str_of_int (Z.of_nat i))%string] else ws)).
      destruct (start_sources opens vis (S i) ps _) as [[ok ps'] ws'].
      destruct IH as (Hok & Hb & Hl & Hc). simpl.
      split; [|split; [|split]].
      * rewrite Hok. split.
        -- intros H [|j] Hj; [now rewrite Nat.add_0_r|].
           replace (i + S j)%nat with (S i + j)%nat by lia. apply H. lia.
        -- intros H j Hj.
           replace (S i + j)%nat with (i + S j)%nat by lia. apply H. lia.
      * now rewrite Hb.
      * now rewrite Hl.
      * intros H. constructor; [reflexivity | now apply Hc].
    + simpl. split; [|split; [|split]]; auto; try discriminate.
      split; [discriminate|]. intros H.
      specialize (H O). rewrite Nat.add_0_r in H. rewrite H in Eo; [discriminate|lia].
Qed.

Lemma release_all_closed ps :
  Forall (fun vp => Video.cap vp = false) (map Capture.release ps).
Proof. induction ps; simpl; constructor; auto. Qed.

Lemma release_all_buffers ps :
  map (@Video.frame_buffer frame) (map Capture.release ps)
  = map (@Video.frame_buffer frame) ps.
Proof. induction ps as [|p ps IH]; simpl; [reflexivity | now rewrite IH]. Qed.

(** When some video source does not open, [start] leaves nothing
    running: the agent is not running, every processor has given up its
    capture, the audio is not recording, no worker has been started, and
    the buffers and the alert store are as they were. *)
Theorem failed_open_leaves_nothing_running (opens : nat -> bool)
    (stream_opens : bool) a (i : nat) :
  running a = false ->
  (i < List.length (video_processors a))%nat -> opens i = false ->
  let a' := start_up opens stream_opens a in
  running a' = false /\
  Forall (fun vp => Video.cap vp = false) (video_processors a') /\
  Audio.recording (proc (audio_processor a')) = false /\
  stream (audio_processor a') = false /\
  threads a' = threads a /\
  map (@Video.frame_buffer frame) (video_processors a')
  = map (@Video.frame_buffer frame) (video_processors a) /\
  alert_manager a' = alert_manager a.
Proof.
  intros Hr Hi Ho a'. subst a'. unfold start_up. rewrite Hr. simpl.
  assert (S := start_sources_spec opens (show_visualization a)
                 (video_processors a) O (windows a)).
  destruct (start_sources opens (show_visualization a) 0
              (video_processors a) (windows a)) as [[ok ps'] ws'].
  destruct S as (Hok & Hb & Hl & _).
  destruct ok.
  - assert (H : opens i = true) by (apply (proj1 Hok eq_refl i Hi)).
    congruence.
  - simpl. repeat split.
    + apply release_all_closed.
    + now rewrite release_all_buffers.
Qed.

(** When every video source opens, [start] leaves the agent running with
    every capture held; a second [start] then changes nothing.  In safe
    mode no worker is started and the audio is left alone; otherwise the
    two detection workers are started and the audio is marked as
    recording, also when its stream could not be opened. *)
Theorem start_with_all_sources (opens : nat -> bool) (stream_opens : bool) a :
  running a = false ->
  (forall j, (j < List.length (video_processors a))%nat -> opens j = true) ->
  let a' := start_up opens stream_opens a in
  running a' = true /\
  Forall (fun vp => Video.cap vp = true) (video_processors a') /\
  (forall opens' stream_opens', start_up opens' stream_opens' a' = a') /\
  (safe_mode a = true ->
   threads a' = threads a /\ audio_processor a' = audio_processor a) /\
  (safe_mode a = false ->
   threads a' = threads a ++ ["_pose_detection_thread"; "_object_detection_thread"]
   /\ (Audio.recording (proc (audio_processor a)) = false ->
       Audio.recording (proc (audio_processor a')) = true
       /\ stream (audio_processor a') = stream_opens || stream (audio_processor a))).
Proof.
  intros Hr Ho a'. subst a'. unfold start_up. rewrite Hr. simpl.
  assert (S := start_sources_spec opens (show_visualization a)
                 (video_processors a) O (windows a)).
  destruct (start_sources opens (show_visualization a) 0
              (video_processors a) (windows a)) as [[ok ps'] ws'].
  destruct S as (Hok & Hb & Hl & Hc).
  assert (E : ok = true) by (apply Hok; exact Ho). subst ok.
  specialize (Hc eq_refl). simpl.
  destruct (safe_mode a) eqn:Es; simpl.
  - repeat split; auto; try discriminate.
  - repeat split; auto; try discriminate.
    + unfold start_recording in *.
      destruct (Audio.recording (proc (audio_processor a))); [congruence|].
      destruct stream_opens; reflexivity.
    + unfold start_recording.
      destruct (Audio.recording (proc (audio_processor a))); [congruence|].
      destruct stream_opens; reflexivity.
Qed.

(** [stop] can be called again, or on an agent that was never started: it
    changes nothing more; and it clears neither the buffered frames, nor
    the alert store, nor the list of workers. *)
Theorem stop_idempotent a :
  stop (stop a) = stop a /\
  running (stop a) = false /\
  Forall (fun vp => Video.cap vp = false) (video_processors (stop a)) /\
  map (@Video.frame_buffer frame) (video_processors (stop a))
  = map (@Video.frame_buffer frame) (video_processors a) /\
  alert_manager (stop a) = alert_manager a /\
  threads (stop a) = threads a.
Proof.
  split; [|split; [|split; [|split; [|split]]]]; try reflexivity.
  - unfold stop, with_audio, with_processors, with_running, stop_recording. simpl.
    f_equal. rewrite map_map. apply map_ext. intros vp. reflexivity.
  - apply release_all_closed.
  - apply release_all_buffers.
Qed.

End Start.

(** [start_recording] marks the processor as recording before it creates
    the stream.  When the stream cannot be created the call raises, the
    mark stays and the buffer is untouched, so every later call returns at
    once without trying the stream again; only after [stop_recording] does
    a call open the stream. *)
Theorem failed_stream_blocks_retry (r : recorder) :
  Audio.recording (proc r) = false ->
  let r1 := snd (start_recording false r) in
  fst (start_recording false r) = Raise RuntimeError /\
  Audio.recording (proc r1) = true /\
  stream r1 = stream r /\
  Audio.audio_buffer (proc r1) = Audio.audio_buffer (proc r) /\
  (forall stream_opens, start_recording stream_opens r1 = (Return false, r1)) /\
  fst (start_recording true (stop_recording r1)) = Return true /\
  stream (snd (start_recording true (stop_recording r1))) = true.
Proof.
  intros H r1. subst r1. unfold start_recording. rewrite H. simpl.
  repeat split.
Qed.

Lemma failed_stream_blocks_retry_witness :
  Audio.recording (proc (audio_processor desk_agent)) = false /\
  fst (start_recording false (audio_processor desk_agent)) = Raise RuntimeError /\
  Audio.recording
    (proc (snd (start_recording false (audio_processor desk_agent)))) = true /\
  start_recording true
    (snd (start_recording false (audio_processor desk_agent)))
  = (Return false, snd (start_recording false (audio_processor desk_agent))).
Proof.
  split; [reflexivity|].
  destruct (failed_stream_blocks_retry (audio_processor desk_agent) eq_refl)
    as (H1 & H2 & _ & _ & H5 & _).
  split; [exact H1 | split; [exact H2 | exact (H5 true)]].
Defined.

Lemma failed_open_leaves_nothing_running_witness :
  let a' := start_up (fun _ => false) true desk_agent in
  running a' = false /\
  Forall (fun vp => Video.cap vp = false) (video_processors a') /\
  Audio.recording (proc (audio_processor a')) = false /\
  stream (audio_processor a') = false /\
  threads a' = threads desk_agent /\
  map (@Video.frame_buffer nat) (video_processors a')
  = map (@Video.frame_buffer nat) (video_processors desk_agent) /\
  alert_manager a' = alert_manager desk_agent.
Proof.
  apply (failed_open_leaves_nothing_running nat (fun _ => false) true desk_agent O);
    [reflexivity | simpl; lia | reflexivity].
Defined.

Lemma start_with_all_sources_witness :
  let a' := start_up (fun _ => true) false desk_agent in
  running a' = true /\
  threads a' = ["_pose_detection_thread"; "_object_detection_thread"] /\
  Audio.recording (proc (audio_processor a')) = true /\
  stream (audio_processor a') = false.
Proof.
  destruct (start_with_all_sources nat (fun _ => true) false desk_agent)
    as (Hr & _ & _ & _ & Hn).
  - reflexivity.
  - intros j Hj. reflexivity.
  - destruct (Hn eq_refl) as [Ht Ha]. destruct (Ha eq_refl) as [H1 H2].
    repeat split; assumption.
Defined.

End AgentStart.

(* ================================================================== *)
(** * One round of a detection loop *)

Module AgentRounds.

Import AlertStore.
Import Agent.

Lemma put_same {frame} (i : nat) (vp vp0 : Video.VideoProcessor frame)
    (ps : list (Video.VideoProcessor frame)) :
  nth_error ps i = Some vp0 -> nth_error (put_processor frame i vp ps) i = Some vp.
Proof.
  revert i. induction ps as [|p ps IH]; intros [|i] H; simpl in *;
    try discriminate; auto.
Qed.

Section Rounds.

Variable frame : Type.
Variable fit : frame -> frame.
Variable VIDEO_DIR : string.
Variable AUDIO_DIR : string.

Context {rt : Float.runtime}.

Implicit Types (a : agent frame) (w : world frame).

(** The pose loop reads [self.video_processors[2]]: with fewer than three
    video sources every round raises [IndexError] before a frame is read,
    and leaves the agent as it was. *)
Theorem pose_round_needs_three_sources w a :
  (List.length (video_processors a) < 3)%nat ->
  pose_round fit VIDEO_DIR AUDIO_DIR w a = (Raise IndexError, a).
Proof.
  intros H. unfold pose_round.
  assert (E : nth_error (video_processors a) 2 = None)
    by (apply nth_error_None; lia).
  now rewrite E.
Qed.

(** What the block under [if detected:] does to the alert list. *)
Lemma report_alerts (i : nat) (prefix a_type descr : string) w a :
  alerts (alert_manager (snd (report VIDEO_DIR AUDIO_DIR i prefix a_type descr w a)))
  = alerts (alert_manager a)
  \/ exists vp audio_path,
       nth_error (video_processors a) i = Some vp /\
       fst (Audio.save_alert_audio AUDIO_DIR (prefix ++ w_epoch_audio frame w)%string
              (w_stamp_audio frame w) (w_sf_fails w) (proc (audio_processor a)))
       = Return audio_path /\
       alerts (alert_manager (snd (report VIDEO_DIR AUDIO_DIR i prefix a_type descr w a)))
       = alerts (alert_manager a)
         ++ [to_dict
               (Alert_init (w_uuid4 frame w) (w_now frame w) a_type descr
                  (fst (Video.save_alert_video VIDEO_DIR
                          (prefix ++ w_epoch_video frame w)%string
                          (w_stamp_video frame w) (w_writer_ok w) vp))
                  audio_path)].
Proof.
  unfold report.
  destruct (nth_error (video_processors a) i) as [vp|] eqn:En; [|now left].
  destruct (Video.save_alert_video VIDEO_DIR _ _ _ vp) as [video_path vp1] eqn:Ev.
  cbn [audio_processor with_processors proc].
  destruct (Audio.save_alert_audio AUDIO_DIR _ _ _ _) as [[audio_path|e] ap1];
    [|now left].
  right. exists vp, audio_path.
  split; [reflexivity|]. split; [reflexivity|].
  rewrite Ev. cbn [alert_manager with_audio with_processors fst].
  destruct (w_io w); reflexivity.
Qed.

Lemma overlay_manager (i : nat) w a :
  alert_manager (snd (overlay i w a)) = alert_manager a.
Proof.
  unfold overlay. destruct (show_visualization a); [|reflexivity].
  destruct (nth_error (video_processors a) i) as [vp|]; [|reflexivity].
  destruct (set_last (w_overlay w) (Video.frame_buffer vp)); reflexivity.
Qed.

(** What a successful read leaves in the buffer. *)
Lemma read_keeps_frame (vp vp1 : Video.VideoProcessor frame) (f : frame) w :
  Video.read_frame fit (w_opens w) (w_frame w) vp = (Return (Some f), vp1) ->
  (1 <= Video.max_buffer_size vp)%Z ->
  exists b, Video.frame_buffer vp1 = b ++ [f]
            /\ Video.clips vp1 = Video.clips vp.
Proof.
  intros Er Hc. unfold Video.read_frame in Er.
  destruct (negb (Video.cap vp) && negb (w_opens w)); [discriminate|].
  destruct (w_frame w) as [f0|]; [|discriminate].
  injection Er as <- <-.
  destruct (CaptureSpec.push_last frame (fit f0) (Video.set_cap true vp) Hc)
    as [b Eb].
  exists b. split; [exact Eb|].
  unfold Video.push. destruct (Z.of_nat _ >? _)%Z; reflexivity.
Qed.

(** One round of the object loop adds at most one alert, and only when
    the tracker reported a theft on the frame just read.  The alert added
    has the type "object_theft", the description the tracker returned, the
    video path [save_alert_video] returned on the buffer that holds the
    frame just read and the audio path [save_alert_audio] returned on the
    agent's audio buffer; and when the buffer has room for a frame the
    video path is never [None]. *)
Theorem object_round_reports_once w a :
  let a' := object_iteration fit VIDEO_DIR AUDIO_DIR w a in
  alerts (alert_manager a') = alerts (alert_manager a)
  \/ exists vp f res descr audio_path,
       nth_error (video_processors a) 0 = Some vp /\
       fst (Video.read_frame fit (w_opens w) (w_frame w) vp) = Return (Some f) /\
       w_results w = Some res /\
       fst (Tracker.update_object_tracking res (w_clock w) (object_detector a))
       = Return (true, descr) /\
       fst (Audio.save_alert_audio AUDIO_DIR ("object_" ++ w_epoch_audio frame w)%string
              (w_stamp_audio frame w) (w_sf_fails w) (proc (audio_processor a)))
       = Return audio_path /\
       let video_path :=
         fst (Video.save_alert_video VIDEO_DIR
                ("object_" ++ w_epoch_video frame w)%string
                (w_stamp_video frame w) (w_writer_ok w)
                (snd (Video.read_frame fit (w_opens w) (w_frame w) vp))) in
       alerts (alert_manager a')
       = alerts (alert_manager a)
         ++ [to_dict (Alert_init (w_uuid4 frame w) (w_now frame w) "object_theft"
                        descr video_path audio_path)] /\
       ((1 <= Video.max_buffer_size vp)%Z -> video_path <> None).
Proof.
  intros a'. subst a'. unfold object_iteration, object_round.
  destruct (nth_error (video_processors a) 0) as [vp|] eqn:En; [|now left].
  destruct (Video.read_frame fit (w_opens w) (w_frame w) vp) as [r vp1] eqn:Er.
  destruct r as [[f|]|e]; [| now left | now left].
  destruct (w_results w) as [res|] eqn:Ew; [|now left].
  cbn [object_detector with_processors].
  destruct (Tracker.update_object_tracking res (w_clock w) (object_detector a))
    as [[[detected descr]|e] t1] eqn:Eu; [|now left].
  destruct detected.
  - set (a2 := with_detector frame t1
                 (with_processors frame
                    (put_processor frame 0 vp1 (video_processors a)) a)).
    assert (Hm : alert_manager a2 = alert_manager a) by reflexivity.
    assert (Hn : nth_error (video_processors a2) 0 = Some vp1)
      by (apply (put_same 0 vp1 vp); exact En).
    destruct (report_alerts 0 "object_" "object_theft" descr w a2)
      as [Hs | (vp' & audio_path & Hv & Hp & Ha)].
    + left.
      destruct (report VIDEO_DIR AUDIO_DIR 0 "object_" "object_theft" descr w a2)
        as [[u|e] a3]; simpl in *; [rewrite overlay_manager|]; congruence.
    + right. rewrite Hn in Hv. injection Hv as <-.
      exists vp, f, res, descr, audio_path. rewrite Er, Eu.
      split; [reflexivity|]. split; [reflexivity|]. split; [reflexivity|].
      split; [reflexivity|]. split; [exact Hp|]. cbn [snd]. split.
      * destruct (report VIDEO_DIR AUDIO_DIR 0 "object_" "object_theft" descr w a2)
          as [[u|e] a3]; simpl in *; [rewrite overlay_manager|]; congruence.
      * intros Hc.
        destruct (read_keeps_frame vp vp1 f w Er Hc) as (b & Hb & _).
        unfold Video.save_alert_video. rewrite Hb.
        destruct (b ++ [f]) eqn:E; [destruct b; discriminate | discriminate].
  - left. simpl. now rewrite overlay_manager.
Qed.

(** When [sf.write] raises during the audio export of a detected theft,
    the round ends there: no alert reaches the store, although the tracker
    has already moved on to this tick's detections and the video clip is
    written. *)
Theorem audio_failure_drops_alert w a (vp : Video.VideoProcessor frame)
    (f : frame) (res : Tracker.results) (descr : string) (t1 : Tracker.tracker) :
  nth_error (video_processors a) 0 = Some vp ->
  fst (Video.read_frame fit (w_opens w) (w_frame w) vp) = Return (Some f) ->
  (1 <= Video.max_buffer_size vp)%Z ->
  w_results w = Some res ->
  Tracker.update_object_tracking res (w_clock w) (object_detector a)
  = (Return (true, descr), t1) ->
  Audio.audio_buffer (proc (audio_processor a)) <> [] ->
  w_sf_fails w = true -> w_writer_ok w = true ->
  let a' := object_iteration fit VIDEO_DIR AUDIO_DIR w a in
  fst (object_round fit VIDEO_DIR AUDIO_DIR w a) = Raise RuntimeError /\
  alert_manager a' = alert_manager a /\
  object_detector a' = t1 /\
  exists vp', nth_error (video_processors a') 0 = Some vp' /\
              List.length (Video.clips vp') = S (List.length (Video.clips vp)).
Proof.
  intros En Er Hc Ew Eu Hb Hs Hw a'. subst a'.
  unfold object_iteration, object_round. rewrite En.
  destruct (Video.read_frame fit (w_opens w) (w_frame w) vp) as [r vp1] eqn:Er1.
  simpl in Er. subst r. rewrite Ew.
  cbn [object_detector with_processors]. rewrite Eu.
  destruct (read_keeps_frame vp vp1 f w Er1 Hc) as (b & Eb & Ec).
  unfold report. cbn [video_processors with_detector with_processors].
  rewrite (put_same 0 vp1 vp _ En).
  destruct (Video.save_alert_video VIDEO_DIR ("object_" ++ w_epoch_video frame w)
              (w_stamp_video frame w) (w_writer_ok w) vp1)
    as [vpath vp2] eqn:Esv.
  assert (Hclips : List.length (Video.clips vp2) = S (List.length (Video.clips vp))).
  { unfold Video.save_alert_video in Esv. rewrite Eb in Esv.
    destruct (b ++ [f]) as [|x l] eqn:E; [destruct b; discriminate|].
    rewrite Hw in Esv. injection Esv as _ <-.
    cbn [Video.clips]. rewrite Ec, length_app. simpl. lia. }
  cbn [audio_processor with_detector with_processors proc].
  unfold Audio.save_alert_audio.
  destruct (Audio.audio_buffer (proc (audio_processor a))) as [|s0 buf] eqn:Ea;
    [contradiction|].
  rewrite Hs.
  cbn [fst snd alert_manager object_detector video_processors
       with_audio with_detector with_processors].
  split; [reflexivity|]. split; [reflexivity|]. split; [reflexivity|].
  exists vp2. split; [|exact Hclips].
  apply (put_same 0 vp2 vp1). apply (put_same 0 vp1 vp). exact En.
Qed.

(** One round of the pose loop adds at most one alert, and only when
    [check_inappropriate_contact] returned [True] on the poses of the frame
    just read; a check that raises adds none.  The alert added has the type
    "inappropriate_contact" and the description the check returned. *)
Theorem pose_round_reports_once w a :
  let a' := pose_iteration fit VIDEO_DIR AUDIO_DIR w a in
  alerts (alert_manager a') = alerts (alert_manager a)
  \/ exists poses descr video_path audio_path,
       w_poses w = Some poses /\
       Pose.check_inappropriate_contact poses = Return (true, descr) /\
       alerts (alert_manager a')
       = alerts (alert_manager a)
         ++ [to_dict (Alert_init (w_uuid4 frame w) (w_now frame w)
                        "inappropriate_contact" descr video_path audio_path)].
Proof.
  intros a'. subst a'. unfold pose_iteration, pose_round.
  destruct (nth_error (video_processors a) 2) as [vp|] eqn:En; [|now left].
  destruct (Video.read_frame fit (w_opens w) (w_frame w) vp) as [r vp1] eqn:Er.
  destruct r as [[f|]|e]; [| now left | now left].
  destruct (w_poses w) as [poses|] eqn:Ew; [|now left].
  destruct (Pose.check_inappropriate_contact poses) as [[detected descr]|e] eqn:Ec;
    [|now left].
  destruct detected.
  - set (a1 := with_processors frame
                 (put_processor frame 2 vp1 (video_processors a)) a).
    assert (Hm : alert_manager a1 = alert_manager a) by reflexivity.
    destruct (report_alerts 2 "pose_" "inappropriate_contact" descr w a1)
      as [Hs | (vp' & audio_path & Hv & Hp & Ha)].
    + left.
      destruct (report VIDEO_DIR AUDIO_DIR 2 "pose_" "inappropriate_contact" descr w a1)
        as [[u|e] a3]; simpl in *; [rewrite overlay_manager|]; congruence.
    + right.
      exists poses, descr,
        (fst (Video.save_alert_video VIDEO_DIR ("pose_" ++ w_epoch_video frame w)%string
                (w_stamp_video frame w) (w_writer_ok w) vp')), audio_path.
      split; [reflexivity|]. split; [exact Ec|].
      destruct (report VIDEO_DIR AUDIO_DIR 2 "pose_" "inappropriate_contact" descr w a1)
        as [[u|e] a3]; simpl in *; [rewrite overlay_manager|]; congruence.
  - left. simpl. now rewrite overlay_manager.
Qed.

End Rounds.

Lemma audio_failure_drops_alert_witness :
  let a' := object_iteration (rt := Float.numpy2 listed) (fun n : nat => n)
              "videos" "audio" (theft_world true) desk_agent in
  fst (object_round (rt := Float.numpy2 listed) (fun n : nat => n)
         "videos" "audio" (theft_world true) desk_agent)
    = Raise RuntimeError /\
  alert_manager a' = alert_manager desk_agent /\
  object_detector a'
  = snd (Tracker.update_object_tracking (rt := Float.numpy2 listed)
           (fst (Tracker.tick_at 4 [Tracker.cup_row]))
           (fun _ => 4) (object_detector desk_agent)) /\
  exists vp', nth_error (video_processors a') 0 = Some vp' /\
              List.length (Video.clips vp')
              = S (List.length
                     (Video.clips (Video.VideoProcessor_init (frame := nat) 10 30))).
Proof.
  apply (audio_failure_drops_alert nat (fun n => n) "videos" "audio"
           (rt := Float.numpy2 listed)
           (theft_world true) desk_agent (Video.VideoProcessor_init 10 30) 7%nat
           (fst (Tracker.tick_at 4 [Tracker.cup_row]))
           "Potential theft detected: laptop missing").
  - reflexivity.
  - reflexivity.
  - simpl. lia.
  - reflexivity.
  - vm_compute. reflexivity.
  - vm_compute. discriminate.
  - reflexivity.
  - reflexivity.
Defined.

Lemma pose_round_needs_three_sources_witness :
  pose_round (rt := Float.numpy2 listed) (fun n : nat => n) "videos" "audio"
    (theft_world false) desk_agent
  = (Raise IndexError, desk_agent).
Proof.
  apply (pose_round_needs_three_sources nat (fun n => n) "videos" "audio"
           (rt := Float.numpy2 listed)
           (theft_world false) desk_agent).
  simpl. lia.
Defined.

(** The same round when the audio export goes through: one alert, with
    both evidence paths. *)
Example theft_round_adds_alert :
  map (fun d => (d_id d, d_alert_type d, d_description d, d_video_path d, d_audio_path d))
    (alerts (alert_manager
               (object_iteration (rt := Float.numpy2 listed) (fun n : nat => n)
                  "videos" "audio" (theft_world false) desk_agent)))
  = [("1b9d6bcd", "object_theft", "Potential theft detected: laptop missing",
      Some "videos/alert_object_1714558530_20240501_101530.mp4",
      Some "audio/alert_object_1714558530_20240501_101530.wav")].
Proof. vm_compute. reflexivity. Qed.

End AgentRounds.

